(** * LLM batch text analyser: a shallow embedding of the three scripts

    [pdf_to_txt_batch.py] (PDF discovery, text cleanup, batching),
    [txt_to_md_claude.py] and [txt_to_md_gemini.py] (the per-file
    transformation loop with retries), and the properties that the
    specification states about them.

    Conventions of the embedding:
    - a Python [str] is a [list ascii]; a character is an 8-bit code
      point, and the classes [\s], [\d], [\w] and [str.lower] are
      Python's on that range;
    - durations (arguments of [time.sleep]) are whole numbers of
      seconds, as the values of the shipped configuration are; a sleep
      raises on a negative duration and on one that the platform finds
      too long, and which durations those are is an input of the model;
    - the external service, the PDF library and the file system are
      inputs of the model: an oracle for the service calls, the pages
      or the exception for a PDF, a listing for a folder;
    - the effects of the transformation loop (service calls, sleeps,
      files written) are recorded in an event log. *)

From Stdlib Require Import List Arith ZArith Lia Bool Ascii String DecimalString.
From Stdlib Require Import DecimalNat.
From Stdlib Require Import Sorting.Sorted Sorting.Permutation.
Import ListNotations.

Set Implicit Arguments.
Open Scope list_scope.

(* ================================================================== *)
(** * Python strings *)
(* ================================================================== *)

Module Py.

Definition str := list ascii.

Definition code (c : ascii) : nat := nat_of_ascii c.

Definition between (lo hi : nat) (c : ascii) : bool :=
  (lo <=? code c) && (code c <=? hi).

Definition nl : ascii := ascii_of_nat 10.

Definition is_nl (c : ascii) : bool := Ascii.eqb c nl.

Definition is_char (a c : ascii) : bool := Ascii.eqb c a.

(** [str.isspace] on one character, also the class [\s]:
    TAB..CR, FS..US, space, NEL and NBSP. *)
Definition is_space (c : ascii) : bool :=
  between 9 13 c || between 28 32 c
  || (code c =? 133) || (code c =? 160).

(** The class [\d]: the decimal digits. *)
Definition is_digit (c : ascii) : bool := between 48 57 c.

(** The class [\w]: alphanumeric characters and the underscore. *)
Definition is_word (c : ascii) : bool :=
  between 48 57 c || between 65 90 c || between 97 122 c
  || (code c =? 95)
  || (code c =? 170) || (code c =? 178) || (code c =? 179)
  || (code c =? 181) || (code c =? 185) || (code c =? 186)
  || between 188 190 c
  || between 192 214 c || between 216 246 c || between 248 255 c.

(** [str.lower] on one character. *)
Definition lower_char (c : ascii) : ascii :=
  if between 65 90 c || between 192 214 c || between 216 222 c
  then ascii_of_nat (code c + 32) else c.

Definition lower (s : str) : str := map lower_char s.

(** A literal as it is written in the scripts: backslash-n stands for
    the newline character. *)
Fixpoint lit_chars (s : list ascii) : str :=
  match s with
  | "\"%char :: "n"%char :: r => nl :: lit_chars r
  | c :: r => c :: lit_chars r
  | [] => []
  end.

Definition lit (s : string) : str := lit_chars (list_ascii_of_string s).

Definition str_eqb (a b : str) : bool :=
  String.eqb (string_of_list_ascii a) (string_of_list_ascii b).

(** [s.startswith(p)] *)
Fixpoint startswith (p s : str) : bool :=
  match p, s with
  | [], _ => true
  | a :: p', b :: s' => Ascii.eqb a b && startswith p' s'
  | _ :: _, [] => false
  end.

(** [s.endswith(p)] *)
Definition endswith (p s : str) : bool := startswith (rev p) (rev s).

(** [p in s] *)
Fixpoint contains (p s : str) : bool :=
  startswith p s ||
  match s with
  | [] => false
  | _ :: s' => contains p s'
  end.

(** [s.lstrip()] *)
Fixpoint lstrip (s : str) : str :=
  match s with
  | c :: s' => if is_space c then lstrip s' else s
  | [] => []
  end.

(** [s.rstrip()] *)
Fixpoint rstrip (s : str) : str :=
  match s with
  | c :: s' =>
      match rstrip s' with
      | [] => if is_space c then [] else [c]
      | r => c :: r
      end
  | [] => []
  end.

(** [s.strip()] *)
Definition strip (s : str) : str := rstrip (lstrip s).

(** Truth value of a string: non-empty. *)
Definition truthy (s : str) : bool :=
  match s with [] => false | _ :: _ => true end.

(** Comparison of two strings, by code points. *)
Definition str_leb (a b : str) : bool :=
  String.leb (string_of_list_ascii a) (string_of_list_ascii b).

(** [sorted(l, key=key)]: a stable sort; the keys are compared as
    strings. *)
Section Sorted.
Variable A : Type.
Variable key : A -> str.

Fixpoint insert_by (x : A) (l : list A) : list A :=
  match l with
  | [] => [x]
  | y :: l' =>
      if str_leb (key y) (key x) then y :: insert_by x l'
      else x :: l
  end.

Definition sorted_by (l : list A) : list A :=
  fold_left (fun acc x => insert_by x acc) l [].
End Sorted.

End Py.

(* ================================================================== *)
(** * The fragment of [re] used by the scripts *)
(* ================================================================== *)

Module Re.
Import Py.

(** Patterns: one character of a class, concatenation, greedy
    repetition of a class, capturing group. *)
Inductive regex : Type :=
| Cls (p : ascii -> bool)
| Cat (r1 r2 : regex)
| Rep (p : ascii -> bool)
| Grp (r : regex).

(** Greedy repetition with backtracking: the longest run of [p] after
    which the continuation succeeds. *)
Fixpoint rep_match (R : Type) (p : ascii -> bool) (s : str)
    (k : str -> option R) : option R :=
  match s with
  | c :: s' =>
      if p c then
        match rep_match p s' k with
        | Some r => Some r
        | None => k s
        end
      else k s
  | [] => k []
  end.

(** Backtracking matcher anchored at the head of [s]; [g] collects the
    text of the groups closed so far. *)
Fixpoint re_match (R : Type) (r : regex) (s : str) (g : list str)
    (k : str -> list str -> option R) : option R :=
  match r with
  | Cls p =>
      match s with
      | c :: s' => if p c then k s' g else None
      | [] => None
      end
  | Cat r1 r2 => re_match r1 s g (fun s1 g1 => re_match r2 s1 g1 k)
  | Rep p => rep_match p s (fun s1 => k s1 g)
  | Grp r1 =>
      re_match r1 s g
        (fun s1 g1 => k s1 (g1 ++ [firstn (List.length s - List.length s1) s]))
  end.

(** [pattern.match(s)]: the groups and the text left after the match. *)
Definition match_at (r : regex) (s : str) : option (list str * str) :=
  re_match r s [] (fun s1 g1 => Some (g1, s1)).

(** The scan of [re.sub]: [skip] characters still belong to the match
    that was just replaced; otherwise a match at the current position
    is replaced, and a character without a match is copied.  The
    patterns of the scripts consume at least one character. *)
Fixpoint sub_scan (r : regex) (repl : list str -> str) (skip : nat)
    (s : str) {struct s} : str :=
  match s with
  | [] => []
  | c :: s' =>
      match skip with
      | S n => sub_scan r repl n s'
      | O =>
          match match_at r s with
          | Some (g, rest) =>
              repl g ++ sub_scan r repl (List.length s' - List.length rest) s'
          | None => c :: sub_scan r repl 0 s'
          end
      end
  end.

(** [re.sub(r, repl, s)] *)
Definition sub (r : regex) (repl : list str -> str) (s : str) : str :=
  sub_scan r repl 0 s.

(** Group [i] of a match, numbered from 1. *)
Definition group (i : nat) (g : list str) : str := nth (i - 1) g [].

End Re.

(* ================================================================== *)
(** * pdf_to_txt_batch.py *)
(* ================================================================== *)

Module Pdf.
Import Py Re.

(** [r'\n{3,}'] *)
Definition re_blank_lines : regex :=
  Cat (Cls is_nl) (Cat (Cls is_nl) (Cat (Cls is_nl) (Rep is_nl))).

(** [r'\n\d+\s*\n'] *)
Definition re_page_number : regex :=
  Cat (Cls is_nl)
    (Cat (Cat (Cls is_digit) (Rep is_digit))
       (Cat (Rep is_space) (Cls is_nl))).

(** [r'(\w)-\n(\w)'] *)
Definition re_hyphen : regex :=
  Cat (Grp (Cls is_word))
    (Cat (Cls (is_char "-"))
       (Cat (Cls is_nl) (Grp (Cls is_word)))).

Definition clean_text (text : str) : str :=
  let text := sub re_blank_lines (fun _ => [nl; nl]) text in
  let text := sub re_page_number (fun _ => [nl]) text in
  let text := sub re_hyphen (fun g => group 1 g ++ group 2 g) text in
  strip text.

(** ** Discovery of the PDF files (lines 103-112) *)

(** A file below the input folder: the components of its path relative
    to the folder; the last one is its name. *)
Definition path := list str.

Definition name (p : path) : str := last p [].

Definition path_eq_dec : forall p q : path, {p = q} + {p <> q} :=
  list_eq_dec (list_eq_dec ascii_dec).

(** [input_path.glob("*" + ext)]: the files of the folder itself. *)
Definition glob_top (ext : str) (tree : list path) : list path :=
  filter (fun p => (List.length p =? 1) && endswith ext (name p)) tree.

(** [input_path.glob("**/*" + ext)]: the files at any depth. *)
Definition glob_rec (ext : str) (tree : list path) : list path :=
  filter (fun p => endswith ext (name p)) tree.

(** The loop that removes duplicates and keeps the order. *)
Fixpoint unique_loop (pdfs seen unique_pdfs : list path) : list path :=
  match pdfs with
  | [] => unique_pdfs
  | p :: rest =>
      if in_dec path_eq_dec p seen then unique_loop rest seen unique_pdfs
      else unique_loop rest (p :: seen) (unique_pdfs ++ [p])
  end.

Definition find_pdfs (tree : list path) : list path :=
  let pdfs := glob_top (lit ".pdf") tree ++ glob_top (lit ".PDF") tree in
  let pdfs := pdfs ++ glob_rec (lit ".pdf") tree ++ glob_rec (lit ".PDF") tree in
  let unique_pdfs := unique_loop pdfs [] [] in
  sorted_by (fun x => lower (name x)) unique_pdfs.

(** The start of [process_folder]: the folder is missing ([None]) or
    no PDF file is found, and the script exits; otherwise the list of
    PDF files. *)
Inductive DiscoveryError : Type := FolderNotFound | NoPdfFound.

Definition discover (input_folder : option (list path))
    : DiscoveryError + list path :=
  match input_folder with
  | None => inl FolderNotFound
  | Some tree =>
      match find_pdfs tree with
      | [] => inl NoPdfFound
      | pdfs => inr pdfs
      end
  end.

(** ** Extraction (lines 43-58) *)

(** What the PDF library does with a file: it yields the text of its
    pages, or an exception with its message is raised on the way. *)
Inductive fitz_doc : Type :=
| Pages (page_texts : list str)
| Throws (message : str).

Definition str_of_nat (n : nat) : str :=
  list_ascii_of_string (NilEmpty.string_of_uint (Nat.to_uint n)).

(** [sep.join(parts)] *)
Fixpoint join (sep : str) (parts : list str) : str :=
  match parts with
  | [] => []
  | [x] => x
  | x :: rest => x ++ sep ++ join sep rest
  end.

(** The loop over [enumerate(doc, 1)]. *)
Fixpoint text_parts (page_num : nat) (pages : list str) : list str :=
  match pages with
  | [] => []
  | page_text :: rest =>
      if truthy (strip page_text)
      then (lit "[Page " ++ str_of_nat page_num ++ lit "]\n" ++ page_text)
             :: text_parts (S page_num) rest
      else text_parts (S page_num) rest
  end.

Definition extract_pdf_text (pdf_path : str) (doc : fitz_doc) : str :=
  match doc with
  | Pages pages => clean_text (join (lit "\n\n") (text_parts 1 pages))
  | Throws e => lit "ERROR extracting " ++ pdf_path ++ lit ": " ++ e
  end.

(** ** The loop over the PDF files (lines 123-157) *)

Inductive Status : Type := success | error.

(** The metadata of a paper; the page count and the guesses of title
    and DOI play no part in the properties below and are left out. *)
Record Metadata : Type := {
  filename : str;
  chars : nat;
  status : Status
}.

(** An element of [all_texts]. *)
Record Paper : Type := {
  idx : nat;
  paper_filename : str;
  meta : Metadata;
  paper_text : str
}.

(** An element of the list [pdfs]: the text of its path
    ([str(pdf_path)], which the extractor is given), its name
    ([pdf_path.name], the last component of the path, which the
    metadata is given), and what the PDF library does with the file. *)
Record PdfFile : Type := {
  path_str : str;
  path_name : str;
  fitz_open : fitz_doc
}.

(** One iteration: the metadata appended to [results], and the element
    appended to [all_texts] when the text does not start with
    [ERROR]. *)
Definition process_pdf (i : nat) (pdf_name : str) (text : str)
    : Metadata * option Paper :=
  if startswith (lit "ERROR") text then
    ({| filename := pdf_name; chars := List.length text; status := error |},
     None)
  else
    let metadata :=
      {| filename := pdf_name; chars := List.length text; status := success |} in
    (metadata,
     Some {| idx := i; paper_filename := pdf_name; meta := metadata;
             paper_text := text |}).

(** [for i, pdf_path in enumerate(pdfs, 1)]: the lists [results] and
    [all_texts] at the end. *)
Fixpoint process_pdfs (i : nat) (pdfs : list PdfFile)
    (results : list Metadata) (all_texts : list Paper)
    : list Metadata * list Paper :=
  match pdfs with
  | [] => (results, all_texts)
  | pdf_path :: rest =>
      let text := extract_pdf_text (path_str pdf_path) (fitz_open pdf_path) in
      match process_pdf i (path_name pdf_path) text with
      | (metadata, Some paper) =>
          process_pdfs (S i) rest (results ++ [metadata]) (all_texts ++ [paper])
      | (metadata, None) =>
          process_pdfs (S i) rest (results ++ [metadata]) all_texts
      end
  end.

(** ** The batches (lines 163-210) *)

(** [range(start, stop, step)] for a positive step; [fuel] bounds the
    number of values. *)
Fixpoint range_from (fuel start stop step : nat) : list nat :=
  match fuel with
  | O => []
  | S fuel' =>
      if start <? stop then start :: range_from fuel' (start + step) stop step
      else []
  end.

(** [range(0, stop, step)]; a zero step raises [ValueError]. *)
Definition range_step (stop step : nat) : option (list nat) :=
  if step =? 0 then None else Some (range_from stop 0 stop step).

(** [l[a:b]] *)
Definition slice (A : Type) (l : list A) (a b : nat) : list A :=
  firstn (b - a) (skipn a l).

(** A batch file: its number, the range of papers that its name and
    its header announce, and the papers it holds. *)
Record Batch : Type := {
  batch_num : nat;
  first_paper : nat;
  last_paper : nat;
  papers : list Paper
}.

Fixpoint batch_loop (all_texts : list Paper) (batch_size : nat)
    (starts : list nat) (num : nat) : list Batch :=
  match starts with
  | [] => []
  | batch_start :: rest =>
      let batch := slice all_texts batch_start (batch_start + batch_size) in
      {| batch_num := num;
         first_paper := batch_start + 1;
         last_paper := batch_start + List.length batch;
         papers := batch |}
      :: batch_loop all_texts batch_size rest (num + 1)
  end.

Definition create_batches (all_texts : list Paper) (batch_size : nat)
    : option (list Batch) :=
  match range_step (List.length all_texts) batch_size with
  | None => None
  | Some starts => Some (batch_loop all_texts batch_size starts 1)
  end.

End Pdf.

(* ================================================================== *)
(** * txt_to_md_claude.py and txt_to_md_gemini.py *)
(* ================================================================== *)

(** The two scripts share [get_txt_files], [load_prompt_file] and the
    body of [process_all_files]; they differ in the service call and in
    the [except] clauses of the retry loop. *)

Module Runner.
Import Py.

(** An entry of the input folder: its name, and what [read_text]
    returns ([None] when it raises). *)
Record DirEntry : Type := {
  entry_name : str;
  read_text : option str
}.

(** [Path.stem]: the name without its last suffix. *)
Fixpoint rfind_dot (s : str) : option nat :=
  match s with
  | [] => None
  | c :: s' =>
      match rfind_dot s' with
      | Some i => Some (S i)
      | None => if is_char "." c then Some 0 else None
      end
  end.

Definition stem (nm : str) : str :=
  match rfind_dot nm with
  | Some i => if (0 <? i) && (i <? List.length nm - 1) then firstn i nm else nm
  | None => nm
  end.

(** [get_txt_files]: [None] is [FileNotFoundError]. *)
Definition get_txt_files (input_dir : option (list DirEntry))
    : option (list DirEntry) :=
  match input_dir with
  | None => None
  | Some entries =>
      Some (sorted_by entry_name
              (filter (fun f => endswith (lit ".txt") (entry_name f)) entries))
  end.

(** [load_prompt_file]: the file is missing ([None]) or holds a text. *)
Inductive PromptError : Type := PromptNotFound | PromptEmpty.

Definition load_prompt_file (prompt_file : option str) : PromptError + str :=
  match prompt_file with
  | None => inl PromptNotFound
  | Some text =>
      let content := strip text in
      if truthy content then inr content else inl PromptEmpty
  end.

Record Results : Type := {
  processed : nat;
  failed : nat;
  skipped : nat;
  total : nat
}.

Definition incr_processed (r : Results) : Results :=
  {| processed := processed r + 1; failed := failed r;
     skipped := skipped r; total := total r |}.

Definition incr_failed (r : Results) : Results :=
  {| processed := processed r; failed := failed r + 1;
     skipped := skipped r; total := total r |}.

Definition incr_skipped (r : Results) : Results :=
  {| processed := processed r; failed := failed r;
     skipped := skipped r + 1; total := total r |}.

(** What the run does to the outside. *)
Inductive Event : Type :=
| Call (full_message : str)
| Sleep (seconds : Z)
| Write (output_filename : str) (content : str).

(** The state of a run: the counters, the number of service calls
    issued so far, and the events in the order they happened. *)
Record State : Type := {
  results : Results;
  calls : nat;
  log : list Event
}.

Definition emit (e : Event) (st : State) : State :=
  {| results := results st; calls := calls st; log := log st ++ [e] |}.

Definition issue_call (full_message : str) (st : State) : State :=
  {| results := results st; calls := S (calls st);
     log := log st ++ [Call full_message] |}.

Definition update (f : Results -> Results) (st : State) : State :=
  {| results := f (results st); calls := calls st; log := log st |}.

(** The exceptions of [time.sleep]: [ValueError] for a negative
    duration, [OverflowError] (or [OSError], raised in the same place)
    for a duration that is too long for the platform. *)
Inductive SleepError : Type := ValueError | OverflowError.

Record Config : Type := {
  prompt : str;
  delay : Z;
  rate_limit_delay : Z;
  max_retries : Z
}.

Section Loop.

(** The exceptions of the service client. *)
Variable Exc : Type.

(** The outcome of one service call: the function returns a text
    (or [None]), or an exception leaves it. *)
Inductive Reply : Type :=
| Returns (response : option str)
| Raises (e : Exc).

(** What the [except] clauses of the retry loop do with an
    exception: sleep and go to the next attempt, or raise. *)
Inductive Handling : Type :=
| Wait (wait_time : Z)
| Reraise.

(** The exceptions that reach the outer [try]. *)
Inductive Raised : Type :=
| ServiceError (e : Exc)
| SleepRaised (e : SleepError)
| TypeError.

Inductive LoopExit : Type :=
| Finished (response : option str) (last_error : option Exc)
| Propagates (e : Raised).

(** What is too long for [time.sleep] is decided by the platform, at
    the moment of the call: [refuses n seconds] tells whether the
    duration is refused when the sleep is asked for after [n] service
    calls of the run. *)
Variable refuses : nat -> Z -> bool.

(** [time.sleep(seconds)] *)
Definition sleep (seconds : Z) (st : State) : SleepError + State :=
  if (seconds <? 0)%Z then inl ValueError
  else if refuses (calls st) seconds then inl OverflowError
  else inr (emit (Sleep seconds) st).

(** [handler rate_limit_delay max_retries attempt e] *)
Variable handler : Z -> Z -> Z -> Exc -> Handling.

(** The service: the reply to the call number [n] of the run, sent
    with the given message. *)
Variable service : nat -> str -> Reply.

Variable cfg : Config.

Definition full_message (file_content : str) : str :=
  prompt cfg ++ lit "\n\n---\n\n" ++ file_content.

(** [for attempt in range(max_retries)]: [remaining] attempts are
    left, the next one has number [attempt]. *)
Fixpoint retry_loop (file_content : str) (remaining : nat) (attempt : Z)
    (last_error : option Exc) (st : State) : LoopExit * State :=
  match remaining with
  | O => (Finished None last_error, st)
  | S remaining' =>
      let st1 := issue_call (full_message file_content) st in
      match service (calls st) (full_message file_content) with
      | Returns response => (Finished response last_error, st1)
      | Raises e =>
          match handler (rate_limit_delay cfg) (max_retries cfg) attempt e with
          | Wait wait_time =>
              match sleep wait_time st1 with
              | inr st2 =>
                  retry_loop file_content remaining' (attempt + 1) (Some e) st2
              | inl err => (Propagates (SleepRaised err), st1)
              end
          | Reraise => (Propagates (ServiceError e), st1)
          end
      end
  end.

(** Every [except] clause of the outer [try] counts a failure. *)
Definition on_exception (st : State) : State := update incr_failed st.

(** The body of the loop over the files, for file [i] of [n]. *)
Definition process_file (i n : nat) (txt_file : DirEntry) (st : State)
    : State :=
  let output_filename := stem (entry_name txt_file) ++ lit ".md" in
  match read_text txt_file with
  | None => on_exception st
  | Some file_content =>
      if negb (truthy (strip file_content)) then update incr_skipped st
      else
        match retry_loop file_content (Z.to_nat (max_retries cfg)) 0 None st with
        | (Propagates _, st1) => on_exception st1
        | (Finished None _, st1) => on_exception st1
        | (Finished (Some response) _, st1) =>
            let st2 := emit (Write output_filename response) st1 in
            let st3 := update incr_processed st2 in
            if i <? n then
              match sleep (delay cfg) st3 with
              | inr st4 => st4
              | inl _ => on_exception st3
              end
            else st3
        end
  end.

(** [for i, txt_file in enumerate(txt_files, 1)] *)
Fixpoint files_loop (i n : nat) (txt_files : list DirEntry) (st : State)
    : State :=
  match txt_files with
  | [] => st
  | txt_file :: rest => files_loop (S i) n rest (process_file i n txt_file st)
  end.

Definition initial (n : nat) : State :=
  {| results := {| processed := 0; failed := 0; skipped := 0; total := n |};
     calls := 0; log := [] |}.

(** [process_all_files]: [None] is [FileNotFoundError]; otherwise the
    final state, whose counters are the dictionary returned. *)
Definition process_all_files (input_dir : option (list DirEntry))
    : option State :=
  match get_txt_files input_dir with
  | None => None
  | Some [] => Some (initial 0)
  | Some txt_files =>
      Some (files_loop 1 (List.length txt_files) txt_files
              (initial (List.length txt_files)))
  end.

(** The end of [main], once the key and the prompt are there: the
    exit status of the process. *)
Definition run_and_exit (input_dir : option (list DirEntry)) : nat :=
  match process_all_files input_dir with
  | None => 1
  | Some st => if 0 <? failed (results st) then 1 else 0
  end.

End Loop.

End Runner.

Module Claude.
Import Py Runner.

(** The exceptions of the Anthropic client that the script tells
    apart; [RateLimitError] is the [APIStatusError] of status 429 and
    is caught by the first clause. *)
Inductive Exc : Type :=
| RateLimitError
| APIStatusError (status_code : Z)
| APIConnectionError
| OtherException.

(** The [except] clauses of the retry loop (lines 191-220); an
    exception of another class is caught by none of them. *)
Definition handler (rate_limit_delay max_retries attempt : Z) (e : Exc)
    : Handling :=
  match e with
  | RateLimitError =>
      if (attempt <? max_retries - 1)%Z
      then Wait (rate_limit_delay * (attempt + 1))
      else Reraise
  | APIStatusError status_code =>
      if (status_code =? 529)%Z then
        if (attempt <? max_retries - 1)%Z
        then Wait (rate_limit_delay * (attempt + 1))
        else Reraise
      else Reraise
  | APIConnectionError =>
      if (attempt <? max_retries - 1)%Z
      then Wait (10 * (attempt + 1))
      else Reraise
  | OtherException => Reraise
  end.

(** A content block of the message returned by the API. *)
Record Block : Type := {
  block_type : str;
  block_text : str
}.

Inductive ApiResult : Type :=
| Message (content : list Block)
| ApiError (e : Exc).

Fixpoint response_text (content : list Block) : str :=
  match content with
  | [] => []
  | block :: rest =>
      if str_eqb (block_type block) (lit "text")
      then block_text block ++ response_text rest
      else response_text rest
  end.

(** [process_file_with_claude], given what [client.messages.create]
    does at each call. *)
Definition process_file_with_claude (client : nat -> str -> ApiResult)
    (n : nat) (message : str) : Reply Exc :=
  match client n message with
  | Message content => Returns _ (Some (response_text content))
  | ApiError e => Raises e
  end.

Definition process_all_files (refuses : nat -> Z -> bool)
    (client : nat -> str -> ApiResult)
    (cfg : Config) (input_dir : option (list DirEntry)) : option State :=
  Runner.process_all_files refuses handler (process_file_with_claude client)
    cfg input_dir.

(** What [main] reads from the outside. *)
Record Env : Type := {
  API_KEY : str;
  ANTHROPIC_API_KEY : option str;
  PROMPT_FILE : option str;
  INPUT_FOLDER : option (list DirEntry);
  DELAY_BETWEEN_CALLS : Z;
  RATE_LIMIT_RETRY_DELAY : Z;
  MAX_RETRIES : Z
}.

(** [main]: the exit status of the process. *)
Definition main (refuses : nat -> Z -> bool)
    (client : nat -> str -> ApiResult) (env : Env) : nat :=
  let api_key :=
    if negb (str_eqb (API_KEY env) (lit "your-anthropic-api-key-here"))
       && truthy (API_KEY env)
    then Some (API_KEY env) else ANTHROPIC_API_KEY env in
  match api_key with
  | None => 1
  | Some key =>
      if negb (truthy key) then 1 else
      match load_prompt_file (PROMPT_FILE env) with
      | inl _ => 1
      | inr prompt =>
          run_and_exit refuses handler (process_file_with_claude client)
            {| prompt := prompt; delay := DELAY_BETWEEN_CALLS env;
               rate_limit_delay := RATE_LIMIT_RETRY_DELAY env;
               max_retries := MAX_RETRIES env |}
            (INPUT_FOLDER env)
      end
  end.

End Claude.

Module Gemini.
Import Py Runner.

(** An exception of the Gemini client is told apart by its text. *)
Definition Exc : Type := str.

(** The test of the [except] clause (line 170). *)
Definition rate_limited (e : Exc) : bool :=
  let error_msg := lower e in
  contains (lit "429") e || contains (lit "quota") error_msg
  || contains (lit "rate") error_msg || contains (lit "resource") error_msg.

(** The [except] clause of the retry loop (lines 165-178). *)
Definition handler (rate_limit_delay max_retries attempt : Z) (e : Exc)
    : Handling :=
  if rate_limited e then
    if (attempt <? max_retries - 1)%Z
    then Wait (rate_limit_delay * (attempt + 1))
    else Reraise
  else Reraise.

(** What [client.models.generate_content] does: a response with its
    [text] attribute, which may be [None], or an exception. *)
Inductive ApiResult : Type :=
| Response (text : option str)
| ApiError (e : Exc).

Definition process_file_with_gemini (client : nat -> str -> ApiResult)
    (n : nat) (message : str) : Reply Exc :=
  match client n message with
  | Response text => Returns _ text
  | ApiError e => Raises e
  end.

Definition process_all_files (refuses : nat -> Z -> bool)
    (client : nat -> str -> ApiResult)
    (cfg : Config) (input_dir : option (list DirEntry)) : option State :=
  Runner.process_all_files refuses handler (process_file_with_gemini client)
    cfg input_dir.

Record Env : Type := {
  API_KEY : str;
  GEMINI_API_KEY : option str;
  PROMPT_FILE : option str;
  INPUT_FOLDER : option (list DirEntry);
  DELAY_BETWEEN_CALLS : Z;
  RATE_LIMIT_RETRY_DELAY : Z;
  MAX_RETRIES : Z
}.

(** [main]: the exit status of the process. *)
Definition main (refuses : nat -> Z -> bool)
    (client : nat -> str -> ApiResult) (env : Env) : nat :=
  let api_key :=
    if truthy (API_KEY env) then Some (API_KEY env) else GEMINI_API_KEY env in
  match api_key with
  | None => 1
  | Some key =>
      if negb (truthy key) then 1 else
      match load_prompt_file (PROMPT_FILE env) with
      | inl _ => 1
      | inr prompt =>
          run_and_exit refuses handler (process_file_with_gemini client)
            {| prompt := prompt; delay := DELAY_BETWEEN_CALLS env;
               rate_limit_delay := RATE_LIMIT_RETRY_DELAY env;
               max_retries := MAX_RETRIES env |}
            (INPUT_FOLDER env)
      end
  end.

End Gemini.

(* ================================================================== *)
(** * Notions used to state and prove the properties *)
(* ================================================================== *)

Module Notions.
Import Py Pdf Runner.

(** The number of newline characters at the head of a text. *)
Fixpoint lead (s : str) : nat :=
  match s with
  | c :: s' => if is_nl c then S (lead s') else 0
  | [] => 0
  end.

(** No three newline characters in a row anywhere in the text. *)
Fixpoint calm (s : str) : Prop :=
  match s with
  | [] => True
  | _ :: s' => lead s <= 2 /\ calm s'
  end.

(** A newline followed by a digit, or a hyphen followed by a newline:
    the places where a page-number line or a hyphenated line end can
    start. *)
Definition breaks (a b : ascii) : bool :=
  (is_nl a && is_digit b) || (is_char "-" a && is_nl b).

(** A text in which no line after the first starts with a digit and no
    line ends with a hyphen. *)
Fixpoint tidy (s : str) : Prop :=
  match s with
  | a :: s' =>
      match s' with
      | b :: _ => breaks a b = false /\ tidy s'
      | [] => True
      end
  | [] => True
  end.

(** A paper to try the batch loop on. *)
Definition sample_paper (i : nat) : Paper :=
  let text := lit "[Page 1]\nsome text" in
  let m := {| filename := lit "paper.pdf"; chars := List.length text;
              status := success |} in
  {| idx := i; paper_filename := lit "paper.pdf"; meta := m;
     paper_text := text |}.

(** The key of the sort of the PDF files, and the order on keys. *)
Definition pdf_key (p : path) : str := lower (name p).

Definition key_le (A : Type) (key : A -> str) (a b : A) : Prop :=
  str_leb (key a) (key b) = true.

(** The name has one of the two extensions that are searched. *)
Definition is_pdf (p : path) : bool :=
  endswith (lit ".pdf") (name p) || endswith (lit ".PDF") (name p).

(** The texts that the extractor returns for the PDF files. *)
Definition extracted (pdfs : list PdfFile) : list str :=
  map (fun pdf => extract_pdf_text (path_str pdf) (fitz_open pdf)) pdfs.

Definition is_error_text (text : str) : bool := startswith (lit "ERROR") text.

(** The events of a file that is attempted once more after each of
    the given waits: a call and a sleep for each wait, then the last
    call. *)
Definition attempts_log (message : str) (waits : list Z) : list Event :=
  flat_map (fun w => [Call message; Sleep w]) waits ++ [Call message].

(** The waits [base * 1, ..., base * retries]. *)
Definition linear_waits (base : Z) (retries : nat) : list Z :=
  map (fun k => (base * Z.of_nat k)%Z) (seq 1 retries).

(** The number of service calls, the waits and the files written in a
    piece of log. *)
Definition count_calls (l : list Event) : nat :=
  List.length (filter (fun e => match e with Call _ => true | _ => false end) l).

Fixpoint sleeps (l : list Event) : list Z :=
  match l with
  | [] => []
  | Sleep w :: l' => w :: sleeps l'
  | _ :: l' => sleeps l'
  end.

Fixpoint writes (l : list Event) : list (str * str) :=
  match l with
  | [] => []
  | Write f c :: l' => (f, c) :: writes l'
  | _ :: l' => writes l'
  end.

(** The duration is one that [time.sleep] takes at any moment of the
    run: it is not negative and the platform never refuses it. *)
Definition accepted (refuses : nat -> Z -> bool) (seconds : Z) : Prop :=
  (0 <= seconds)%Z /\ forall n, refuses n seconds = false.

(** A platform that refuses the durations above [limit] seconds, and
    one whose limit is what 63 bits of nanoseconds hold. *)
Definition refuses_above (limit : Z) (n : nat) (seconds : Z) : bool :=
  (limit <? seconds)%Z.

Definition refuses_long : nat -> Z -> bool := refuses_above 9223372036.

(** The state after the attempts that were answered by the given
    waits. *)
Definition after_waits (message : str) (waits : list Z) (st : State) : State :=
  {| results := results st;
     calls := calls st + List.length waits;
     log := log st ++ flat_map (fun w => [Call message; Sleep w]) waits |}.

(** From [st] to [st'] the three counters grow by the given amounts,
    and the total stays. *)
Definition counters_step (dp df ds : nat) (st st' : State) : Prop :=
  processed (results st') = processed (results st) + dp /\
  failed (results st') = failed (results st) + df /\
  skipped (results st') = skipped (results st) + ds /\
  total (results st') = total (results st).

(** The retries in a piece of log: the service calls after the first. *)
Definition retries (l : list Event) : nat := count_calls l - 1.

(** The sum of the three counters. *)
Definition accounted (r : Results) : nat :=
  processed r + failed r + skipped r.

(** [ceil(n / b)] *)
Definition ceil_div (n b : nat) : nat := (n + b - 1) / b.

(** The numbers of the papers that a batch announces. *)
Definition paper_range (b : Batch) : list nat :=
  seq (first_paper b) (last_paper b + 1 - first_paper b).

End Notions.

(* ================================================================== *)
(** * pdf_to_txt_batch.py: metadata, file names and file contents *)
(* ================================================================== *)

Module Folder.
Import Py Re Pdf Runner.

(** [pattern.search(s)]: the text of the first match, trying each
    position from the left. *)
Fixpoint search (r : regex) (s : str) : option str :=
  match match_at r s with
  | Some (_, rest) => Some (firstn (List.length s - List.length rest) s)
  | None =>
      match s with
      | [] => None
      | _ :: s' => search r s'
      end
  end.

(** [re.sub] for a pattern that starts with [^]: only a match at the
    start of the text is replaced. *)
Definition sub_at_start (r : regex) (repl : list str -> str) (s : str) : str :=
  match match_at r s with
  | Some (g, rest) => repl g ++ rest
  | None => s
  end.

(** [s.rstrip(chars)] *)
Fixpoint rstrip_chars (chars : ascii -> bool) (s : str) : str :=
  match s with
  | c :: s' =>
      match rstrip_chars chars s' with
      | [] => if chars c then [] else [c]
      | r => c :: r
      end
  | [] => []
  end.

(** [s.count(p)] for a non-empty [p]: the occurrences that do not
    overlap, from the left. *)
Fixpoint count_scan (p : str) (skip : nat) (s : str) : nat :=
  match s with
  | [] => 0
  | _ :: s' =>
      match skip with
      | S n => count_scan p n s'
      | O =>
          if startswith p s then S (count_scan p (List.length p - 1) s')
          else count_scan p 0 s'
      end
  end.

Definition count (p s : str) : nat := count_scan p 0 s.

(** The class [[-_]] *)
Definition is_sep (c : ascii) : bool := is_char "-" c || is_char "_" c.

(** The class [[^\s]] *)
Definition not_space (c : ascii) : bool := negb (is_space c).

(** The class [[^\w\-]] *)
Definition not_word_or_hyphen (c : ascii) : bool :=
  negb (is_word c || is_char "-" c).

(** The characters of [rstrip('.,;')] *)
Definition is_trailing_mark (c : ascii) : bool :=
  is_char "." c || is_char "," c || is_char ";" c.

(** [r'^\d{4}\s*[-_]\s*'], without the anchor *)
Definition re_year_prefix : regex :=
  Cat (Cls is_digit) (Cat (Cls is_digit) (Cat (Cls is_digit) (Cat (Cls is_digit)
    (Cat (Rep is_space) (Cat (Cls is_sep) (Rep is_space)))))).

(** [r'10\.\d{4,}/[^\s]+'] *)
Definition re_doi : regex :=
  Cat (Cls (is_char "1")) (Cat (Cls (is_char "0")) (Cat (Cls (is_char "."))
    (Cat (Cls is_digit) (Cat (Cls is_digit) (Cat (Cls is_digit) (Cat (Cls is_digit)
      (Cat (Rep is_digit)
        (Cat (Cls (is_char "/")) (Cat (Cls not_space) (Rep not_space)))))))))).

(** The dictionary that [get_paper_metadata] returns. *)
Record PaperInfo : Type := {
  info_filename : str;
  title_guess : str;
  doi : str;
  pages : nat;
  info_chars : nat
}.

Definition get_paper_metadata (file_name text : str) : PaperInfo :=
  let nm := stem file_name in
  let nm := sub_at_start re_year_prefix (fun _ => []) nm in
  let nm := sub (Cls is_sep) (fun _ => [" "%char]) nm in
  let doi_match := search re_doi (firstn 5000 text) in
  {| info_filename := file_name;
     title_guess := firstn 100 nm;
     doi := match doi_match with
            | Some m => rstrip_chars is_trailing_mark m
            | None => lit "Not found"
            end;
     pages := count (lit "[Page ") text;
     info_chars := List.length text |}.

(** [f"{n:0{width}d}"] for a natural number *)
Definition zero_padded (width n : nat) : str :=
  repeat "0"%char (width - List.length (str_of_nat n)) ++ str_of_nat n.

(** The file written for paper [i] when its extraction succeeded
    (lines 139-153): its name in the folder [individual] and its
    content. *)
Definition safe_name (pdf_name : str) : str :=
  firstn 50 (sub (Cls not_word_or_hyphen) (fun _ => ["_"%char]) (stem pdf_name)).

Definition txt_name (i : nat) (pdf_name : str) : str :=
  zero_padded 3 i ++ lit "_" ++ safe_name pdf_name ++ lit ".txt".

Definition rule (c : ascii) : str := repeat c 60.

Definition header (i : nat) (pdf_name : str) (metadata : PaperInfo) : str :=
  rule "=" ++ lit "\nPAPER " ++ str_of_nat i ++ lit ": " ++ title_guess metadata
  ++ lit "\n" ++ rule "="
  ++ lit "\nSource: " ++ pdf_name
  ++ lit "\nDOI: " ++ doi metadata
  ++ lit "\nPages: " ++ str_of_nat (pages metadata)
  ++ lit "\n" ++ rule "=" ++ lit "\n\n".

Definition individual_file (paper : Paper) : str * str :=
  let metadata := get_paper_metadata (paper_filename paper) (paper_text paper) in
  (txt_name (idx paper) (paper_filename paper),
   header (idx paper) (paper_filename paper) metadata ++ paper_text paper).

(** The file written for a batch (lines 166-204); [now] is the time
    stamp and [n_texts] the length of [all_texts]. *)
Definition batch_preamble (now : str) (n_texts : nat) (b : Batch) : str :=
  rule "#"
  ++ lit "\n# OCIS LITERATURE BATCH " ++ str_of_nat (batch_num b)
  ++ lit "\n# Papers " ++ str_of_nat (first_paper b) ++ lit " to "
  ++ str_of_nat (last_paper b) ++ lit " of " ++ str_of_nat n_texts
  ++ lit "\n# Generated: " ++ now
  ++ lit "\n" ++ rule "#"
  ++ lit "\n\nINSTRUCTIONS FOR CLAUDE:\nFor each paper below, please extract:\n1. Research Question/Objective\n2. Key Findings (2-3 bullets)\n3. OCIS Relevance (Cost/Schedule/Change Order/Contract domain)\n4. Key Quotes (with page numbers)\n5. Methodology\n6. Gaps/Limitations\n\n"
  ++ rule "=" ++ lit "\n\n".

Definition batch_entry (paper : Paper) : str :=
  let metadata := get_paper_metadata (paper_filename paper) (paper_text paper) in
  lit "\n" ++ rule "="
  ++ lit "\nPAPER " ++ str_of_nat (idx paper) ++ lit ": " ++ title_guess metadata
  ++ lit "\n" ++ rule "="
  ++ lit "\nFilename: " ++ paper_filename paper
  ++ lit "\nDOI: " ++ doi metadata
  ++ lit "\nPages: " ++ str_of_nat (pages metadata)
  ++ lit "\n" ++ rule "=" ++ lit "\n\n"
  ++ paper_text paper
  ++ lit "\n\n" ++ rule "~"
  ++ lit "\nEND OF PAPER " ++ str_of_nat (idx paper)
  ++ lit "\n" ++ rule "~" ++ lit "\n\n".

Definition batch_content (now : str) (n_texts : nat) (b : Batch) : str :=
  fold_left (fun content paper => content ++ batch_entry paper) (papers b)
    (batch_preamble now n_texts b).

Definition batch_name (b : Batch) : str :=
  lit "batch_" ++ zero_padded 2 (batch_num b)
  ++ lit "_papers_" ++ str_of_nat (first_paper b)
  ++ lit "_to_" ++ str_of_nat (last_paper b) ++ lit ".txt".

Definition batch_file (now : str) (n_texts : nat) (b : Batch) : str * str :=
  (batch_name b, batch_content now n_texts b).

(** The totals at the head of the manifest (lines 215-218). *)
Record ManifestTotals : Type := {
  total_papers : nat;
  extracted_ok : nat;
  errors : nat;
  batches_created : nat
}.

Definition status_eqb (a b : Status) : bool :=
  match a, b with
  | success, success => true
  | error, error => true
  | _, _ => false
  end.

Definition manifest_totals (n_pdfs : nat) (results : list Metadata)
    (batches : list Batch) : ManifestTotals :=
  {| total_papers := n_pdfs;
     extracted_ok :=
       List.length (filter (fun r => status_eqb (status r) success) results);
     errors :=
       List.length (filter (fun r => status_eqb (status r) error) results);
     batches_created := List.length batches |}.

End Folder.

(* ================================================================== *)
(** * Further notions *)
(* ================================================================== *)

Module MoreNotions.
Import Py Re Pdf Runner Notions.

(** Every character that a class of the pattern accepts has the
    property [P]. *)
Fixpoint classes_in (P : ascii -> Prop) (r : regex) : Prop :=
  match r with
  | Cls p => forall c, p c = true -> P c
  | Rep p => forall c, p c = true -> P c
  | Cat r1 r2 => classes_in P r1 /\ classes_in P r2
  | Grp r1 => classes_in P r1
  end.

(** The least number of characters that a match of the pattern takes. *)
Fixpoint min_len (r : regex) : nat :=
  match r with
  | Cls _ => 1
  | Rep _ => 0
  | Cat r1 r2 => min_len r1 + min_len r2
  | Grp r1 => min_len r1
  end.

(** An event that the loop may log for the file [f]: a call with the
    prompt and the text of [f], which is not blank; a sleep that is
    not negative; the writing of the output file of [f]. *)
Definition event_of_file (cfg : Config) (f : DirEntry) (e : Event) : Prop :=
  match e with
  | Call m =>
      exists file_content,
        read_text f = Some file_content /\ strip file_content <> [] /\
        m = full_message cfg file_content
  | Sleep w => (0 <= w)%Z
  | Write nm _ => nm = stem (entry_name f) ++ lit ".md"
  end.

(** The papers that the loop over the PDF files appends to
    [all_texts], and the metadata that it appends to [results]. *)
Fixpoint new_papers (i : nat) (pdfs : list PdfFile) : list Paper :=
  match pdfs with
  | [] => []
  | pdf :: rest =>
      match snd (process_pdf i (path_name pdf)
                   (extract_pdf_text (path_str pdf) (fitz_open pdf))) with
      | Some paper => paper :: new_papers (S i) rest
      | None => new_papers (S i) rest
      end
  end.

Fixpoint new_results (i : nat) (pdfs : list PdfFile) : list Metadata :=
  match pdfs with
  | [] => []
  | pdf :: rest =>
      fst (process_pdf i (path_name pdf)
             (extract_pdf_text (path_str pdf) (fitz_open pdf)))
      :: new_results (S i) rest
  end.

(** The extraction of the PDF raised an exception. *)
Definition raised (pdf : PdfFile) : bool :=
  match fitz_open pdf with
  | Throws _ => true
  | Pages _ => false
  end.

(** The number written at the head of a zero-padded decimal text. *)
Definition read_number (s : str) : option nat :=
  option_map Nat.of_uint (NilEmpty.uint_of_string (string_of_list_ascii s)).

(** The characters of a text before its first underscore. *)
Fixpoint before_underscore (s : str) : str :=
  match s with
  | [] => []
  | c :: s' => if is_char "_" c then [] else c :: before_underscore s'
  end.

(** A page mark: the text starts with [[Page ] and a digit. *)
Definition is_mark (s : str) : bool :=
  startswith (lit "[Page ") s &&
  match skipn 6 s with
  | d :: _ => is_digit d
  | [] => false
  end.

(** The number of page marks in a text. *)
Fixpoint marks (s : str) : nat :=
  match s with
  | [] => 0
  | _ :: s' => (if is_mark s then 1 else 0) + marks s'
  end.

(** The pages of a document that hold some text. *)
Definition text_pages (page_texts : list str) : list str :=
  filter (fun page_text => truthy (strip page_text)) page_texts.

End MoreNotions.

(* ================================================================== *)
(** * Properties *)
(* ================================================================== *)

Import Py Re Pdf Notions.

(** ** The cleanup of extracted text *)

Example clean_text_sample :
  clean_text (lit "a\n\n\n\nb-\nc\n12 \nd  ") = lit "a\n\nbc\nd".
Proof. vm_compute. reflexivity. Qed.

Lemma is_nl_true c : is_nl c = true -> c = nl.
Proof. unfold is_nl. apply Ascii.eqb_eq. Qed.

Lemma lead_skipn s : lead (skipn (lead s) s) = 0.
Proof.
  induction s as [|c s IH]; simpl; [reflexivity|].
  destruct (is_nl c) eqn:E; simpl; [exact IH | now rewrite E].
Qed.

Lemma lead_le_length s : lead s <= List.length s.
Proof.
  induction s as [|a s IH]; simpl; [lia|]. destruct (is_nl a); simpl; lia.
Qed.

Lemma calm_tail c s : calm (c :: s) -> calm s.
Proof. simpl. tauto. Qed.

(** The greedy run of newlines, when nothing follows in the pattern. *)
Lemma rep_match_nl_all (g : list str) s :
  rep_match is_nl s (fun s1 => Some (g, s1)) = Some (g, skipn (lead s) s).
Proof.
  induction s as [|c s IH]; simpl; [reflexivity|].
  destruct (is_nl c); [now rewrite IH | reflexivity].
Qed.

(** [\n{3,}] matches at the head exactly when three newlines lead the
    text, and then takes the whole run. *)
Lemma match_blank_lines s :
  match_at re_blank_lines s =
  if 3 <=? lead s then Some ([], skipn (lead s) s) else None.
Proof.
  unfold match_at, re_blank_lines.
  destruct s as [|a s]; [reflexivity|].
  cbn [re_match lead]. destruct (is_nl a); [|reflexivity].
  destruct s as [|b s]; [reflexivity|].
  cbn [re_match lead]. destruct (is_nl b); [|reflexivity].
  destruct s as [|c s]; [reflexivity|].
  cbn [re_match lead]. destruct (is_nl c); [|reflexivity].
  rewrite rep_match_nl_all. reflexivity.
Qed.

Lemma sub_scan_skip r repl n s :
  sub_scan r repl n s = sub_scan r repl 0 (skipn n s).
Proof.
  revert n. induction s as [|c s IH]; intros [|n]; try reflexivity.
  cbn [sub_scan skipn]. apply IH.
Qed.

(** The two equations of the scan for [\n{3,}]. *)
Lemma sub_blank_hit repl s :
  3 <= lead s ->
  sub re_blank_lines repl s =
  repl [] ++ sub re_blank_lines repl (skipn (lead s) s).
Proof.
  intros H. unfold sub. destruct s as [|c s]; [simpl in H; lia|].
  cbn [sub_scan]. rewrite match_blank_lines.
  destruct (Nat.leb_spec 3 (lead (c :: s))) as [_|L]; [|lia].
  rewrite sub_scan_skip. f_equal. f_equal.
  assert (E : lead (c :: s) = S (List.length s - List.length (skipn (lead (c :: s)) (c :: s)))).
  { pose proof (lead_le_length (c :: s)) as B.
    rewrite length_skipn. cbn [List.length] in *. lia. }
  rewrite E at 2. reflexivity.
Qed.

Lemma sub_blank_miss repl c s :
  lead (c :: s) <= 2 ->
  sub re_blank_lines repl (c :: s) = c :: sub re_blank_lines repl s.
Proof.
  intros H. unfold sub. cbn [sub_scan]. rewrite match_blank_lines.
  destruct (Nat.leb_spec 3 (lead (c :: s))); [lia | reflexivity].
Qed.

(** After the first substitution no three newlines are left in a row. *)
Lemma sub_blank_calm_aux n : forall s,
  List.length s <= n ->
  calm (sub re_blank_lines (fun _ => [nl; nl]) s) /\
  lead (sub re_blank_lines (fun _ => [nl; nl]) s) <= lead s.
Proof.
  induction n as [|n IH]; intros s Hn.
  - destruct s; [simpl; auto | simpl in Hn; lia].
  - destruct s as [|c s]; [simpl; auto|].
    destruct (Nat.le_gt_cases 3 (lead (c :: s))) as [H3|H3].
    + rewrite sub_blank_hit by exact H3.
      destruct (IH (skipn (lead (c :: s)) (c :: s))) as [C L].
      { rewrite length_skipn. cbn [List.length] in *. lia. }
      rewrite lead_skipn in L.
      set (x := sub _ _ _) in *.
      assert (Hx : lead x = 0) by lia.
      set (m := lead (c :: s)) in *.
      cbn [app calm lead]. change (is_nl nl) with true. cbv iota.
      rewrite Hx. repeat split; try lia. exact C.
    + rewrite sub_blank_miss by lia.
      destruct (IH s) as [C L]; [cbn [List.length] in Hn; lia|].
      set (x := sub _ _ _) in *.
      cbn [calm lead] in *. destruct (is_nl c); repeat split; try lia; exact C.
Qed.

Lemma sub_blank_calm s : calm (sub re_blank_lines (fun _ => [nl; nl]) s).
Proof. apply (sub_blank_calm_aux (n := List.length s)). lia. Qed.

(** Each substitution leaves a text alone in which its pattern has no
    match. *)
Lemma sub_blank_fix repl s : calm s -> sub re_blank_lines repl s = s.
Proof.
  induction s as [|c s IH]; intros H; [reflexivity|].
  destruct H as [H1 H2]. rewrite sub_blank_miss by exact H1.
  now rewrite IH.
Qed.

Lemma tidy_tail c s : tidy (c :: s) -> tidy s.
Proof. destruct s as [|d s]; cbn [tidy]; tauto. Qed.

Lemma tidy_cons c s :
  tidy s -> (forall d r, s = d :: r -> breaks c d = false) -> tidy (c :: s).
Proof.
  intros H1 H2. destruct s as [|d r]; [exact I|].
  split; [now apply (H2 d r) | exact H1].
Qed.

Lemma tidy_head c d s : tidy (c :: d :: s) -> breaks c d = false.
Proof. cbn [tidy]. tauto. Qed.

Lemma breaks_nl_digit c d : breaks c d = false -> is_nl c = true -> is_digit d = false.
Proof.
  unfold breaks. intros H E. rewrite E in H.
  apply orb_false_iff in H. now destruct H.
Qed.

Lemma breaks_hyphen_nl c d :
  breaks c d = false -> is_char "-" c = true -> is_nl d = false.
Proof.
  unfold breaks. intros H E. rewrite E in H.
  apply orb_false_iff in H. now destruct H.
Qed.

Lemma sub_page_fix repl s : tidy s -> sub re_page_number repl s = s.
Proof.
  unfold sub. induction s as [|c s IH]; intros H; [reflexivity|].
  cbn [sub_scan].
  assert (E : match_at re_page_number (c :: s) = None).
  { unfold match_at, re_page_number. cbn [re_match].
    destruct (is_nl c) eqn:Ec; [|reflexivity].
    destruct s as [|d s]; [reflexivity|].
    apply tidy_head in H. now rewrite (breaks_nl_digit _ _ H Ec). }
  rewrite E, IH; [reflexivity | eapply tidy_tail; eassumption].
Qed.

Lemma sub_hyphen_fix repl s : tidy s -> sub re_hyphen repl s = s.
Proof.
  unfold sub. induction s as [|c s IH]; intros H; [reflexivity|].
  cbn [sub_scan].
  assert (E : match_at re_hyphen (c :: s) = None).
  { unfold match_at, re_hyphen. cbn [re_match].
    destruct (is_word c); [|reflexivity].
    destruct s as [|h s]; [reflexivity|].
    destruct (is_char "-" h) eqn:Eh; [|reflexivity].
    destruct s as [|d s]; [reflexivity|].
    apply tidy_tail, tidy_head in H.
    now rewrite (breaks_hyphen_nl _ _ H Eh). }
  rewrite E, IH; [reflexivity | eapply tidy_tail; eassumption].
Qed.

(** The first substitution keeps a tidy text tidy: it keeps the first
    character of the text, and after a run of newlines it keeps the
    character that follows the run. *)
Lemma tidy_skipn n s : tidy s -> tidy (skipn n s).
Proof.
  revert s. induction n as [|n IH]; intros s H; [exact H|].
  destruct s as [|c s]; [exact I|]. cbn [skipn]. apply IH. now apply tidy_tail in H.
Qed.

Lemma tidy_after_run s d r :
  tidy s -> 1 <= lead s -> skipn (lead s) s = d :: r -> is_digit d = false.
Proof.
  induction s as [|c s IH]; intros H L E; [discriminate|].
  cbn [lead] in *. destruct (is_nl c) eqn:Ec; [|lia]. cbn [skipn] in E.
  destruct s as [|c' s]; [discriminate|].
  pose proof (breaks_nl_digit _ _ (tidy_head H) Ec) as Hd.
  cbn [lead] in *. destruct (is_nl c') eqn:Ec'.
  - apply IH; [now apply tidy_tail in H | lia | exact E].
  - cbn [skipn] in E. now injection E as <- _.
Qed.

Lemma sub_blank_tidy_aux n : forall s,
  List.length s <= n ->
  tidy s ->
  tidy (sub re_blank_lines (fun _ => [nl; nl]) s) /\
  hd_error (sub re_blank_lines (fun _ => [nl; nl]) s) = hd_error s.
Proof.
  induction n as [|n IH]; intros s Hn H.
  - destruct s; [now split | cbn [List.length] in Hn; lia].
  - destruct s as [|c s]; [now split|].
    destruct (Nat.le_gt_cases 3 (lead (c :: s))) as [H3|H3].
    + rewrite sub_blank_hit by exact H3.
      destruct (IH (skipn (lead (c :: s)) (c :: s))) as [T E].
      { rewrite length_skipn. cbn [List.length] in *. lia. }
      { now apply tidy_skipn. }
      assert (Hc : c = nl).
      { cbn [lead] in H3. destruct (is_nl c) eqn:Ec; [now apply is_nl_true | lia]. }
      split; [|now rewrite Hc].
      cbn [app]. apply tidy_cons; [apply tidy_cons; [exact T|] | intros d r [= <- _]; reflexivity].
      intros d r Ed. rewrite Ed in E.
      destruct (skipn (lead (c :: s)) (c :: s)) as [|d' r'] eqn:Es; [discriminate|].
      injection E as <-.
      assert (Hd : is_digit d = false)
        by (eapply tidy_after_run; [exact H | lia | exact Es]).
      unfold breaks. now rewrite Hd.
    + rewrite sub_blank_miss by lia.
      destruct (IH s) as [T E];
        [cbn [List.length] in Hn; lia | now apply tidy_tail in H |].
      split; [|reflexivity].
      apply tidy_cons; [exact T|].
      intros d r Ed. rewrite Ed in E. destruct s as [|d' s']; [discriminate|].
      injection E as <-. now apply tidy_head in H.
Qed.

Lemma sub_blank_tidy s : tidy s -> tidy (sub re_blank_lines (fun _ => [nl; nl]) s).
Proof. intros H. now apply (@sub_blank_tidy_aux (List.length s) s). Qed.

(** [strip] keeps a piece of the text. *)
Lemma lstrip_tidy s : tidy s -> tidy (lstrip s).
Proof.
  induction s as [|c s IH]; intros H; [exact I|].
  cbn [lstrip]. destruct (is_space c); [apply IH; now apply tidy_tail in H | exact H].
Qed.

Lemma rstrip_head s a r : rstrip s = a :: r -> exists s', s = a :: s'.
Proof.
  destruct s as [|c s]; [discriminate|]. cbn [rstrip].
  destruct (rstrip s); [destruct (is_space c)|]; intros [= <- _]; now exists s.
Qed.

Lemma rstrip_tidy s : tidy s -> tidy (rstrip s).
Proof.
  induction s as [|c s IH]; intros H; [exact I|].
  cbn [rstrip]. destruct (rstrip s) as [|a r] eqn:E.
  - destruct (is_space c); exact I.
  - destruct (rstrip_head _ E) as [s' ->].
    split; [now apply tidy_head in H | apply IH; now apply tidy_tail in H].
Qed.

Lemma strip_tidy s : tidy s -> tidy (strip s).
Proof. intros H. unfold strip. now apply rstrip_tidy, lstrip_tidy. Qed.

Lemma lstrip_calm s : calm s -> calm (lstrip s).
Proof.
  induction s as [|c s IH]; intros H; [exact H|].
  cbn [lstrip]. destruct (is_space c); [apply IH; now apply calm_tail in H | exact H].
Qed.

Lemma lead_rstrip s : lead (rstrip s) <= lead s.
Proof.
  induction s as [|c s IH]; simpl; [lia|].
  destruct (rstrip s) as [|a r] eqn:E.
  - destruct (is_space c); simpl; destruct (is_nl c); simpl in *; lia.
  - cbn [lead]. destruct (is_nl c); [|lia].
    cbn [lead] in IH. lia.
Qed.

Lemma rstrip_calm s : calm s -> calm (rstrip s).
Proof.
  induction s as [|c s IH]; intros H; [exact H|].
  destruct H as [H1 H2]. specialize (IH H2).
  pose proof (lead_rstrip (c :: s)) as L.
  cbn [rstrip] in *. destruct (rstrip s) as [|a r] eqn:E.
  - destruct (is_space c); [exact I|]. split; [lia | exact I].
  - split; [lia | exact IH].
Qed.

Lemma strip_calm s : calm s -> calm (strip s).
Proof. intros H. unfold strip. now apply rstrip_calm, lstrip_calm. Qed.

(** [strip] is idempotent. *)
Lemma rstrip_rstrip s : rstrip (rstrip s) = rstrip s.
Proof.
  induction s as [|c s IH]; [reflexivity|].
  cbn [rstrip]. destruct (rstrip s) as [|a r] eqn:E.
  - destruct (is_space c) eqn:Ec; [reflexivity|].
    cbn [rstrip]. now rewrite Ec.
  - cbn [rstrip]. cbn [rstrip] in IH. rewrite IH. reflexivity.
Qed.

Lemma lstrip_head s :
  lstrip s = [] \/ exists c r, lstrip s = c :: r /\ is_space c = false.
Proof.
  induction s as [|c s IH]; [now left|].
  cbn [lstrip]. destruct (is_space c) eqn:E; [exact IH|].
  right. now exists c, s.
Qed.

Lemma lstrip_rstrip_lstrip s : lstrip (rstrip (lstrip s)) = rstrip (lstrip s).
Proof.
  destruct (lstrip_head s) as [E | (c & r & E & Hc)]; rewrite E; [reflexivity|].
  cbn [rstrip]. destruct (rstrip r); rewrite ?Hc; cbn [lstrip]; now rewrite Hc.
Qed.

Lemma strip_strip s : strip (strip s) = strip s.
Proof.
  unfold strip. rewrite lstrip_rstrip_lstrip. apply rstrip_rstrip.
Qed.

(** On a tidy text only the first substitution and [strip] act. *)
Lemma clean_text_tidy s :
  tidy s -> clean_text s = strip (sub re_blank_lines (fun _ => [nl; nl]) s).
Proof.
  intros H. unfold clean_text.
  pose proof (sub_blank_tidy _ H) as H1.
  rewrite sub_page_fix by exact H1. rewrite sub_hyphen_fix by exact H1.
  reflexivity.
Qed.

(** C4, as the claim states it, fails: of two page-number lines in a
    row the first application removes one and the second application
    the other. *)
Lemma clean_text_twice_differs :
  clean_text (lit "a\n1\n2\nb") = lit "a\n2\nb" /\
  clean_text (clean_text (lit "a\n1\n2\nb")) = lit "a\nb" /\
  clean_text (clean_text (lit "a\n1\n2\nb")) <> clean_text (lit "a\n1\n2\nb").
Proof.
  split; [vm_compute; reflexivity|].
  split; [vm_compute; reflexivity|].
  vm_compute. discriminate.
Qed.

(** The same happens with two hyphenated line ends in a row. *)
Example clean_text_twice_hyphens :
  clean_text (lit "ab-\nc-\nd") = lit "abc-\nd" /\
  clean_text (lit "abc-\nd") = lit "abcd".
Proof. split; vm_compute; reflexivity. Qed.

(** On a text in which no newline is followed by a decimal digit and
    no hyphen is followed by a newline, the second application of the
    cleanup changes nothing. *)
Lemma clean_text_twice_tidy (t : str) :
  tidy t -> clean_text (clean_text t) = clean_text t.
Proof.
  intros H.
  pose proof (sub_blank_tidy _ H) as H1.
  pose proof (sub_blank_calm t) as C1.
  rewrite (clean_text_tidy _ H).
  set (u := sub re_blank_lines (fun _ => [nl; nl]) t) in *.
  assert (Hu : tidy (strip u)) by (apply strip_tidy; exact H1).
  rewrite (clean_text_tidy _ Hu).
  rewrite sub_blank_fix by (apply strip_calm; exact C1).
  apply strip_strip.
Qed.

(** ** The batches *)

Lemma ceil_div_step b x :
  0 < b -> 0 < x -> ceil_div x b = S (ceil_div (x - b) b).
Proof.
  intros Hb Hx. unfold ceil_div.
  destruct (Nat.le_gt_cases b x) as [L|L].
  - replace (x + b - 1) with ((x - b + b - 1) + 1 * b) by lia.
    rewrite Nat.div_add by lia. lia.
  - replace (x - b) with 0 by lia.
    rewrite (Nat.div_small (0 + b - 1)) by lia.
    symmetry. apply Nat.div_unique with (r := x - 1); lia.
Qed.

Lemma ceil_div_0 b : 0 < b -> ceil_div 0 b = 0.
Proof. intros Hb. unfold ceil_div. apply Nat.div_small. lia. Qed.

(** [ceil_div n b] is the least number of groups of [b] that hold [n]. *)
Lemma ceil_div_bounds n b :
  0 < b -> n <= ceil_div n b * b < n + b.
Proof.
  intros Hb. unfold ceil_div.
  pose proof (Nat.div_mod (n + b - 1) b ltac:(lia)) as D.
  pose proof (Nat.mod_upper_bound (n + b - 1) b ltac:(lia)) as M.
  nia.
Qed.

Section Batches.
Variable all_texts : list Paper.
Variable batch_size : nat.
Hypothesis batch_size_pos : 1 <= batch_size.

(** The loop from [batch_start] on, with enough fuel. *)
Lemma batch_loop_from fuel : forall batch_start num,
  List.length all_texts - batch_start <= fuel ->
  let bs := batch_loop all_texts batch_size
              (range_from fuel batch_start (List.length all_texts) batch_size) num in
  List.length bs = ceil_div (List.length all_texts - batch_start) batch_size /\
  List.concat (map papers bs) = skipn batch_start all_texts /\
  List.concat (map paper_range bs)
  = seq (batch_start + 1) (List.length all_texts - batch_start) /\
  forall k b, nth_error bs k = Some b ->
    batch_num b = num + k /\
    first_paper b = batch_start + k * batch_size + 1 /\
    last_paper b = batch_start + k * batch_size + List.length (papers b) /\
    papers b = firstn batch_size (skipn (batch_start + k * batch_size) all_texts) /\
    1 <= List.length (papers b) <= batch_size /\
    (S k < List.length bs -> List.length (papers b) = batch_size).
Proof.
  induction fuel as [|fuel IH]; intros batch_start num Hf; cbn zeta;
    set (N := List.length all_texts) in *.
  - replace (N - batch_start) with 0 by lia.
    rewrite ceil_div_0 by lia. cbn.
    rewrite skipn_all2 by (fold N; lia).
    repeat split; try reflexivity.
    all: destruct k; discriminate.
  - cbn [range_from].
    destruct (Nat.ltb_spec batch_start N) as [Hlt|Hge].
    + cbn [batch_loop].
      destruct (IH (batch_start + batch_size) (num + 1)) as (L & C & R & P); [lia|].
      set (tl := batch_loop all_texts batch_size
                   (range_from fuel (batch_start + batch_size) N batch_size) (num + 1)) in *.
      unfold slice.
      replace (batch_start + batch_size - batch_start) with batch_size by lia.
      set (batch := firstn batch_size (skipn batch_start all_texts)).
      assert (Hlen : List.length batch = Nat.min batch_size (N - batch_start)).
      { unfold batch. now rewrite length_firstn, length_skipn. }
      repeat split.
      * cbn [List.length]. rewrite L.
        rewrite (@ceil_div_step batch_size (N - batch_start)) by lia.
        do 2 f_equal. lia.
      * cbn [map List.concat papers]. rewrite C.
        transitivity (batch ++ skipn batch_size (skipn batch_start all_texts));
          [|apply firstn_skipn].
        rewrite skipn_skipn. do 2 f_equal. lia.
      * cbn [map List.concat]. unfold paper_range at 1. cbn [first_paper last_paper].
        rewrite R, Hlen.
        replace (N - batch_start)
          with (Nat.min batch_size (N - batch_start) + (N - (batch_start + batch_size)))
          at 2 by lia.
        rewrite seq_app.
        destruct (Nat.le_gt_cases batch_size (N - batch_start)) as [G|G].
        -- f_equal; f_equal; lia.
        -- replace (N - (batch_start + batch_size)) with 0 by lia.
           cbn [seq]. do 2 f_equal. lia.
      * destruct k as [|k]; cbn [nth_error] in H.
        -- injection H as <-. cbn. lia.
        -- destruct (P k b H) as (P1 & _). lia.
      * destruct k as [|k]; cbn [nth_error] in H.
        -- injection H as <-. cbn. lia.
        -- destruct (P k b H) as (_ & P2 & _). lia.
      * destruct k as [|k]; cbn [nth_error] in H.
        -- injection H as <-. cbn. lia.
        -- destruct (P k b H) as (_ & _ & P3 & _). lia.
      * destruct k as [|k]; cbn [nth_error] in H.
        -- injection H as <-. cbn [papers]. unfold batch. do 2 f_equal. lia.
        -- destruct (P k b H) as (_ & _ & _ & P4 & _). rewrite P4.
           do 2 f_equal. lia.
      * destruct k as [|k]; cbn [nth_error] in H.
        -- injection H as <-. cbn [papers]. lia.
        -- destruct (P k b H) as (_ & _ & _ & _ & P5 & _). lia.
      * destruct k as [|k]; cbn [nth_error] in H.
        -- injection H as <-. cbn [papers]. lia.
        -- destruct (P k b H) as (_ & _ & _ & _ & P5 & _). lia.
      * intros Hk. destruct k as [|k]; cbn [nth_error] in H.
        -- injection H as <-. cbn [papers List.length] in *.
           assert (0 < ceil_div (N - (batch_start + batch_size)) batch_size) by lia.
           destruct (Nat.le_gt_cases N (batch_start + batch_size)) as [G|G]; [|lia].
           replace (N - (batch_start + batch_size)) with 0 in * by lia.
           rewrite ceil_div_0 in * by lia. lia.
        -- destruct (P k b H) as (_ & _ & _ & _ & _ & P6).
           apply P6. cbn [List.length] in Hk. lia.
    + replace (N - batch_start) with 0 by lia.
      rewrite ceil_div_0 by lia. cbn.
      rewrite skipn_all2 by (fold N; lia).
      repeat split; try reflexivity.
      all: destruct k; discriminate.
Qed.
End Batches.

(** C3: for N extracted papers and a batch size B >= 1 the batch loop
    produces ceil(N/B) batches, the least number of groups of B that
    hold N papers; batch k (from 0) is the slice of B
    papers starting at position k*B, it is not empty, and it holds
    exactly B papers unless it is the last one; the batches put end to
    end give back the list of papers, and the ranges of papers that
    they announce give 1..N in order, without gap or overlap. *)
Theorem create_batches_partition (all_texts : list Paper) (batch_size : nat) :
  1 <= batch_size ->
  exists bs,
    create_batches all_texts batch_size = Some bs /\
    List.length bs = ceil_div (List.length all_texts) batch_size /\
    List.length all_texts <= List.length bs * batch_size
      < List.length all_texts + batch_size /\
    (forall k b, nth_error bs k = Some b ->
       batch_num b = k + 1 /\
       first_paper b = k * batch_size + 1 /\
       last_paper b = k * batch_size + List.length (papers b) /\
       papers b = slice all_texts (k * batch_size) (k * batch_size + batch_size) /\
       1 <= List.length (papers b) <= batch_size /\
       (S k < List.length bs -> List.length (papers b) = batch_size)) /\
    List.concat (map papers bs) = all_texts /\
    List.concat (map paper_range bs) = seq 1 (List.length all_texts).
Proof.
  intros HB. unfold create_batches, range_step.
  destruct (Nat.eqb_spec batch_size 0) as [E|_]; [lia|].
  eexists. split; [reflexivity|].
  destruct (@batch_loop_from all_texts batch_size HB (List.length all_texts) 0 1)
    as (L & C & R & P); [lia|].
  rewrite Nat.sub_0_r in *. cbn [skipn Nat.add] in *.
  pose proof (@ceil_div_bounds (List.length all_texts) batch_size HB) as Hc.
  rewrite <- L in Hc.
  repeat split; try assumption; try (apply Hc).
  all: destruct (P k b H) as (P1 & P2 & P3 & P4 & P5 & P6);
    cbn [Nat.add] in *; try lia; try (now apply P6).
  unfold slice. rewrite P4. f_equal. lia.
Qed.

Lemma create_batches_partition_witness :
  exists bs,
    create_batches (map sample_paper [1; 2; 3]) 2 = Some bs /\
    List.length bs = 2 /\
    List.concat (map paper_range bs) = [1; 2; 3].
Proof.
  destruct (@create_batches_partition (map sample_paper [1; 2; 3]) 2 (le_S _ _ (le_n 1)))
    as (bs & E & L & _ & _ & _ & R).
  exists bs. split; [exact E|]. split; [exact L | exact R].
Defined.

(** ** Discovery of the PDF files *)

Section SortedBy.
Variable A : Type.
Variable key : A -> str.

Lemma str_leb_total a b : str_leb a b = false -> str_leb b a = true.
Proof.
  unfold str_leb. intros H.
  destruct (String.leb_total (string_of_list_ascii a) (string_of_list_ascii b))
    as [T|T]; [congruence | exact T].
Qed.

Lemma insert_by_perm x l : Permutation (x :: l) (insert_by key x l).
Proof.
  induction l as [|y l IH]; cbn [insert_by]; [apply Permutation_refl|].
  destruct (str_leb (key y) (key x)); [|apply Permutation_refl].
  eapply perm_trans; [apply perm_swap|]. now apply perm_skip.
Qed.

Lemma insert_by_hd x y l :
  key_le key y x -> HdRel (key_le key) y l -> HdRel (key_le key) y (insert_by key x l).
Proof.
  intros Hx Hl. destruct l as [|z l]; cbn [insert_by]; [now constructor|].
  destruct (str_leb (key z) (key x)); constructor; [|exact Hx].
  now inversion Hl.
Qed.

Lemma insert_by_sorted x l :
  Sorted (key_le key) l -> Sorted (key_le key) (insert_by key x l).
Proof.
  induction 1 as [|y l Hs IH Hh]; cbn [insert_by]; [repeat constructor|].
  destruct (str_leb (key y) (key x)) eqn:E.
  - constructor; [exact IH | now apply insert_by_hd].
  - constructor; [now constructor|]. constructor. now apply str_leb_total.
Qed.

Lemma fold_insert_by l : forall acc,
  Sorted (key_le key) acc ->
  Sorted (key_le key) (fold_left (fun acc x => insert_by key x acc) l acc) /\
  Permutation (acc ++ l) (fold_left (fun acc x => insert_by key x acc) l acc).
Proof.
  induction l as [|x l IH]; intros acc Hs; cbn [fold_left].
  - split; [exact Hs | now rewrite app_nil_r].
  - destruct (IH (insert_by key x acc) (insert_by_sorted x Hs)) as [S1 P1].
    split; [exact S1|].
    eapply perm_trans; [|exact P1].
    eapply perm_trans; [apply Permutation_sym, Permutation_middle|].
    apply (Permutation_app_tail l (insert_by_perm x acc)).
Qed.

Lemma sorted_by_sorted l : Sorted (key_le key) (sorted_by key l).
Proof. apply fold_insert_by. constructor. Qed.

Lemma sorted_by_perm l : Permutation l (sorted_by key l).
Proof. apply (fold_insert_by l (acc := [])). constructor. Qed.
End SortedBy.

(** The loop that removes the duplicates: [seen] holds the paths of
    [unique_pdfs]. *)
Lemma unique_loop_spec pdfs : forall seen unique_pdfs,
  (forall p, In p seen <-> In p unique_pdfs) ->
  NoDup unique_pdfs ->
  NoDup (unique_loop pdfs seen unique_pdfs) /\
  forall p, In p (unique_loop pdfs seen unique_pdfs) <->
            In p unique_pdfs \/ In p pdfs.
Proof.
  induction pdfs as [|q pdfs IH]; intros seen uniq Hseen Hnd; cbn [unique_loop].
  - split; [exact Hnd|]. intros p. cbn. tauto.
  - destruct (in_dec path_eq_dec q seen) as [Hin|Hout].
    + destruct (IH seen uniq Hseen Hnd) as [N I]. split; [exact N|].
      intros p. rewrite I. cbn. apply Hseen in Hin.
      split; [tauto|]. intros [H|[<-|H]]; auto.
    + destruct (IH (q :: seen) (uniq ++ [q])) as [N I].
      * intros p. rewrite in_app_iff. cbn. rewrite Hseen. tauto.
      * apply NoDup_app; [exact Hnd | repeat constructor; intros [] |].
        intros p Hp [<-|[]]. apply Hout, Hseen, Hp.
      * split; [exact N|]. intros p. rewrite I, in_app_iff. cbn. tauto.
Qed.

Lemma glob_top_rec ext tree p : In p (glob_top ext tree) -> In p (glob_rec ext tree).
Proof.
  unfold glob_top, glob_rec. rewrite !filter_In.
  intros [H1 H2]. apply andb_true_iff in H2. tauto.
Qed.

(** C7: the list of PDF files has no duplicate, is sorted by the
    lower-cased file name, holds exactly the files of the folder and
    of its subfolders whose name ends in [.pdf] or [.PDF], and holds
    once each path that several patterns discover (a file of the top
    level is found by the pattern of the folder and by the recursive
    one). *)
Theorem find_pdfs_sorted_unique (tree : list path) :
  NoDup (find_pdfs tree) /\
  Sorted (key_le pdf_key) (find_pdfs tree) /\
  (find_pdfs tree <> [] -> discover (Some tree) = inr (find_pdfs tree)) /\
  (forall p, In p (find_pdfs tree) <-> In p tree /\ is_pdf p = true) /\
  (forall ext p, In p (glob_top ext tree) -> In p (glob_rec ext tree)) /\
  (forall p, In p tree -> is_pdf p = true ->
     count_occ path_eq_dec (find_pdfs tree) p = 1).
Proof.
  assert (R : find_pdfs tree <> [] -> discover (Some tree) = inr (find_pdfs tree)).
  { unfold discover. destruct (find_pdfs tree); [congruence | reflexivity]. }
  revert R. unfold find_pdfs. intros R.
  set (pdfs := (glob_top (lit ".pdf") tree ++ glob_top (lit ".PDF") tree)
               ++ glob_rec (lit ".pdf") tree ++ glob_rec (lit ".PDF") tree).
  destruct (@unique_loop_spec pdfs [] []) as [N I];
    [intros p; tauto | constructor |].
  set (u := unique_loop pdfs [] []) in *.
  pose proof (sorted_by_perm (fun x => lower (name x)) u) as P.
  assert (M : forall p, In p (sorted_by (fun x => lower (name x)) u)
                        <-> In p tree /\ is_pdf p = true).
  { intros p. split.
    - intros H. apply (Permutation_in _ (Permutation_sym P)) in H.
      apply I in H. destruct H as [[]|H]. unfold pdfs in H.
      rewrite !in_app_iff in H. unfold glob_top, glob_rec, is_pdf in *.
      rewrite !filter_In, !andb_true_iff in H. rewrite orb_true_iff. tauto.
    - intros [H1 H2]. apply (Permutation_in _ P). apply I. right.
      unfold pdfs. rewrite !in_app_iff. unfold glob_rec, is_pdf in *.
      rewrite !filter_In. apply orb_true_iff in H2. tauto. }
  assert (D : NoDup (sorted_by (fun x => lower (name x)) u))
    by (eapply Permutation_NoDup; eassumption).
  split; [exact D|].
  split; [apply (sorted_by_sorted (fun x => lower (name x)))|].
  split; [exact R|].
  split; [exact M|].
  split; [intros ext p; apply glob_top_rec|].
  intros p H1 H2. apply NoDup_count_occ'; [exact D|]. apply M. tauto.
Qed.

Lemma find_pdfs_sorted_unique_witness :
  let tree := [[lit "b.pdf"]; [lit "notes.txt"]; [lit "sub"; lit "A.PDF"]] in
  In [lit "b.pdf"] (glob_rec (lit ".pdf") tree) /\
  count_occ path_eq_dec (find_pdfs tree) [lit "b.pdf"] = 1.
Proof.
  intros tree.
  destruct (find_pdfs_sorted_unique tree) as (_ & _ & _ & _ & T & C).
  split.
  - apply T. left. reflexivity.
  - apply C; [left; reflexivity | reflexivity].
Defined.

(** A folder with a PDF at the top level, which both patterns find,
    one in a subfolder, a text file and an upper-case extension. *)
Example find_pdfs_sample :
  find_pdfs [[lit "b.pdf"]; [lit "notes.txt"]; [lit "sub"; lit "A.PDF"];
             [lit "sub"; lit "deep"; lit "c.pdf"]]
  = [[lit "sub"; lit "A.PDF"]; [lit "b.pdf"]; [lit "sub"; lit "deep"; lit "c.pdf"]].
Proof. vm_compute. reflexivity. Qed.

(** ** The status of an extraction *)

Lemma process_pdf_status i pdf_name text :
  (status (fst (process_pdf i pdf_name text)) = error <-> is_error_text text = true) /\
  (snd (process_pdf i pdf_name text) = None <-> is_error_text text = true) /\
  (is_error_text text = false ->
   exists paper, snd (process_pdf i pdf_name text) = Some paper /\
                 idx paper = i /\ paper_text paper = text).
Proof.
  unfold process_pdf, is_error_text.
  destruct (startswith (lit "ERROR") text); cbn [fst snd status].
  - repeat split; auto; discriminate.
  - repeat split; try discriminate. intros _. eexists. repeat split.
Qed.

Lemma process_pdfs_spec pdfs : forall i results all_texts,
  map status (fst (process_pdfs i pdfs results all_texts))
  = map status results
    ++ map (fun t => if is_error_text t then error else success) (extracted pdfs) /\
  map paper_text (snd (process_pdfs i pdfs results all_texts))
  = map paper_text all_texts
    ++ filter (fun t => negb (is_error_text t)) (extracted pdfs).
Proof.
  induction pdfs as [|[pdf_path pdf_name doc] pdfs IH]; intros i results all_texts.
  - cbn. now rewrite !app_nil_r.
  - cbn [process_pdfs extracted map filter path_str path_name fitz_open].
    set (text := extract_pdf_text pdf_path doc).
    unfold process_pdf. fold (is_error_text text).
    destruct (is_error_text text); cbn [negb];
      destruct (IH (S i) (results ++ [ {| filename := pdf_name;
                                           chars := List.length text;
                                           status := error |} ]) all_texts) as [A1 B1];
      destruct (IH (S i) (results ++ [ {| filename := pdf_name;
                                           chars := List.length text;
                                           status := success |} ])
                  (all_texts ++ [ {| idx := i; paper_filename := pdf_name;
                                     meta := {| filename := pdf_name;
                                                chars := List.length text;
                                                status := success |};
                                     paper_text := text |} ]))
        as [A2 B2].
    + rewrite A1, B1. rewrite map_app, <- app_assoc. split; reflexivity.
    + rewrite A2, B2. rewrite !map_app, <- !app_assoc. split; reflexivity.
Qed.

(** A text that starts with an opening bracket keeps it through the
    cleanup. *)
Lemma sub_bracket_head r repl s :
  match_at r ("["%char :: s) = None ->
  sub r repl ("["%char :: s) = "["%char :: sub r repl s.
Proof. intros H. unfold sub. cbn [sub_scan]. now rewrite H. Qed.

Lemma clean_text_bracket s :
  exists r, clean_text ("["%char :: s) = "["%char :: r.
Proof.
  unfold clean_text.
  rewrite (@sub_bracket_head re_blank_lines) by reflexivity.
  rewrite (@sub_bracket_head re_page_number) by reflexivity.
  rewrite (@sub_bracket_head re_hyphen) by reflexivity.
  unfold strip. cbn [lstrip]. change (is_space "["%char) with false. cbv iota.
  cbn [rstrip]. destruct (rstrip _) as [|a r].
  - change (is_space "["%char) with false. now exists [].
  - now exists (a :: r).
Qed.

Lemma text_parts_head n pages :
  text_parts n pages = [] \/
  exists s rest, text_parts n pages = ("["%char :: s) :: rest.
Proof.
  revert n. induction pages as [|page_text pages IH]; intros n; [now left|].
  cbn [text_parts]. destruct (truthy (strip page_text)); [|apply IH].
  right. eexists. eexists. reflexivity.
Qed.

(** When no exception is raised the extractor returns the empty text or
    a text that starts with the mark of a page, never with [ERROR]:
    the status is [error] exactly for the PDF files whose extraction
    raised. *)
Lemma extract_pages_not_error pdf_path pages :
  is_error_text (extract_pdf_text pdf_path (Pages pages)) = false.
Proof.
  cbn [extract_pdf_text].
  destruct (text_parts_head 1 pages) as [E | (s & rest & E)]; rewrite E.
  - reflexivity.
  - assert (J : exists t, join (lit "\n\n") (("["%char :: s) :: rest) = "["%char :: t).
    { cbn [join]. destruct rest; eexists; reflexivity. }
    destruct J as [t ->]. destruct (clean_text_bracket t) as [r ->]. reflexivity.
Qed.

(** C10: the status of a PDF is [error] exactly when the text that
    the extractor returns starts with [ERROR], whatever produced the
    text, and exactly these PDFs are left out of the list that is
    batched; an exception during the extraction does not leave the
    extractor, which returns a text starting with [ERROR] that carries
    the message. *)
Theorem error_status_iff_error_prefix (pdfs : list PdfFile) :
  (forall i pdf_name text,
     (status (fst (process_pdf i pdf_name text)) = error
      <-> startswith (lit "ERROR") text = true) /\
     (snd (process_pdf i pdf_name text) = None
      <-> startswith (lit "ERROR") text = true)) /\
  map status (fst (process_pdfs 1 pdfs [] []))
  = map (fun t => if startswith (lit "ERROR") t then error else success)
      (extracted pdfs) /\
  map paper_text (snd (process_pdfs 1 pdfs [] []))
  = filter (fun t => negb (startswith (lit "ERROR") t)) (extracted pdfs) /\
  (forall pdf_path e,
     extract_pdf_text pdf_path (Throws e)
     = lit "ERROR extracting " ++ pdf_path ++ lit ": " ++ e /\
     startswith (lit "ERROR") (extract_pdf_text pdf_path (Throws e)) = true).
Proof.
  split.
  { intros i pdf_name text.
    destruct (process_pdf_status i pdf_name text) as (A & B & _). now split. }
  destruct (process_pdfs_spec pdfs 1 [] []) as [A B].
  split; [exact A|]. split; [exact B|].
  intros pdf_path e. split; reflexivity.
Qed.

(** Two PDF files, the second of which cannot be opened. *)
Example process_pdfs_sample :
  let pdfs := [ {| path_str := lit "papers/a.pdf"; path_name := lit "a.pdf";
                   fitz_open := Pages [lit "Intro\n"; lit "  "; lit "co-\nda"] |};
                {| path_str := lit "papers/b.pdf"; path_name := lit "b.pdf";
                   fitz_open := Throws (lit "cannot open") |} ] in
  extracted pdfs = [lit "[Page 1]\nIntro\n\n[Page 3]\ncoda";
                    lit "ERROR extracting papers/b.pdf: cannot open"] /\
  map filename (fst (process_pdfs 1 pdfs [] [])) = [lit "a.pdf"; lit "b.pdf"] /\
  map status (fst (process_pdfs 1 pdfs [] [])) = [success; error] /\
  map idx (snd (process_pdfs 1 pdfs [] [])) = [1].
Proof. vm_compute. repeat split. Qed.

(** ** The transformation loop *)

Import Runner.

Lemma sleeps_app l1 l2 : sleeps (l1 ++ l2) = sleeps l1 ++ sleeps l2.
Proof.
  induction l1 as [|e l1 IH]; [reflexivity|].
  destruct e; cbn [app sleeps]; now rewrite IH.
Qed.

Lemma writes_app l1 l2 : writes (l1 ++ l2) = writes l1 ++ writes l2.
Proof.
  induction l1 as [|e l1 IH]; [reflexivity|].
  destruct e; cbn [app writes]; now rewrite IH.
Qed.

Lemma attempts_log_facts message waits :
  count_calls (attempts_log message waits) = S (List.length waits) /\
  sleeps (attempts_log message waits) = waits /\
  writes (attempts_log message waits) = [].
Proof.
  unfold attempts_log, count_calls.
  induction waits as [|w ws (IH1 & IH2 & IH3)]; [repeat split|].
  cbn [flat_map app filter List.length sleeps writes].
  rewrite IH1, IH2, IH3. repeat split.
Qed.

Section RetryLoop.
Variable Exc : Type.
Variable refuses : nat -> Z -> bool.
Variable handler : Z -> Z -> Z -> Exc -> Handling.
Variable service : nat -> str -> Reply Exc.
Variable cfg : Config.

(** [time.sleep]: the durations that it takes and those on which it
    raises. *)
Lemma sleep_accepted w st :
  accepted refuses w -> sleep refuses w st = inr (emit (Sleep w) st).
Proof.
  intros [H0 Hr]. unfold sleep. rewrite Hr.
  destruct (Z.ltb_spec w 0); [lia | reflexivity].
Qed.

Lemma sleep_negative w st : (w < 0)%Z -> sleep refuses w st = inl ValueError.
Proof.
  intros H. unfold sleep. destruct (Z.ltb_spec w 0); [reflexivity | lia].
Qed.

Lemma sleep_returns w st st' :
  sleep refuses w st = inr st' ->
  (0 <= w)%Z /\ refuses (calls st) w = false /\ st' = emit (Sleep w) st.
Proof.
  unfold sleep. destruct (Z.ltb_spec w 0); [discriminate|].
  destruct (refuses (calls st) w); [discriminate|].
  intros [= <-]. repeat split. assumption.
Qed.

Lemma sleep_raises w st err :
  sleep refuses w st = inl err ->
  (w < 0)%Z \/ refuses (calls st) w = true.
Proof.
  unfold sleep. destruct (Z.ltb_spec w 0); [now left|].
  destruct (refuses (calls st) w); [now right | discriminate].
Qed.

(** The attempts that the handler answers by a wait. *)
Lemma retry_loop_waits file_content : forall waits remaining attempt last_error st,
  (forall k w, nth_error waits k = Some w ->
     accepted refuses w /\
     exists e, service (calls st + k) (full_message cfg file_content) = Raises e /\
               handler (rate_limit_delay cfg) (max_retries cfg)
                 (attempt + Z.of_nat k) e = Wait w) ->
  List.length waits <= remaining ->
  exists last_error',
    retry_loop refuses handler service cfg file_content remaining attempt last_error st
    = retry_loop refuses handler service cfg file_content (remaining - List.length waits)
        (attempt + Z.of_nat (List.length waits)) last_error'
        (after_waits (full_message cfg file_content) waits st).
Proof.
  induction waits as [|w waits IH]; intros remaining attempt last_error st H L.
  - exists last_error. cbn [List.length]. rewrite Nat.sub_0_r, Z.add_0_r.
    unfold after_waits. cbn [flat_map List.length].
    rewrite app_nil_r, Nat.add_0_r. now destruct st.
  - destruct remaining as [|remaining]; [cbn in L; lia|].
    destruct (H 0 w eq_refl) as (Hw & e & He & Hh).
    rewrite Nat.add_0_r in He. rewrite Z.add_0_r in Hh.
    cbn [retry_loop]. rewrite He, Hh. rewrite sleep_accepted by exact Hw.
    destruct (IH remaining (attempt + 1)%Z (Some e)
                (emit (Sleep w) (issue_call (full_message cfg file_content) st)))
      as [last_error' E].
    + intros k w' Hk. destruct (H (S k) w' Hk) as (Hw' & e' & He' & Hh').
      split; [exact Hw'|]. exists e'. cbn [calls emit issue_call].
      split; [now rewrite <- He'; f_equal; lia|].
      rewrite <- Hh'. f_equal. lia.
    + cbn [List.length] in L. lia.
    + exists last_error'. rewrite E. cbn [List.length Nat.sub].
      f_equal; [lia|]. unfold after_waits, emit, issue_call.
      cbn [results calls log flat_map List.length].
      rewrite <- !app_assoc. cbn [app]. f_equal. lia.
Qed.

(** The attempt that ends the loop. *)
Lemma retry_loop_returns file_content remaining attempt last_error st response :
  service (calls st) (full_message cfg file_content) = Returns _ response ->
  retry_loop refuses handler service cfg file_content (S remaining) attempt last_error st
  = (Finished response last_error, issue_call (full_message cfg file_content) st).
Proof. intros H. cbn [retry_loop]. now rewrite H. Qed.

Lemma retry_loop_reraise file_content remaining attempt last_error st e :
  service (calls st) (full_message cfg file_content) = Raises e ->
  handler (rate_limit_delay cfg) (max_retries cfg) attempt e = Reraise ->
  retry_loop refuses handler service cfg file_content (S remaining) attempt last_error st
  = (Propagates (ServiceError e), issue_call (full_message cfg file_content) st).
Proof. intros H1 H2. cbn [retry_loop]. now rewrite H1, H2. Qed.

(** The sleep of the handler raises: the loop is left after this
    call. *)
Lemma retry_loop_sleep_raises file_content remaining attempt last_error st e w :
  service (calls st) (full_message cfg file_content) = Raises e ->
  handler (rate_limit_delay cfg) (max_retries cfg) attempt e = Wait w ->
  (w < 0)%Z \/ refuses (S (calls st)) w = true ->
  exists err,
    retry_loop refuses handler service cfg file_content (S remaining) attempt
      last_error st
    = (Propagates (SleepRaised Exc err),
       issue_call (full_message cfg file_content) st).
Proof.
  intros H1 H2 H3. cbn [retry_loop]. rewrite H1, H2. unfold sleep.
  cbn [issue_call calls].
  destruct (Z.ltb_spec w 0); [eexists; reflexivity|].
  destruct H3 as [H3|H3]; [lia|]. rewrite H3. eexists; reflexivity.
Qed.

(** A file whose call returns after some waits: the state when the
    retry loop is left. *)
Lemma retry_loop_returns_after_waits st file_content waits response :
  (forall k w, nth_error waits k = Some w ->
     accepted refuses w /\
     exists e, service (calls st + k) (full_message cfg file_content) = Raises e /\
               handler (rate_limit_delay cfg) (max_retries cfg) (Z.of_nat k) e
               = Wait w) ->
  List.length waits < Z.to_nat (max_retries cfg) ->
  service (calls st + List.length waits) (full_message cfg file_content)
  = Returns Exc response ->
  exists last_error,
    retry_loop refuses handler service cfg file_content (Z.to_nat (max_retries cfg))
      0%Z None st
    = (Finished response last_error,
       {| results := results st;
          calls := calls st + List.length waits + 1;
          log := log st ++ attempts_log (full_message cfg file_content) waits |}).
Proof.
  intros Hw Hl He.
  destruct (@retry_loop_waits file_content waits
              (Z.to_nat (max_retries cfg)) 0%Z None st) as [le' EQ]; [exact Hw | lia |].
  rewrite EQ.
  destruct (Z.to_nat (max_retries cfg) - List.length waits) as [|rem] eqn:R; [lia|].
  exists le'.
  erewrite @retry_loop_returns; [|exact He].
  unfold issue_call, after_waits, attempts_log. cbn [results calls log].
  do 2 f_equal; [lia | now rewrite <- app_assoc].
Qed.

(** A file that fails after some waits, because the handler raises
    again or because its sleep raises: the service is called once more
    than there are waits, nothing is written, one failure is counted. *)
Lemma process_file_fails i n txt_file st file_content waits e :
  read_text txt_file = Some file_content ->
  strip file_content <> [] ->
  (forall k w, nth_error waits k = Some w ->
     accepted refuses w /\
     exists e', service (calls st + k) (full_message cfg file_content) = Raises e' /\
                handler (rate_limit_delay cfg) (max_retries cfg) (Z.of_nat k) e'
                = Wait w) ->
  List.length waits < Z.to_nat (max_retries cfg) ->
  service (calls st + List.length waits) (full_message cfg file_content) = Raises e ->
  (handler (rate_limit_delay cfg) (max_retries cfg)
     (Z.of_nat (List.length waits)) e = Reraise \/
   exists w,
     handler (rate_limit_delay cfg) (max_retries cfg)
       (Z.of_nat (List.length waits)) e = Wait w /\
     ((w < 0)%Z \/ refuses (calls st + List.length waits + 1) w = true)) ->
  process_file refuses handler service cfg i n txt_file st
  = {| results := incr_failed (results st);
       calls := calls st + List.length waits + 1;
       log := log st ++ attempts_log (full_message cfg file_content) waits |}.
Proof.
  intros Hr Hs Hw Hl He Hh. unfold process_file. rewrite Hr.
  destruct (strip file_content) as [|c r] eqn:E; [congruence|]. cbn [truthy negb].
  destruct (@retry_loop_waits file_content waits (Z.to_nat (max_retries cfg)) 0%Z None st)
    as [le' EQ]; [exact Hw | lia |].
  rewrite EQ.
  destruct (Z.to_nat (max_retries cfg) - List.length waits) as [|rem] eqn:R; [lia|].
  assert (F : snd (retry_loop refuses handler service cfg file_content (S rem)
                     (0 + Z.of_nat (List.length waits)) le'
                     (after_waits (full_message cfg file_content) waits st))
              = issue_call (full_message cfg file_content)
                  (after_waits (full_message cfg file_content) waits st) /\
              exists x, fst (retry_loop refuses handler service cfg file_content (S rem)
                               (0 + Z.of_nat (List.length waits)) le'
                               (after_waits (full_message cfg file_content) waits st))
                        = Propagates x).
  { destruct Hh as [Hh | (w & Hh & Hb)].
    - erewrite @retry_loop_reraise; [| exact He | exact Hh].
      split; [reflexivity | eexists; reflexivity].
    - destruct (@retry_loop_sleep_raises file_content rem
                  (0 + Z.of_nat (List.length waits)) le'
                  (after_waits (full_message cfg file_content) waits st) e w)
        as [err ->]; [exact He | exact Hh | |].
      + unfold after_waits. cbn [calls].
        destruct Hb as [Hb|Hb]; [now left | right].
        rewrite <- Hb. f_equal. lia.
      + split; [reflexivity | eexists; reflexivity]. }
  destruct F as [F1 [x F2]].
  destruct (retry_loop refuses handler service cfg file_content (S rem)
              (0 + Z.of_nat (List.length waits)) le'
              (after_waits (full_message cfg file_content) waits st)) as [ex st1].
  cbn [fst snd] in F1, F2. subst ex st1.
  unfold on_exception, update, issue_call, after_waits, attempts_log.
  cbn [results calls log]. f_equal; [lia|]. now rewrite <- app_assoc.
Qed.

Lemma process_file_fatal i n txt_file st file_content waits e :
  read_text txt_file = Some file_content ->
  strip file_content <> [] ->
  (forall k w, nth_error waits k = Some w ->
     accepted refuses w /\
     exists e', service (calls st + k) (full_message cfg file_content) = Raises e' /\
                handler (rate_limit_delay cfg) (max_retries cfg) (Z.of_nat k) e'
                = Wait w) ->
  List.length waits < Z.to_nat (max_retries cfg) ->
  service (calls st + List.length waits) (full_message cfg file_content) = Raises e ->
  handler (rate_limit_delay cfg) (max_retries cfg)
    (Z.of_nat (List.length waits)) e = Reraise ->
  process_file refuses handler service cfg i n txt_file st
  = {| results := incr_failed (results st);
       calls := calls st + List.length waits + 1;
       log := log st ++ attempts_log (full_message cfg file_content) waits |}.
Proof.
  intros Hr Hs Hw Hl He Hh.
  apply (@process_file_fails i n txt_file st file_content waits e); try assumption.
  now left.
Qed.

(** A file whose call returns a text after some waits: the output is
    written and the file is counted as processed; when another file
    follows, the pause is slept, and a pause on which [time.sleep]
    raises counts the file as failed too. *)
Lemma process_file_returns i n txt_file st file_content waits response :
  read_text txt_file = Some file_content ->
  strip file_content <> [] ->
  (forall k w, nth_error waits k = Some w ->
     accepted refuses w /\
     exists e, service (calls st + k) (full_message cfg file_content) = Raises e /\
               handler (rate_limit_delay cfg) (max_retries cfg) (Z.of_nat k) e
               = Wait w) ->
  List.length waits < Z.to_nat (max_retries cfg) ->
  service (calls st + List.length waits) (full_message cfg file_content)
  = Returns Exc (Some response) ->
  let written :=
    {| results := incr_processed (results st);
       calls := calls st + List.length waits + 1;
       log := log st
              ++ attempts_log (full_message cfg file_content) waits
              ++ [Write (stem (entry_name txt_file) ++ lit ".md") response] |} in
  process_file refuses handler service cfg i n txt_file st
  = if i <? n then
      match sleep refuses (delay cfg) written with
      | inr st' => st'
      | inl _ => update incr_failed written
      end
    else written.
Proof.
  intros Hr Hs Hw Hl He written. unfold process_file. rewrite Hr.
  destruct (strip file_content) as [|c r] eqn:E; [congruence|]. cbn [truthy negb].
  destruct (@retry_loop_returns_after_waits st file_content waits (Some response)
              Hw Hl He) as [le' ->].
  assert (W : update incr_processed
                (emit (Write (stem (entry_name txt_file) ++ lit ".md") response)
                   {| results := results st;
                      calls := calls st + List.length waits + 1;
                      log := log st
                             ++ attempts_log (full_message cfg file_content) waits |})
              = written).
  { unfold written, update, emit. cbn [results calls log]. f_equal.
    now rewrite <- app_assoc. }
  rewrite W. reflexivity.
Qed.

(** What holds of such a file whatever the pause is. *)
Lemma process_file_written i n txt_file st file_content waits response :
  read_text txt_file = Some file_content ->
  strip file_content <> [] ->
  (forall k w, nth_error waits k = Some w ->
     accepted refuses w /\
     exists e, service (calls st + k) (full_message cfg file_content) = Raises e /\
               handler (rate_limit_delay cfg) (max_retries cfg) (Z.of_nat k) e
               = Wait w) ->
  List.length waits < Z.to_nat (max_retries cfg) ->
  service (calls st + List.length waits) (full_message cfg file_content)
  = Returns Exc (Some response) ->
  let st' := process_file refuses handler service cfg i n txt_file st in
  calls st' = calls st + List.length waits + 1 /\
  (exists pause,
     log st' = log st
               ++ attempts_log (full_message cfg file_content) waits
               ++ [Write (stem (entry_name txt_file) ++ lit ".md") response]
               ++ pause /\
     (pause = [] \/ pause = [Sleep (delay cfg)])) /\
  writes (log st')
  = writes (log st) ++ [(stem (entry_name txt_file) ++ lit ".md", response)] /\
  processed (results st') = processed (results st) + 1 /\
  skipped (results st') = skipped (results st) /\
  total (results st') = total (results st) /\
  (failed (results st') = failed (results st) \/
   failed (results st') = failed (results st) + 1).
Proof.
  intros Hr Hs Hw Hl He st'. unfold st'.
  rewrite (@process_file_returns i n txt_file st file_content waits response
             Hr Hs Hw Hl He).
  destruct (attempts_log_facts (full_message cfg file_content) waits) as (_ & _ & W).
  assert (Ww : writes (log st
                       ++ attempts_log (full_message cfg file_content) waits
                       ++ [Write (stem (entry_name txt_file) ++ lit ".md") response])
               = writes (log st)
                 ++ [(stem (entry_name txt_file) ++ lit ".md", response)]).
  { rewrite !writes_app, W. reflexivity. }
  destruct (i <? n).
  - match goal with |- context [sleep refuses ?w ?x] =>
      destruct (sleep refuses w x) as [err|st2] eqn:S end.
    + unfold update. cbn [results calls log incr_failed incr_processed processed
                           failed skipped total].
      split; [reflexivity|]. split.
      { exists []. rewrite app_nil_r. split; [reflexivity | now left]. }
      split; [exact Ww|]. repeat split. now right.
    + apply sleep_returns in S. destruct S as (_ & _ & ->).
      unfold emit. cbn [results calls log incr_processed processed failed skipped
                         total].
      split; [reflexivity|]. split.
      { exists [Sleep (delay cfg)]. rewrite <- !app_assoc.
        split; [reflexivity | now right]. }
      split; [|repeat split; now left].
      rewrite writes_app, Ww. cbn [writes]. now rewrite app_nil_r.
  - cbn [results calls log incr_processed processed failed skipped total].
    split; [reflexivity|]. split.
    { exists []. rewrite app_nil_r. split; [reflexivity | now left]. }
    split; [exact Ww|]. repeat split. now left.
Qed.

(** The same when the pause is a duration that the sleep takes. *)
Lemma process_file_success_after_waits i n txt_file st file_content waits response :
  read_text txt_file = Some file_content ->
  strip file_content <> [] ->
  (forall k w, nth_error waits k = Some w ->
     accepted refuses w /\
     exists e, service (calls st + k) (full_message cfg file_content) = Raises e /\
               handler (rate_limit_delay cfg) (max_retries cfg) (Z.of_nat k) e
               = Wait w) ->
  List.length waits < Z.to_nat (max_retries cfg) ->
  service (calls st + List.length waits) (full_message cfg file_content)
  = Returns Exc (Some response) ->
  (i < n -> accepted refuses (delay cfg)) ->
  process_file refuses handler service cfg i n txt_file st
  = {| results := incr_processed (results st);
       calls := calls st + List.length waits + 1;
       log := log st
              ++ attempts_log (full_message cfg file_content) waits
              ++ [Write (stem (entry_name txt_file) ++ lit ".md") response]
              ++ (if i <? n then [Sleep (delay cfg)] else []) |}.
Proof.
  intros Hr Hs Hw Hl He Hd.
  rewrite (@process_file_returns i n txt_file st file_content waits response
             Hr Hs Hw Hl He).
  destruct (Nat.ltb_spec i n) as [Lt|Ge].
  - rewrite sleep_accepted by (apply Hd; exact Lt).
    unfold emit. cbn [results calls log]. f_equal. now rewrite <- !app_assoc.
  - now rewrite app_nil_r.
Qed.


(** A file whose text is blank. *)
Lemma process_file_blank i n txt_file st file_content :
  read_text txt_file = Some file_content ->
  strip file_content = [] ->
  process_file refuses handler service cfg i n txt_file st = update incr_skipped st.
Proof.
  intros Hr Hs. unfold process_file. now rewrite Hr, Hs.
Qed.

End RetryLoop.

(** [Path.stem] of a name that ends in [.txt]. *)
Lemma rfind_dot_app s t :
  rfind_dot t = None -> rfind_dot (s ++ "."%char :: t) = Some (List.length s).
Proof.
  intros H. induction s as [|c s IH]; cbn [app rfind_dot List.length].
  - now rewrite H.
  - now rewrite IH.
Qed.

Lemma stem_txt s : s <> [] -> stem (s ++ lit ".txt") = s.
Proof.
  intros H. unfold stem. change (lit ".txt") with ("."%char :: lit "txt").
  rewrite rfind_dot_app by reflexivity.
  rewrite length_app.
  destruct s as [|c s]; [congruence|].
  match goal with
  | |- (if ?b then _ else _) = _ => assert (Hb : b = true); [|rewrite Hb]
  end.
  - change (List.length ("."%char :: lit "txt")) with 4.
    apply andb_true_iff. split; apply Nat.ltb_lt; cbn [List.length]; lia.
  - rewrite firstn_app, firstn_all, Nat.sub_diag. cbn [firstn]. apply app_nil_r.
Qed.

(** C6: a file whose text is empty once stripped is counted as
    skipped, in either script: no service call is issued, nothing is
    written (the log is unchanged), and neither the processed nor the
    failed counter moves. *)
Theorem blank_file_skipped (refuses : nat -> Z -> bool)
    (cfg : Config) (i n : nat) (txt_file : DirEntry) (st : State) (file_content : str) :
  read_text txt_file = Some file_content ->
  strip file_content = [] ->
  (forall client,
     let st' := process_file refuses Claude.handler
                  (Claude.process_file_with_claude client) cfg i n txt_file st in
     calls st' = calls st /\ log st' = log st /\ counters_step 0 0 1 st st') /\
  (forall client,
     let st' := process_file refuses Gemini.handler
                  (Gemini.process_file_with_gemini client) cfg i n txt_file st in
     calls st' = calls st /\ log st' = log st /\ counters_step 0 0 1 st st').
Proof.
  intros Hr Hs. split; intros client; cbn zeta;
    rewrite (process_file_blank refuses _ _ _ _ _ _ _ Hr Hs);
    unfold counters_step; cbn; repeat split; lia.
Qed.

Lemma blank_file_skipped_witness :
  let txt_file := {| entry_name := lit "empty.txt"; read_text := Some (lit " \n  ") |} in
  let client := fun (_ : nat) (_ : str) => Gemini.Response (Some (lit "unused")) in
  log (process_file refuses_long Gemini.handler
         (Gemini.process_file_with_gemini client)
         {| prompt := lit "Summarise"; delay := 1; rate_limit_delay := 30;
            max_retries := 3 |}
         1 2 txt_file (initial 2)) = [].
Proof.
  intros txt_file client.
  destruct (@blank_file_skipped refuses_long
              {| prompt := lit "Summarise"; delay := 1; rate_limit_delay := 30;
                 max_retries := 3 |}
              1 2 txt_file (initial 2) (lit " \n  ") eq_refl eq_refl) as [_ G].
  exact (proj1 (proj2 (G client))).
Defined.




(** ** Retries *)

Lemma nth_error_linear_waits base retries k w :
  nth_error (linear_waits base retries) k = Some w ->
  k < retries /\ w = (base * (Z.of_nat k + 1))%Z.
Proof.
  unfold linear_waits. rewrite nth_error_map, nth_error_seq.
  destruct (Nat.ltb_spec k retries) as [L|L]; cbn [option_map]; [|discriminate].
  intros [= <-]. split; [exact L|]. f_equal. lia.
Qed.

Lemma length_linear_waits base retries :
  List.length (linear_waits base retries) = retries.
Proof. unfold linear_waits. now rewrite length_map, length_seq. Qed.

(** Linear backoff: with a positive base each wait is longer than the
    one before. *)
Lemma linear_waits_increasing base retries :
  (0 < base)%Z -> Sorted Z.lt (linear_waits base retries).
Proof.
  intros Hb. unfold linear_waits. generalize 1.
  induction retries as [|r IH]; intros start; cbn [seq map]; [constructor|].
  constructor; [apply IH|].
  destruct r; cbn [seq map]; constructor. nia.
Qed.

Section AlwaysBackoff.
Variable Exc : Type.
Variable refuses : nat -> Z -> bool.
Variable handler : Z -> Z -> Z -> Exc -> Handling.
Variable service : nat -> str -> Reply Exc.
Variable cfg : Config.

(** A file all of whose calls raise an exception that the handler
    answers by the linear backoff on [base] while attempts are left,
    when [time.sleep] takes each of the waits. *)
Lemma process_file_always_backoff base i n txt_file st file_content :
  read_text txt_file = Some file_content ->
  strip file_content <> [] ->
  (1 <= max_retries cfg)%Z ->
  (forall w, In w (linear_waits base (Z.to_nat (max_retries cfg) - 1)) ->
     accepted refuses w) ->
  (forall k, exists e,
     service (calls st + k) (full_message cfg file_content) = Raises e /\
     forall attempt,
       handler (rate_limit_delay cfg) (max_retries cfg) attempt e
       = if (attempt <? max_retries cfg - 1)%Z
         then Wait (base * (attempt + 1))
         else Reraise) ->
  process_file refuses handler service cfg i n txt_file st
  = {| results := incr_failed (results st);
       calls := calls st + Z.to_nat (max_retries cfg);
       log := log st
              ++ attempts_log (full_message cfg file_content)
                   (linear_waits base (Z.to_nat (max_retries cfg) - 1)) |}.
Proof.
  intros Hr Hs Hm Hd Hsvc.
  set (m := Z.to_nat (max_retries cfg)) in *.
  destruct (Hsvc (m - 1)) as (e & He & Hh).
  rewrite (@process_file_fatal _ refuses handler service cfg i n txt_file st
             file_content (linear_waits base (m - 1)) e Hr Hs).
  - rewrite length_linear_waits. f_equal. lia.
  - intros k w Hk. split; [apply Hd; eapply nth_error_In; exact Hk|].
    apply nth_error_linear_waits in Hk. destruct Hk as [Lk ->].
    destruct (Hsvc k) as (e' & He' & Hh').
    exists e'. split; [exact He'|]. rewrite Hh'.
    destruct (Z.ltb_spec (Z.of_nat k) (max_retries cfg - 1)); [reflexivity | lia].
  - rewrite length_linear_waits. lia.
  - rewrite length_linear_waits. exact He.
  - rewrite length_linear_waits, Hh.
    destruct (Z.ltb_spec (Z.of_nat (m - 1)) (max_retries cfg - 1)); [lia | reflexivity].
Qed.
End AlwaysBackoff.

(** C2, as the claim states it, fails: with the shipped settings of the
    Gemini script (three attempts, base delay 30) a file whose calls
    are always rate limited is sent three times, that is retried
    twice, after waits of 30 and 60 seconds. *)
Lemma rate_limited_retries_one_less :
  let cfg := {| prompt := lit "P"; delay := 1; rate_limit_delay := 30;
                max_retries := 3 |} in
  let txt_file := {| entry_name := lit "a.txt"; read_text := Some (lit "text") |} in
  let client := fun (_ : nat) (_ : str) =>
    Gemini.ApiError (lit "429 RESOURCE_EXHAUSTED") in
  let st' := process_file refuses_long Gemini.handler
               (Gemini.process_file_with_gemini client) cfg 1 1 txt_file (initial 1) in
  let message := lit "P\n\n---\n\ntext" in
  log st' = [Call message; Sleep 30; Call message; Sleep 60; Call message] /\
  retries (log st') = 2 /\
  retries (log st') <> Z.to_nat (max_retries cfg).
Proof. vm_compute. repeat split; discriminate. Qed.

(** C2 (amended): a file with some text whose service calls are all
    answered by the rate-limit class is sent exactly [max_retries]
    times, that is retried [max_retries - 1] times, when each of the
    waits is a duration that [time.sleep] takes; the wait before retry
    number k is [rate_limit_delay * k], so that with a positive base
    delay the waits increase strictly; the file is counted as failed
    and nothing is written for it.  The rate-limit class is
    [RateLimitError] in the Claude script, and in the Gemini script an
    exception whose text contains 429, quota, rate or resource. *)
Theorem rate_limited_file_fails_after_max_attempts (refuses : nat -> Z -> bool)
    (cfg : Config) (i n : nat) (txt_file : DirEntry) (st : State) (file_content : str) :
  read_text txt_file = Some file_content ->
  strip file_content <> [] ->
  (1 <= max_retries cfg)%Z ->
  let message := full_message cfg file_content in
  let attempts := Z.to_nat (max_retries cfg) in
  let waits := linear_waits (rate_limit_delay cfg) (attempts - 1) in
  (forall w, In w waits -> accepted refuses w) ->
  let outcome st' :=
    calls st' = calls st + attempts /\
    log st' = log st ++ attempts_log message waits /\
    count_calls (attempts_log message waits) = attempts /\
    retries (attempts_log message waits) = attempts - 1 /\
    sleeps (attempts_log message waits) = waits /\
    writes (attempts_log message waits) = [] /\
    counters_step 0 1 0 st st' in
  ((0 < rate_limit_delay cfg)%Z -> Sorted Z.lt waits) /\
  (forall k, nth_error waits k = Some (rate_limit_delay cfg * (Z.of_nat k + 1))%Z
             \/ attempts - 1 <= k) /\
  (forall client,
     (forall k, client (calls st + k) message = Claude.ApiError Claude.RateLimitError) ->
     outcome (process_file refuses Claude.handler
                (Claude.process_file_with_claude client) cfg i n txt_file st)) /\
  (forall client,
     (forall k, exists e, client (calls st + k) message = Gemini.ApiError e /\
                          Gemini.rate_limited e = true) ->
     outcome (process_file refuses Gemini.handler
                (Gemini.process_file_with_gemini client) cfg i n txt_file st)).
Proof.
  intros Hr Hs Hm message attempts waits Hd outcome.
  destruct (attempts_log_facts message waits) as (F1 & F2 & F3).
  assert (Hout : forall st',
            st' = {| results := incr_failed (results st);
                     calls := calls st + attempts;
                     log := log st ++ attempts_log message waits |} ->
            outcome st').
  { intros st' ->. unfold outcome, retries. cbn [calls log results].
    rewrite F1, F2, F3. unfold waits at 3 4. rewrite length_linear_waits.
    unfold counters_step. cbn. repeat split; lia. }
  split; [now apply linear_waits_increasing|].
  split.
  { intros k. unfold waits, linear_waits. rewrite nth_error_map, nth_error_seq.
    destruct (Nat.ltb_spec k (attempts - 1)); [left | now right].
    cbn [option_map]. do 2 f_equal. lia. }
  split; intros client Hc; apply Hout.
  - apply process_file_always_backoff; try assumption.
    intros k. exists Claude.RateLimitError. split; [|reflexivity].
    unfold Claude.process_file_with_claude. fold message. now rewrite Hc.
  - apply process_file_always_backoff; try assumption.
    intros k. destruct (Hc k) as (e & He & Hrl). exists e. split.
    + unfold Gemini.process_file_with_gemini. fold message. now rewrite He.
    + intros attempt. unfold Gemini.handler. now rewrite Hrl.
Qed.

Lemma rate_limited_file_fails_after_max_attempts_witness :
  let cfg := {| prompt := lit "Summarise"; delay := 2; rate_limit_delay := 60;
                max_retries := 5 |} in
  let txt_file := {| entry_name := lit "notes.txt"; read_text := Some (lit "some notes") |} in
  let client := fun (_ : nat) (_ : str) => Claude.ApiError Claude.RateLimitError in
  let st' := process_file refuses_long Claude.handler
               (Claude.process_file_with_claude client) cfg 1 2 txt_file (initial 2) in
  calls st' = 5 /\ sleeps (log st') = [60; 120; 180; 240]%Z /\ writes (log st') = [].
Proof.
  intros cfg txt_file client st'.
  assert (Hs : strip (lit "some notes") <> []) by (vm_compute; discriminate).
  assert (Hm : (1 <= max_retries cfg)%Z) by discriminate.
  assert (Hd : forall w,
            In w (linear_waits (rate_limit_delay cfg) (Z.to_nat (max_retries cfg) - 1)) ->
            accepted refuses_long w).
  { intros w Hw. vm_compute in Hw.
    repeat (destruct Hw as [<- | Hw]; [split; [lia | intros; reflexivity]|]).
    contradiction. }
  destruct (@rate_limited_file_fails_after_max_attempts refuses_long
              cfg 1 2 txt_file (initial 2) (lit "some notes") eq_refl Hs Hm Hd)
    as (_ & _ & Hc & _).
  destruct (Hc client (fun _ => eq_refl)) as (C & L & _ & _ & S & W & _).
  fold st' in C, L. rewrite C, L, sleeps_app, writes_app, S, W.
  repeat split.
Defined.

(** The retry loop of the Claude script waits only after one of the
    three transient classes. *)
Lemma claude_handler_wait d mx attempt e w :
  Claude.handler d mx attempt e = Wait w ->
  e = Claude.RateLimitError \/ e = Claude.APIStatusError 529
  \/ e = Claude.APIConnectionError.
Proof.
  destruct e as [| code | |]; cbn [Claude.handler]; auto.
  - destruct (Z.eqb_spec code 529) as [->|_]; [auto | discriminate].
  - discriminate.
Qed.

Lemma claude_handler_other_status d mx attempt code :
  code <> 529%Z -> Claude.handler d mx attempt (Claude.APIStatusError code) = Reraise.
Proof.
  intros H. cbn [Claude.handler].
  destruct (Z.eqb_spec code 529); [contradiction | reflexivity].
Qed.

Lemma gemini_handler_wait d mx attempt e w :
  Gemini.handler d mx attempt e = Wait w -> Gemini.rate_limited e = true.
Proof.
  unfold Gemini.handler. destruct (Gemini.rate_limited e); [reflexivity | discriminate].
Qed.

Lemma gemini_handler_other d mx attempt e :
  Gemini.rate_limited e = false -> Gemini.handler d mx attempt e = Reraise.
Proof. intros H. unfold Gemini.handler. now rewrite H. Qed.

Lemma claude_handler_waits d mx attempt e :
  (exists w, Claude.handler d mx attempt e = Wait w) <->
  (e = Claude.RateLimitError \/ e = Claude.APIStatusError 529
   \/ e = Claude.APIConnectionError) /\ (attempt < mx - 1)%Z.
Proof.
  split.
  - intros [w H]. split; [eapply claude_handler_wait; exact H|].
    destruct e as [| code | |]; cbn [Claude.handler] in H;
      try destruct (code =? 529)%Z;
      destruct (Z.ltb_spec attempt (mx - 1)); (assumption || discriminate H).
  - intros [[-> | [-> | ->]] L]; cbn [Claude.handler];
      try change (529 =? 529)%Z with true; cbv iota;
      destruct (Z.ltb_spec attempt (mx - 1)); try lia; eexists; reflexivity.
Qed.

Lemma gemini_handler_waits d mx attempt e :
  (exists w, Gemini.handler d mx attempt e = Wait w) <->
  Gemini.rate_limited e = true /\ (attempt < mx - 1)%Z.
Proof.
  unfold Gemini.handler. split.
  - intros [w H]. destruct (Gemini.rate_limited e); [|discriminate H].
    destruct (Z.ltb_spec attempt (mx - 1)); [now split | discriminate H].
  - intros [-> L]. destruct (Z.ltb_spec attempt (mx - 1)); [|lia].
    eexists; reflexivity.
Qed.

(** C5, as the claim states it, fails for the Gemini script, which
    tells the failures apart by the text of the exception: a server
    error of status 500 whose text holds [rate] (in [generate]) is
    retried with backoff like a rate limit. *)
Lemma gemini_retries_other_server_error :
  let e := lit "500 INTERNAL. Failed to generate content" in
  let cfg := {| prompt := lit "P"; delay := 1; rate_limit_delay := 30;
                max_retries := 3 |} in
  let txt_file := {| entry_name := lit "a.txt"; read_text := Some (lit "text") |} in
  let client := fun (_ : nat) (_ : str) => Gemini.ApiError e in
  let st' := process_file refuses_long Gemini.handler
               (Gemini.process_file_with_gemini client) cfg 1 1 txt_file (initial 1) in
  let message := lit "P\n\n---\n\ntext" in
  contains (lit "429") e = false /\
  contains (lit "529") e = false /\
  Gemini.handler (rate_limit_delay cfg) (max_retries cfg) 0 e = Wait 30 /\
  log st' = [Call message; Sleep 30; Call message; Sleep 60; Call message] /\
  retries (log st') = 2.
Proof. vm_compute. repeat split. Qed.

(** C5, as amended: in the Claude script the retry loop waits and
    tries again only after a rate-limit error, a status error with code
    529 or a connection error, while attempts are left; a status error
    with another code ends the file at once.  In the Gemini script the
    loop waits and tries again exactly after an exception whose text
    holds 429, or in lower case quota, rate or resource, while attempts
    are left; an exception whose text holds none of them ends the file
    at once.  In both scripts the file that ends so, at whichever
    attempt, has the call that raised as its last event, one call more
    than waits, nothing written, and is counted as failed. *)
Theorem only_transient_errors_retried (refuses : nat -> Z -> bool) :
  (forall d mx attempt e,
     (exists w, Claude.handler d mx attempt e = Wait w) <->
     (e = Claude.RateLimitError \/ e = Claude.APIStatusError 529
      \/ e = Claude.APIConnectionError) /\ (attempt < mx - 1)%Z) /\
  (forall d mx attempt e,
     (exists w, Gemini.handler d mx attempt e = Wait w) <->
     (contains (lit "429") e = true \/ contains (lit "quota") (lower e) = true
      \/ contains (lit "rate") (lower e) = true
      \/ contains (lit "resource") (lower e) = true) /\ (attempt < mx - 1)%Z) /\
  (forall client cfg i n txt_file st file_content waits status_code,
     read_text txt_file = Some file_content ->
     strip file_content <> [] ->
     (forall k w, nth_error waits k = Some w ->
        accepted refuses w /\
        exists e, client (calls st + k) (full_message cfg file_content)
                  = Claude.ApiError e /\
                  Claude.handler (rate_limit_delay cfg) (max_retries cfg)
                    (Z.of_nat k) e = Wait w) ->
     List.length waits < Z.to_nat (max_retries cfg) ->
     client (calls st + List.length waits) (full_message cfg file_content)
     = Claude.ApiError (Claude.APIStatusError status_code) ->
     status_code <> 529%Z ->
     process_file refuses Claude.handler (Claude.process_file_with_claude client)
       cfg i n txt_file st
     = {| results := incr_failed (results st);
          calls := calls st + List.length waits + 1;
          log := log st ++ attempts_log (full_message cfg file_content) waits |}) /\
  (forall client cfg i n txt_file st file_content waits e,
     read_text txt_file = Some file_content ->
     strip file_content <> [] ->
     (forall k w, nth_error waits k = Some w ->
        accepted refuses w /\
        exists e', client (calls st + k) (full_message cfg file_content)
                   = Gemini.ApiError e' /\
                   Gemini.handler (rate_limit_delay cfg) (max_retries cfg)
                     (Z.of_nat k) e' = Wait w) ->
     List.length waits < Z.to_nat (max_retries cfg) ->
     client (calls st + List.length waits) (full_message cfg file_content)
     = Gemini.ApiError e ->
     contains (lit "429") e = false ->
     contains (lit "quota") (lower e) = false ->
     contains (lit "rate") (lower e) = false ->
     contains (lit "resource") (lower e) = false ->
     process_file refuses Gemini.handler (Gemini.process_file_with_gemini client)
       cfg i n txt_file st
     = {| results := incr_failed (results st);
          calls := calls st + List.length waits + 1;
          log := log st ++ attempts_log (full_message cfg file_content) waits |}).
Proof.
  split; [exact claude_handler_waits|]. split.
  { intros d mx attempt e. rewrite gemini_handler_waits. unfold Gemini.rate_limited.
    rewrite !orb_true_iff. tauto. }
  split.
  - intros client cfg i n txt_file st file_content waits status_code
      Hr Hs Hw Hl He Hc.
    apply process_file_fatal with (e := Claude.APIStatusError status_code);
      try assumption.
    + intros k w Hk. destruct (Hw k w Hk) as (W & e' & E1 & E2).
      split; [exact W|]. exists e'. split; [|exact E2].
      unfold Claude.process_file_with_claude. now rewrite E1.
    + unfold Claude.process_file_with_claude. now rewrite He.
    + now apply claude_handler_other_status.
  - intros client cfg i n txt_file st file_content waits e Hr Hs Hw Hl He
      H1 H2 H3 H4.
    apply process_file_fatal with (e := e); try assumption.
    + intros k w Hk. destruct (Hw k w Hk) as (W & e' & E1 & E2).
      split; [exact W|]. exists e'. split; [|exact E2].
      unfold Gemini.process_file_with_gemini. now rewrite E1.
    + unfold Gemini.process_file_with_gemini. now rewrite He.
    + apply gemini_handler_other. unfold Gemini.rate_limited.
      now rewrite H1, H2, H3, H4.
Qed.

(** A file of the Claude script that is overloaded once (529) and then
    refused with status 400. *)
Lemma only_transient_errors_retried_witness :
  let cfg := {| prompt := lit "Summarise"; delay := 2; rate_limit_delay := 60;
                max_retries := 5 |} in
  let txt_file := {| entry_name := lit "notes.txt"; read_text := Some (lit "some notes") |} in
  let client := fun (n : nat) (_ : str) =>
    match n with
    | 0 => Claude.ApiError (Claude.APIStatusError 529)
    | _ => Claude.ApiError (Claude.APIStatusError 400)
    end in
  let message := full_message cfg (lit "some notes") in
  process_file refuses_long Claude.handler
    (Claude.process_file_with_claude client) cfg 1 2 txt_file (initial 2)
  = {| results := {| processed := 0; failed := 1; skipped := 0; total := 2 |};
       calls := 2;
       log := [Call message; Sleep 60; Call message] |}.
Proof.
  intros cfg txt_file client message.
  destruct (only_transient_errors_retried refuses_long)
    as (_ & _ & H & _).
  assert (Hs : strip (lit "some notes") <> []) by (vm_compute; discriminate).
  rewrite (H client cfg 1 2 txt_file (initial 2) (lit "some notes") [60%Z] 400%Z
             eq_refl Hs).
  - reflexivity.
  - intros [|[|k]] w Hk; try discriminate. injection Hk as <-.
    split; [split; [lia | intros; reflexivity]|].
    exists (Claude.APIStatusError 529). split; reflexivity.
  - cbn. lia.
  - reflexivity.
  - discriminate.
Defined.

(** ** The counters *)

Section Counters.
Variable Exc : Type.
Variable refuses : nat -> Z -> bool.
Variable handler : Z -> Z -> Z -> Exc -> Handling.
Variable service : nat -> str -> Reply Exc.
Variable cfg : Config.

(** The retry loop does not touch the counters. *)
Lemma retry_loop_results file_content remaining :
  forall attempt last_error st,
  results (snd (retry_loop refuses handler service cfg file_content remaining
                  attempt last_error st)) = results st.
Proof.
  induction remaining as [|r IH]; intros attempt last_error st; [reflexivity|].
  cbn [retry_loop].
  destruct (service (calls st) (full_message cfg file_content)) as [resp|e];
    [reflexivity|].
  destruct (handler _ _ attempt e) as [w|]; [|reflexivity].
  destruct (sleep refuses w (issue_call (full_message cfg file_content) st))
    as [err|st2] eqn:S; [reflexivity|].
  apply sleep_returns in S. destruct S as (_ & _ & ->). now rewrite IH.
Qed.

(** Each iteration adds one to exactly one of the three counters,
    provided the pause that follows a file, when another file comes
    after it, is a duration that the sleep takes. *)
Lemma process_file_counts i n txt_file st :
  (i < n -> accepted refuses (delay cfg)) ->
  let st' := process_file refuses handler service cfg i n txt_file st in
  counters_step 1 0 0 st st' \/ counters_step 0 1 0 st st'
  \/ counters_step 0 0 1 st st'.
Proof.
  intros Hd. cbn zeta. unfold process_file, counters_step.
  destruct (read_text txt_file) as [file_content|];
    [|right; left; cbn; repeat split; lia].
  destruct (negb (truthy (strip file_content)));
    [right; right; cbn; repeat split; lia|].
  pose proof (retry_loop_results file_content (Z.to_nat (max_retries cfg))
                0%Z None st) as R.
  destruct (retry_loop refuses handler service cfg file_content
              (Z.to_nat (max_retries cfg)) 0%Z None st) as [[[resp|] le|e] st1];
    cbn [snd] in R.
  - left.
    destruct (Nat.ltb_spec i n) as [Lt|Ge].
    + rewrite sleep_accepted by (apply Hd; exact Lt).
      cbn. rewrite R. cbn. repeat split; lia.
    + cbn. rewrite R. cbn. repeat split; lia.
  - right; left. cbn. rewrite R. cbn. repeat split; lia.
  - right; left. cbn. rewrite R. cbn. repeat split; lia.
Qed.

Lemma files_loop_accounted txt_files : forall i n st,
  (i < n -> accepted refuses (delay cfg)) ->
  let st' := files_loop refuses handler service cfg i n txt_files st in
  accounted (results st') = accounted (results st) + List.length txt_files /\
  total (results st') = total (results st).
Proof.
  induction txt_files as [|f rest IH]; intros i n st Hd; cbn zeta.
  - cbn. split; [lia | reflexivity].
  - cbn [files_loop List.length].
    destruct (IH (S i) n (process_file refuses handler service cfg i n f st))
      as [A T]; [intros L; apply Hd; lia|].
    rewrite A, T.
    pose proof (@process_file_counts i n f st Hd) as C. cbn zeta in C.
    unfold counters_step, accounted in *. lia.
Qed.

(** The total does not move. *)
Lemma process_file_total i n txt_file st :
  total (results (process_file refuses handler service cfg i n txt_file st))
  = total (results st).
Proof.
  unfold process_file.
  destruct (read_text txt_file) as [file_content|]; [|reflexivity].
  destruct (negb _); [reflexivity|].
  pose proof (retry_loop_results file_content
                (Z.to_nat (max_retries cfg)) 0%Z None st) as R.
  destruct (retry_loop refuses handler service cfg file_content
              (Z.to_nat (max_retries cfg)) 0%Z None st) as [[[resp|] le|e] st1];
    cbn [snd] in R.
  - destruct (i <? n); [|cbn; now rewrite R].
    match goal with |- context [sleep refuses ?w ?x] =>
      destruct (sleep refuses w x) as [err|st2] eqn:S end.
    + cbn. now rewrite R.
    + apply sleep_returns in S. destruct S as (_ & _ & ->). cbn. now rewrite R.
  - cbn. now rewrite R.
  - cbn. now rewrite R.
Qed.

Lemma files_loop_total txt_files : forall i n st,
  total (results (files_loop refuses handler service cfg i n txt_files st))
  = total (results st).
Proof.
  induction txt_files as [|f rest IH]; intros i n st; cbn [files_loop];
    [reflexivity|].
  now rewrite IH, process_file_total.
Qed.

(** The run returns when the folder exists, and the total is the
    number of text files found; the three counters add up to the total
    when the pause between two files is a duration that the sleep
    takes (no pause is slept when there is one file at most). *)
Lemma process_all_files_accounted entries :
  exists st txt_files,
    Runner.process_all_files refuses handler service cfg (Some entries) = Some st /\
    get_txt_files (Some entries) = Some txt_files /\
    total (results st) = List.length txt_files /\
    ((1 < List.length txt_files -> accepted refuses (delay cfg)) ->
     processed (results st) + failed (results st) + skipped (results st)
     = total (results st)).
Proof.
  unfold Runner.process_all_files.
  destruct (get_txt_files (Some entries)) as [txt_files|] eqn:G; [|discriminate].
  destruct txt_files as [|f rest].
  - exists (initial 0), []. repeat split.
  - set (l := f :: rest) in *.
    assert (T : total (results (files_loop refuses handler service cfg 1
                                  (List.length l) l (initial (List.length l))))
                = List.length l) by (now rewrite files_loop_total).
    eexists. exists l. split; [reflexivity|]. split; [reflexivity|].
    split; [exact T|]. intros Hd.
    destruct (@files_loop_accounted l 1 (List.length l) (initial (List.length l)) Hd)
      as [A _].
    rewrite T. unfold accounted in A.
    cbn [initial results processed failed skipped total] in A. lia.
Qed.
End Counters.

(** C8, as the claim states it, fails when the pause between two files
    is negative: each of two files that go through is counted as
    processed, and the first as failed too, because the sleep that
    follows it raises. *)
Lemma counters_exceed_total :
  let cfg := {| prompt := lit "P"; delay := (-1); rate_limit_delay := 30;
                max_retries := 3 |} in
  let entries := [ {| entry_name := lit "a.txt"; read_text := Some (lit "first") |};
                   {| entry_name := lit "b.txt"; read_text := Some (lit "second") |} ] in
  let client := fun (_ : nat) (_ : str) => Gemini.Response (Some (lit "done")) in
  exists st,
    Gemini.process_all_files refuses_long client cfg (Some entries)
    = Some st /\
    results st = {| processed := 2; failed := 1; skipped := 0; total := 2 |} /\
    processed (results st) + failed (results st) + skipped (results st)
    <> total (results st).
Proof.
  eexists. split; [vm_compute; reflexivity|]. split; [reflexivity|]. discriminate.
Qed.

(** C8, as amended: a run of either script over an existing folder
    returns, and its total is the number of text files found; when the
    pause between two files is a duration that [time.sleep] takes, the
    counters returned are such that processed + failed + skipped =
    total, and each iteration of the loop over the files adds one to
    exactly one of the three counters. *)
Theorem counters_add_up_to_total (refuses : nat -> Z -> bool) (cfg : Config)
    (entries : list DirEntry) :
  (forall client, exists st txt_files,
     Claude.process_all_files refuses client cfg (Some entries) = Some st /\
     get_txt_files (Some entries) = Some txt_files /\
     total (results st) = List.length txt_files /\
     ((1 < List.length txt_files -> accepted refuses (delay cfg)) ->
      processed (results st) + failed (results st) + skipped (results st)
      = total (results st))) /\
  (forall client, exists st txt_files,
     Gemini.process_all_files refuses client cfg (Some entries) = Some st /\
     get_txt_files (Some entries) = Some txt_files /\
     total (results st) = List.length txt_files /\
     ((1 < List.length txt_files -> accepted refuses (delay cfg)) ->
      processed (results st) + failed (results st) + skipped (results st)
      = total (results st))) /\
  (forall client i n txt_file st,
     (i < n -> accepted refuses (delay cfg)) ->
     let st' := process_file refuses Claude.handler
                  (Claude.process_file_with_claude client) cfg i n txt_file st in
     counters_step 1 0 0 st st' \/ counters_step 0 1 0 st st'
     \/ counters_step 0 0 1 st st') /\
  (forall client i n txt_file st,
     (i < n -> accepted refuses (delay cfg)) ->
     let st' := process_file refuses Gemini.handler
                  (Gemini.process_file_with_gemini client) cfg i n txt_file st in
     counters_step 1 0 0 st st' \/ counters_step 0 1 0 st st'
     \/ counters_step 0 0 1 st st').
Proof.
  repeat split.
  - intros client. apply process_all_files_accounted.
  - intros client. apply process_all_files_accounted.
  - intros client i n txt_file st Hd. now apply process_file_counts.
  - intros client i n txt_file st Hd. now apply process_file_counts.
Qed.

(** A run of the Gemini script over a blank file, a file that is
    rate limited at each attempt, and a file that goes through. *)
Lemma counters_add_up_to_total_witness :
  let cfg := {| prompt := lit "P"; delay := 1; rate_limit_delay := 30;
                max_retries := 3 |} in
  let entries := [ {| entry_name := lit "c.txt"; read_text := Some (lit "third") |};
                   {| entry_name := lit "a.txt"; read_text := Some (lit "  ") |};
                   {| entry_name := lit "readme.md"; read_text := Some (lit "x") |};
                   {| entry_name := lit "b.txt"; read_text := Some (lit "second") |} ] in
  let client := fun (n : nat) (_ : str) =>
    if n <? 3 then Gemini.ApiError (lit "quota exceeded")
    else Gemini.Response (Some (lit "done")) in
  exists st,
    Gemini.process_all_files refuses_long client cfg (Some entries)
    = Some st /\
    processed (results st) + failed (results st) + skipped (results st) = 3.
Proof.
  intros cfg entries client.
  assert (Hd : accepted refuses_long (delay cfg)).
  { split; [discriminate | intros; reflexivity]. }
  destruct (@counters_add_up_to_total refuses_long cfg entries)
    as (_ & G & _).
  destruct (G client) as (st & txt_files & E & F & T & S).
  exists st. split; [exact E|]. rewrite (S (fun _ => Hd)), T.
  injection F as <-. reflexivity.
Defined.

(** A run of the Claude script over one file: a connection error, then
    an overload, then a message with two text blocks around a block
    of another type. *)
Example claude_run_sample :
  let cfg := {| prompt := lit "P"; delay := 2; rate_limit_delay := 60;
                max_retries := 5 |} in
  let entries := [ {| entry_name := lit "a.b.txt"; read_text := Some (lit "x") |} ] in
  let client := fun (n : nat) (_ : str) =>
    match n with
    | 0 => Claude.ApiError Claude.APIConnectionError
    | 1 => Claude.ApiError (Claude.APIStatusError 529)
    | _ => Claude.Message
             [ {| Claude.block_type := lit "text"; Claude.block_text := lit "A" |};
               {| Claude.block_type := lit "tool_use"; Claude.block_text := lit "?" |};
               {| Claude.block_type := lit "text"; Claude.block_text := lit "B" |} ]
    end in
  option_map (fun st => (results st, log st))
    (Claude.process_all_files refuses_long client cfg (Some entries))
  = Some ({| processed := 1; failed := 0; skipped := 0; total := 1 |},
          [Call (lit "P\n\n---\n\nx"); Sleep 10;
           Call (lit "P\n\n---\n\nx"); Sleep 120;
           Call (lit "P\n\n---\n\nx"); Write (lit "a.b.md") (lit "AB")]).
Proof. vm_compute. reflexivity. Qed.

Example gemini_run_sample :
  let cfg := {| prompt := lit "P"; delay := 1; rate_limit_delay := 30;
                max_retries := 3 |} in
  let entries := [ {| entry_name := lit "c.txt"; read_text := Some (lit "third") |};
                   {| entry_name := lit "a.txt"; read_text := Some (lit "  ") |};
                   {| entry_name := lit "readme.md"; read_text := Some (lit "x") |};
                   {| entry_name := lit "b.txt"; read_text := Some (lit "second") |} ] in
  let client := fun (n : nat) (_ : str) =>
    if n <? 3 then Gemini.ApiError (lit "quota exceeded")
    else Gemini.Response (Some (lit "done")) in
  option_map (fun st => (results st, sleeps (log st), writes (log st)))
    (Gemini.process_all_files refuses_long client cfg (Some entries))
  = Some ({| processed := 1; failed := 1; skipped := 1; total := 3 |},
          [30; 60]%Z, [(lit "c.md", lit "done")]).
Proof. vm_compute. reflexivity. Qed.

(** ** A folder without text files *)

Lemma get_txt_files_none entries :
  (forall f, In f entries -> endswith (lit ".txt") (entry_name f) = false) ->
  get_txt_files (Some entries) = Some [].
Proof.
  intros H. unfold get_txt_files.
  replace (filter (fun f => endswith (lit ".txt") (entry_name f)) entries)
    with (@nil DirEntry); [reflexivity|].
  induction entries as [|f rest IH]; [reflexivity|].
  cbn [filter]. rewrite (H f (or_introl eq_refl)).
  apply IH. intros g Hg. apply H. now right.
Qed.

(** C9: when the input folder exists and holds no file whose name ends
    in [.txt], [process_all_files] of either script returns the
    counters 0, 0, 0, 0 without calling the service or writing a file,
    and [main], given a key and a prompt that is not blank, ends with
    exit status 0. *)
Theorem no_txt_files_exit_zero (refuses : nat -> Z -> bool)
    (entries : list DirEntry) :
  (forall f, In f entries -> endswith (lit ".txt") (entry_name f) = false) ->
  (forall client cfg,
     Claude.process_all_files refuses client cfg (Some entries)
     = Some {| results := {| processed := 0; failed := 0; skipped := 0; total := 0 |};
               calls := 0; log := [] |}) /\
  (forall client cfg,
     Gemini.process_all_files refuses client cfg (Some entries)
     = Some {| results := {| processed := 0; failed := 0; skipped := 0; total := 0 |};
               calls := 0; log := [] |}) /\
  (forall client env prompt_text,
     Claude.API_KEY env <> [] ->
     str_eqb (Claude.API_KEY env) (lit "your-anthropic-api-key-here") = false ->
     Claude.PROMPT_FILE env = Some prompt_text ->
     strip prompt_text <> [] ->
     Claude.INPUT_FOLDER env = Some entries ->
     Claude.main refuses client env = 0) /\
  (forall client env prompt_text,
     Gemini.API_KEY env <> [] ->
     Gemini.PROMPT_FILE env = Some prompt_text ->
     strip prompt_text <> [] ->
     Gemini.INPUT_FOLDER env = Some entries ->
     Gemini.main refuses client env = 0).
Proof.
  intros H. pose proof (get_txt_files_none entries H) as G.
  assert (P : forall Exc handler (service : nat -> str -> Reply Exc) cfg,
            Runner.process_all_files refuses handler service cfg (Some entries)
            = Some (initial 0)).
  { intros. unfold Runner.process_all_files. now rewrite G. }
  split; [intros; apply P|]. split; [intros; apply P|].
  split.
  - intros client env prompt_text K1 K2 F1 F2 D. unfold Claude.main.
    rewrite K2. destruct (Claude.API_KEY env) as [|c key] eqn:K; [congruence|].
    cbn [negb andb truthy]. unfold load_prompt_file. rewrite F1.
    destruct (strip prompt_text) as [|a r]; [congruence|]. cbn [truthy].
    unfold run_and_exit. rewrite D, P. reflexivity.
  - intros client env prompt_text K1 F1 F2 D. unfold Gemini.main.
    destruct (Gemini.API_KEY env) as [|c key] eqn:K; [congruence|].
    cbn [negb truthy]. unfold load_prompt_file. rewrite F1.
    destruct (strip prompt_text) as [|a r]; [congruence|]. cbn [truthy].
    unfold run_and_exit. rewrite D, P. reflexivity.
Qed.

Lemma no_txt_files_exit_zero_witness :
  let entries := [ {| entry_name := lit "readme.md"; read_text := Some (lit "x") |};
                   {| entry_name := lit "txt"; read_text := None |} ] in
  let client := fun (_ : nat) (_ : str) => Gemini.Response (Some (lit "unused")) in
  Gemini.main refuses_long client
    {| Gemini.API_KEY := lit "key"; Gemini.GEMINI_API_KEY := None;
       Gemini.PROMPT_FILE := Some (lit "Summarise the text.\n");
       Gemini.INPUT_FOLDER := Some entries;
       Gemini.DELAY_BETWEEN_CALLS := 1; Gemini.RATE_LIMIT_RETRY_DELAY := 30;
       Gemini.MAX_RETRIES := 3 |} = 0.
Proof.
  intros entries client.
  assert (H : forall f, In f entries -> endswith (lit ".txt") (entry_name f) = false).
  { intros f [<-|[<-|[]]]; reflexivity. }
  destruct (@no_txt_files_exit_zero refuses_long entries H)
    as (_ & _ & _ & G).
  apply (G client _ (lit "Summarise the text.\n")).
  - discriminate.
  - reflexivity.
  - vm_compute. discriminate.
  - reflexivity.
Defined.

(* ================================================================== *)
(** * Further properties *)
(* ================================================================== *)

Import Folder MoreNotions.

Unset Implicit Arguments.

(** ** The matcher *)

Lemma rep_match_inv (P : ascii -> Prop) (p : ascii -> bool) :
  (forall c, p c = true -> P c) ->
  forall (R : Type) (s : str) (k : str -> option R) (x : R),
  rep_match p s k = Some x ->
  exists pre rest, s = pre ++ rest /\ Forall P pre /\ k rest = Some x.
Proof.
  intros HP R s. induction s as [|c s IH]; intros k x H; cbn [rep_match] in H.
  - exists [], []. repeat split; [constructor | exact H].
  - destruct (p c) eqn:Ec.
    + destruct (rep_match p s k) as [y|] eqn:E.
      * injection H as <-. destruct (IH k y E) as (pre & rest & -> & F & K).
        exists (c :: pre), rest. repeat split; [|exact K].
        constructor; [now apply HP | exact F].
      * exists [], (c :: s). repeat split; [constructor | exact H].
    + exists [], (c :: s). repeat split; [constructor | exact H].
Qed.

(** A match takes a piece at the head of the text: its characters are
    accepted by the classes of the pattern, and there are at least
    [min_len] of them. *)
Lemma re_match_inv (P : ascii -> Prop) (r : regex) :
  classes_in P r ->
  forall (R : Type) (s : str) (g : list str)
         (k : str -> list str -> option R) (x : R),
  re_match r s g k = Some x ->
  exists pre rest g',
    s = pre ++ rest /\ Forall P pre /\ min_len r <= List.length pre /\
    k rest g' = Some x.
Proof.
  induction r as [p | r1 IH1 r2 IH2 | p | r1 IH1]; intros HP R s g k x H;
    cbn [re_match classes_in min_len] in *.
  - destruct s as [|c s]; [discriminate|].
    destruct (p c) eqn:Ec; [|discriminate].
    exists [c], s, g. repeat split; [|cbn; lia | exact H].
    constructor; [now apply HP | constructor].
  - destruct HP as [HP1 HP2].
    apply (IH1 HP1) in H. destruct H as (pre1 & rest1 & g1 & -> & F1 & L1 & K1).
    apply (IH2 HP2) in K1. destruct K1 as (pre2 & rest2 & g2 & -> & F2 & L2 & K2).
    exists (pre1 ++ pre2), rest2, g2. rewrite app_assoc.
    repeat split; [now apply Forall_app | rewrite length_app; lia | exact K2].
  - apply (rep_match_inv P p HP) in H. destruct H as (pre & rest & -> & F & K).
    exists pre, rest, g. repeat split; [exact F | lia | exact K].
  - apply (IH1 HP) in H. destruct H as (pre & rest & g1 & -> & F & L & K).
    exists pre, rest. eexists. repeat split; [exact F | exact L | exact K].
Qed.

Lemma match_at_inv (P : ascii -> Prop) (r : regex) s g rest :
  classes_in P r ->
  match_at r s = Some (g, rest) ->
  exists pre, s = pre ++ rest /\ Forall P pre /\ min_len r <= List.length pre.
Proof.
  intros HP H. unfold match_at in H.
  apply (re_match_inv P r HP) in H. destruct H as (pre & rest' & g' & -> & F & L & K).
  injection K as <- <-. now exists pre.
Qed.

Lemma classes_in_True r : classes_in (fun _ => True) r.
Proof. induction r; cbn; auto. Qed.

(** The two equations of the scan, for a pattern that takes at least
    one character. *)
Lemma sub_hit r repl s g rest :
  1 <= min_len r ->
  match_at r s = Some (g, rest) ->
  sub r repl s = repl g ++ sub r repl rest /\ List.length rest < List.length s.
Proof.
  intros Hm H.
  destruct (match_at_inv _ r s g rest (classes_in_True r) H) as (pre & -> & _ & L).
  destruct pre as [|c pre]; [cbn in L; lia|].
  split; [|rewrite length_app; cbn; lia].
  unfold sub. cbn [app sub_scan]. cbn [app] in H. rewrite H.
  rewrite sub_scan_skip. do 2 f_equal.
  rewrite length_app.
  replace (List.length pre + List.length rest - List.length rest)
    with (List.length pre) by lia.
  rewrite skipn_app, skipn_all, Nat.sub_diag. reflexivity.
Qed.

Lemma sub_miss r repl c s :
  match_at r (c :: s) = None -> sub r repl (c :: s) = c :: sub r repl s.
Proof. intros H. unfold sub. cbn [sub_scan]. now rewrite H. Qed.

(** ** The shape of a cleaned text *)

Lemma is_nl_space c : is_nl c = true -> is_space c = true.
Proof. intros H. apply is_nl_true in H. now subst. Qed.

Lemma is_word_not_nl c : is_word c = true -> is_nl c = false.
Proof.
  intros H. destruct (is_nl c) eqn:E; [|reflexivity].
  apply is_nl_true in E. subst. discriminate.
Qed.

Lemma firstn_one (c : ascii) (s : str) :
  firstn (List.length (c :: s) - List.length s) (c :: s) = [c].
Proof.
  cbn [List.length]. replace (S (List.length s) - List.length s) with 1 by lia.
  reflexivity.
Qed.

(** A match of [(\w)-\n(\w)]: four characters, of which the groups
    hold the first and the last. *)
Lemma match_hyphen_inv s g rest :
  match_at re_hyphen s = Some (g, rest) ->
  exists a b,
    s = a :: "-"%char :: nl :: b :: rest /\
    is_word a = true /\ is_word b = true /\ g = [[a]; [b]].
Proof.
  unfold match_at, re_hyphen. cbn [re_match].
  destruct s as [|a s]; [discriminate|].
  destruct (is_word a) eqn:Ea; [|discriminate].
  destruct s as [|h s]; [discriminate|].
  destruct (is_char "-" h) eqn:Eh; [|discriminate].
  destruct s as [|n s]; [discriminate|].
  destruct (is_nl n) eqn:En; [|discriminate].
  destruct s as [|b s]; [discriminate|].
  destruct (is_word b) eqn:Eb; [|discriminate].
  rewrite !firstn_one. intros [= <- <-].
  apply is_nl_true in En. apply Ascii.eqb_eq in Eh. subst.
  exists a, b. repeat split; assumption.
Qed.

(** A match of [\n\d+\s*\n] starts with a newline and stops before a
    character that is not a newline. *)
Lemma rep_space_nl_rest (R : Type) (x y : R) s rest :
  rep_match is_space s
    (fun s1 => match s1 with
               | c :: s' => if is_nl c then Some (x, s') else None
               | [] => None
               end) = Some (y, rest) ->
  lead rest = 0.
Proof.
  induction s as [|c s IH]; cbn [rep_match]; [discriminate|].
  destruct (is_space c) eqn:Ec.
  - destruct (rep_match is_space s _) as [z|] eqn:E.
    + intros [= ->]. now apply IH.
    + destruct (is_nl c); [|discriminate]. intros [= _ <-].
      destruct s as [|d s]; [reflexivity|]. cbn [lead].
      destruct (is_nl d) eqn:Ed; [|reflexivity]. exfalso.
      cbn [rep_match] in E. rewrite (is_nl_space d Ed), Ed in E.
      destruct (rep_match is_space s _); discriminate.
  - destruct (is_nl c) eqn:En; [|discriminate].
    now rewrite (is_nl_space c En) in Ec.
Qed.

Lemma match_page_inv s g rest :
  match_at re_page_number s = Some (g, rest) ->
  1 <= lead s /\ lead rest = 0.
Proof.
  unfold match_at, re_page_number. cbn [re_match].
  destruct s as [|c s]; [discriminate|].
  destruct (is_nl c) eqn:Ec; [|discriminate].
  destruct s as [|d s]; [discriminate|].
  destruct (is_digit d); [|discriminate].
  intros H. split; [cbn [lead]; rewrite Ec; lia|].
  apply (rep_match_inv (fun _ => True) is_digit (fun _ _ => I)) in H.
  destruct H as (pre & rest' & _ & _ & H).
  now apply rep_space_nl_rest in H.
Qed.

Lemma calm_skip pre s : calm (pre ++ s) -> calm s.
Proof.
  induction pre as [|c pre IH]; [auto|]. intros H. apply IH.
  now apply calm_tail in H.
Qed.

(** The second and the third substitution bring no three newlines
    together. *)
Lemma sub_page_calm_aux n : forall s,
  List.length s <= n -> calm s ->
  calm (sub re_page_number (fun _ => [nl]) s) /\
  lead (sub re_page_number (fun _ => [nl]) s) <= lead s.
Proof.
  induction n as [|n IH]; intros s Hn Hc.
  - destruct s; [cbn; auto | cbn [List.length] in Hn; lia].
  - destruct s as [|c s]; [cbn; auto|].
    destruct (match_at re_page_number (c :: s)) as [[g rest]|] eqn:E.
    + destruct (sub_hit re_page_number (fun _ => [nl]) _ g rest ltac:(cbn; lia) E)
        as [-> Hl].
      destruct (match_page_inv _ _ _ E) as [L1 L0].
      destruct (match_at_inv _ _ _ _ _ (classes_in_True _) E) as (pre & Es & _).
      destruct (IH rest) as [C L].
      { cbn [List.length] in *. lia. }
      { rewrite Es in Hc. now apply calm_skip in Hc. }
      set (x := sub _ _ rest) in *. set (m := lead (c :: s)) in *.
      cbn [app calm lead]. change (is_nl nl) with true. cbv iota.
      repeat split; try lia. exact C.
    + rewrite (sub_miss _ _ _ _ E).
      destruct (IH s) as [C L];
        [cbn [List.length] in Hn; lia | now apply calm_tail in Hc |].
      destruct Hc as [H1 H2]. set (x := sub _ _ s) in *.
      cbn [calm lead] in *. destruct (is_nl c); repeat split; try lia; exact C.
Qed.

Lemma sub_hyphen_calm_aux n : forall s,
  List.length s <= n -> calm s ->
  calm (sub re_hyphen (fun g => group 1 g ++ group 2 g) s) /\
  lead (sub re_hyphen (fun g => group 1 g ++ group 2 g) s) <= lead s.
Proof.
  induction n as [|n IH]; intros s Hn Hc.
  - destruct s; [cbn; auto | cbn [List.length] in Hn; lia].
  - destruct s as [|c s]; [cbn; auto|].
    destruct (match_at re_hyphen (c :: s)) as [[g rest]|] eqn:E.
    + destruct (sub_hit re_hyphen (fun g => group 1 g ++ group 2 g) _ g rest
                  ltac:(cbn; lia) E) as [-> Hl].
      destruct (match_hyphen_inv _ _ _ E) as (a & b & Es & Wa & Wb & ->).
      destruct (IH rest) as [C L].
      { cbn [List.length] in *. lia. }
      { rewrite Es in Hc. now apply (calm_skip [a; "-"%char; nl; b]) in Hc. }
      set (x := sub _ _ rest) in *. set (m := lead (c :: s)) in *.
      cbn [group Nat.sub nth app calm lead].
      rewrite (is_word_not_nl a Wa), (is_word_not_nl b Wb).
      repeat split; try lia. exact C.
    + rewrite (sub_miss _ _ _ _ E).
      destruct (IH s) as [C L];
        [cbn [List.length] in Hn; lia | now apply calm_tail in Hc |].
      destruct Hc as [H1 H2]. set (x := sub _ _ s) in *.
      cbn [calm lead] in *. destruct (is_nl c); repeat split; try lia; exact C.
Qed.

(** A cleaned text has no white space at either end and never three
    newline characters in a row, whatever the text was. *)
Theorem clean_text_shape (t : str) :
  strip (clean_text t) = clean_text t /\
  calm (clean_text t) /\
  (forall c r, clean_text t = c :: r -> is_space c = false) /\
  (forall r c, clean_text t = r ++ [c] -> is_space c = false).
Proof.
  assert (C : calm (clean_text t)).
  { unfold clean_text. apply strip_calm.
    apply (sub_hyphen_calm_aux (List.length (sub re_page_number (fun _ => [nl])
             (sub re_blank_lines (fun _ => [nl; nl]) t)))); [lia|].
    apply (sub_page_calm_aux (List.length (sub re_blank_lines (fun _ => [nl; nl]) t)));
      [lia|].
    apply sub_blank_calm. }
  assert (S : strip (clean_text t) = clean_text t)
    by (unfold clean_text; apply strip_strip).
  split; [exact S|]. split; [exact C|]. split.
  - intros c r E. rewrite E in S. unfold strip in S. cbn [lstrip] in S.
    destruct (is_space c) eqn:Ec; [|reflexivity]. exfalso.
    assert (Len : List.length (rstrip (lstrip r)) <= List.length r).
    { clear. transitivity (List.length (lstrip r)).
      - generalize (lstrip r). intros l. induction l as [|a l IH]; cbn [rstrip]; [lia|].
        destruct (rstrip l); [destruct (is_space a)|]; cbn [List.length] in *; lia.
      - induction r as [|a r IH]; cbn [lstrip]; [lia|].
        destruct (is_space a); cbn [List.length]; lia. }
    rewrite S in Len. cbn [List.length] in Len. lia.
  - intros r c E. rewrite E in S. unfold strip in S.
    destruct (is_space c) eqn:Ec; [|reflexivity]. exfalso.
    assert (Hr : forall l, rstrip (l ++ [c]) = rstrip l).
    { intros l. induction l as [|a l IH]; cbn [app rstrip]; [now rewrite Ec|].
      now rewrite IH. }
    assert (Len : forall l, List.length (rstrip l) <= List.length l).
    { intros l. induction l as [|a l IH]; cbn [rstrip]; [lia|].
      destruct (rstrip l); [destruct (is_space a)|]; cbn [List.length] in *; lia. }
    assert (Ll : forall l, List.length (lstrip l) <= List.length l).
    { intros l. induction l as [|a l IH]; cbn [lstrip]; [lia|].
      destruct (is_space a); cbn [List.length]; lia. }
    destruct (lstrip (r ++ [c])) as [|a l] eqn:El.
    + cbn in S. destruct r; discriminate.
    + assert (exists l', a :: l = l' ++ [c]) as [l' El'].
      { clear - El. revert a l El. induction r as [|b r IH]; intros a l El.
        - cbn [app lstrip] in El. destruct (is_space c); [discriminate|].
          injection El as <- <-. now exists [].
        - cbn [app lstrip] in El. destruct (is_space b).
          + now apply IH.
          + injection El as <- <-. now exists (b :: r). }
      rewrite El', Hr in S.
      pose proof (Len l') as B. rewrite S in B.
      assert (List.length l' <= List.length r).
      { pose proof (Ll (r ++ [c])) as B2. rewrite El, El' in B2.
        rewrite !length_app in B2. cbn in B2. lia. }
      rewrite length_app in B. cbn in B. lia.
Qed.

Lemma clean_text_shape_witness :
  let t := lit " \n\n\n\nre-\nsult\n12 \nend \n" in
  clean_text t = lit "result\nend" /\
  strip (clean_text t) = clean_text t /\
  is_space "r" = false /\ is_space "d" = false.
Proof.
  intros t.
  destruct (clean_text_shape t) as (S & _ & Hd & Tl).
  split; [vm_compute; reflexivity|]. split; [exact S|]. split.
  - apply (Hd "r"%char (lit "esult\nend")). vm_compute. reflexivity.
  - apply (Tl (lit "result\nen") "d"%char). vm_compute. reflexivity.
Defined.

Lemma sub_length_le r repl :
  1 <= min_len r ->
  (forall s g rest, match_at r s = Some (g, rest) ->
     List.length (repl g) + List.length rest <= List.length s) ->
  forall n s, List.length s <= n -> List.length (sub r repl s) <= List.length s.
Proof.
  intros Hm Hr. induction n as [|n IH]; intros s Hn.
  - destruct s; [cbn; lia | cbn [List.length] in Hn; lia].
  - destruct s as [|c s]; [cbn; lia|].
    destruct (match_at r (c :: s)) as [[g rest]|] eqn:E.
    + destruct (sub_hit r repl _ g rest Hm E) as [-> Hl].
      rewrite length_app. pose proof (Hr _ _ _ E) as B.
      assert (List.length (sub r repl rest) <= List.length rest)
        by (apply IH; cbn [List.length] in *; lia).
      lia.
    + rewrite (sub_miss _ _ _ _ E). cbn [List.length].
      assert (List.length (sub r repl s) <= List.length s)
        by (apply IH; cbn [List.length] in Hn; lia).
      lia.
Qed.

Lemma lstrip_length s : List.length (lstrip s) <= List.length s.
Proof.
  induction s as [|a s IH]; cbn [lstrip]; [lia|].
  destruct (is_space a); cbn [List.length]; lia.
Qed.

Lemma rstrip_length s : List.length (rstrip s) <= List.length s.
Proof.
  induction s as [|a s IH]; cbn [rstrip]; [lia|].
  destruct (rstrip s); [destruct (is_space a)|]; cbn [List.length] in *; lia.
Qed.

(** The cleanup only removes characters: a cleaned text is never
    longer than the text it comes from. *)
Theorem clean_text_not_longer (t : str) :
  List.length (clean_text t) <= List.length t.
Proof.
  unfold clean_text, strip.
  set (t1 := sub re_blank_lines (fun _ => [nl; nl]) t).
  set (t2 := sub re_page_number (fun _ => [nl]) t1).
  set (t3 := sub re_hyphen (fun g => group 1 g ++ group 2 g) t2).
  assert (L1 : List.length t1 <= List.length t).
  { apply (sub_length_le re_blank_lines (fun _ => [nl; nl]) ltac:(cbn; lia))
      with (n := List.length t); [|lia].
    intros s g rest E.
    destruct (match_at_inv _ _ _ _ _ (classes_in_True _) E) as (pre & -> & _ & L).
    rewrite length_app. cbn in *. lia. }
  assert (L2 : List.length t2 <= List.length t1).
  { apply (sub_length_le re_page_number (fun _ => [nl]) ltac:(cbn; lia))
      with (n := List.length t1); [|lia].
    intros s g rest E.
    destruct (match_at_inv _ _ _ _ _ (classes_in_True _) E) as (pre & -> & _ & L).
    rewrite length_app. cbn in *. lia. }
  assert (L3 : List.length t3 <= List.length t2).
  { apply (sub_length_le re_hyphen (fun g => group 1 g ++ group 2 g) ltac:(cbn; lia))
      with (n := List.length t2); [|lia].
    intros s g rest E.
    destruct (match_hyphen_inv _ _ _ E) as (a & b & -> & _ & _ & ->).
    cbn. lia. }
  pose proof (rstrip_length (lstrip t3)). pose proof (lstrip_length t3). lia.
Qed.

(** ** Extraction *)

Lemma text_parts_blank n pages :
  Forall (fun page_text => strip page_text = []) pages <->
  text_parts n pages = [].
Proof.
  revert n. induction pages as [|pg pages IH]; intros n; cbn [text_parts].
  - split; [reflexivity | constructor].
  - destruct (strip pg) as [|c r] eqn:E; cbn [truthy].
    + rewrite <- IH. split; [now inversion 1 | now constructor].
    + split; [|discriminate]. inversion 1. congruence.
Qed.

(** A PDF is given the status [error], and is left out of the list
    that is batched, exactly when its extraction raised an exception;
    the text of a PDF whose extraction went through is empty or starts
    with the bracket of a page mark. *)
Theorem error_status_iff_raised (i : nat) (pdf_path pdf_name : str) (doc : fitz_doc) :
  (status (fst (process_pdf i pdf_name (extract_pdf_text pdf_path doc))) = error
   <-> exists e, doc = Throws e) /\
  (snd (process_pdf i pdf_name (extract_pdf_text pdf_path doc)) = None
   <-> exists e, doc = Throws e) /\
  (forall pages, doc = Pages pages ->
     extract_pdf_text pdf_path doc = [] \/
     exists r, extract_pdf_text pdf_path doc = "["%char :: r).
Proof.
  destruct (process_pdf_status i pdf_name (extract_pdf_text pdf_path doc))
    as (A & B & _).
  assert (E : is_error_text (extract_pdf_text pdf_path doc) = true
              <-> exists e, doc = Throws e).
  { destruct doc as [pages | e].
    - rewrite extract_pages_not_error. split; [discriminate | intros [e H]; discriminate].
    - split; [intros _; now exists e | reflexivity]. }
  split; [now rewrite A|]. split; [now rewrite B|].
  intros pages ->. cbn [extract_pdf_text].
  destruct (text_parts_head 1 pages) as [T | (s & rest & T)]; rewrite T.
  - now left.
  - right.
    assert (J : exists u, join (lit "\n\n") (("["%char :: s) :: rest) = "["%char :: u).
    { cbn [join]. destruct rest; eexists; reflexivity. }
    destruct J as [u ->]. apply clean_text_bracket.
Qed.

(** A PDF none of whose pages holds text (or that has no page) yields
    the empty text, and only such a PDF does when no exception is
    raised; it is recorded with the status [success] and with zero
    characters, and it is kept in the list that is batched. *)
Theorem blank_pdf_is_empty_success (i : nat) (pdf_path pdf_name : str)
    (pages : list str) :
  (extract_pdf_text pdf_path (Pages pages) = []
   <-> Forall (fun page_text => strip page_text = []) pages) /\
  (Forall (fun page_text => strip page_text = []) pages ->
   let outcome := process_pdf i pdf_name (extract_pdf_text pdf_path (Pages pages)) in
   status (fst outcome) = success /\ chars (fst outcome) = 0 /\
   exists paper, snd outcome = Some paper /\ idx paper = i /\ paper_text paper = []).
Proof.
  assert (E : extract_pdf_text pdf_path (Pages pages) = []
              <-> Forall (fun page_text => strip page_text = []) pages).
  { rewrite (text_parts_blank 1 pages). cbn [extract_pdf_text]. split.
    - intros H. destruct (text_parts_head 1 pages) as [T | (s & rest & T)]; [exact T|].
      exfalso. rewrite T in H.
      assert (J : exists u, join (lit "\n\n") (("["%char :: s) :: rest) = "["%char :: u).
      { cbn [join]. destruct rest; eexists; reflexivity. }
      destruct J as [u J]. rewrite J in H.
      destruct (clean_text_bracket u) as [r R]. congruence.
    - intros ->. reflexivity. }
  split; [exact E|]. intros H. apply E in H. rewrite H. cbn.
  repeat split. eexists. repeat split.
Qed.

Lemma blank_pdf_is_empty_success_witness :
  status (fst (process_pdf 4 (lit "scan.pdf")
                 (extract_pdf_text (lit "in/scan.pdf") (Pages [lit " \n"; lit ""]))))
  = success.
Proof.
  destruct (blank_pdf_is_empty_success 4 (lit "in/scan.pdf") (lit "scan.pdf")
              [lit " \n"; lit ""]) as [_ H].
  apply H. repeat constructor.
Defined.

Lemma error_status_iff_raised_witness :
  exists r, extract_pdf_text (lit "in/a.pdf") (Pages [lit "ERROR in the title"])
            = "["%char :: r.
Proof.
  destruct (error_status_iff_raised 1 (lit "in/a.pdf") (lit "a.pdf")
              (Pages [lit "ERROR in the title"])) as (_ & _ & H).
  destruct (H _ eq_refl) as [E | E]; [discriminate E | exact E].
Defined.

(** ** The loop over the PDF files *)

Lemma process_pdfs_new pdfs : forall i results all_texts,
  process_pdfs i pdfs results all_texts
  = (results ++ new_results i pdfs, all_texts ++ new_papers i pdfs).
Proof.
  induction pdfs as [|pdf pdfs IH]; intros i results all_texts.
  - cbn. now rewrite !app_nil_r.
  - cbn [process_pdfs new_results new_papers].
    destruct (process_pdf i (path_name pdf)
                (extract_pdf_text (path_str pdf) (fitz_open pdf)))
      as [metadata [paper|]]; cbn [fst snd]; rewrite IH, <- !app_assoc; reflexivity.
Qed.

Lemma new_results_fields i pdfs :
  map filename (new_results i pdfs) = map path_name pdfs /\
  map chars (new_results i pdfs) = map (@List.length ascii) (extracted pdfs) /\
  map status (new_results i pdfs)
  = map (fun pdf => if raised pdf then error else success) pdfs.
Proof.
  revert i. induction pdfs as [|[pdf_path pdf_name doc] pdfs IH]; intros i;
    [repeat split|].
  destruct (IH (S i)) as (A & B & C).
  cbn [new_results map extracted path_str path_name fitz_open].
  fold (extracted pdfs).
  rewrite A, B, C. repeat split.
  - unfold process_pdf. now destruct (startswith _ _).
  - unfold process_pdf. now destruct (startswith _ _).
  - f_equal. unfold raised. cbn [fitz_open].
    destruct doc as [pages | e].
    + unfold process_pdf. fold (is_error_text (extract_pdf_text pdf_path (Pages pages))).
      now rewrite extract_pages_not_error.
    + reflexivity.
Qed.

Lemma new_papers_cons_ok i pdf_path pdf_name pages rest :
  new_papers i ({| path_str := pdf_path; path_name := pdf_name;
                   fitz_open := Pages pages |} :: rest)
  = {| idx := i; paper_filename := pdf_name;
       meta := {| filename := pdf_name;
                  chars := List.length (extract_pdf_text pdf_path (Pages pages));
                  status := success |};
       paper_text := extract_pdf_text pdf_path (Pages pages) |}
    :: new_papers (S i) rest.
Proof.
  cbn [new_papers path_str path_name fitz_open]. unfold process_pdf.
  fold (is_error_text (extract_pdf_text pdf_path (Pages pages))).
  now rewrite extract_pages_not_error.
Qed.

Lemma new_papers_cons_err i pdf_path pdf_name e rest :
  new_papers i ({| path_str := pdf_path; path_name := pdf_name;
                   fitz_open := Throws e |} :: rest)
  = new_papers (S i) rest.
Proof. reflexivity. Qed.

Lemma new_papers_spec pdfs : forall i,
  (forall k paper, nth_error (new_papers i pdfs) k = Some paper ->
     i + k <= idx paper < i + List.length pdfs /\
     status (meta paper) = success /\
     exists pdf pages,
       nth_error pdfs (idx paper - i) = Some pdf /\
       path_name pdf = paper_filename paper /\
       fitz_open pdf = Pages pages /\
       paper_text paper = extract_pdf_text (path_str pdf) (Pages pages)) /\
  Sorted lt (map idx (new_papers i pdfs)) /\
  List.length (new_papers i pdfs)
  = List.length (filter (fun pdf => negb (raised pdf)) pdfs).
Proof.
  induction pdfs as [|[pdf_path pdf_name doc] pdfs IH]; intros i.
  - cbn. repeat split; try constructor; destruct k; discriminate.
  - destruct (IH (S i)) as (A & B & C).
    destruct doc as [pages | e].
    + rewrite new_papers_cons_ok.
      cbn [filter raised fitz_open negb List.length map idx].
      repeat split.
      * destruct k as [|k]; cbn [nth_error] in H.
        -- injection H as <-. cbn. lia.
        -- destruct (A k paper H) as ((L1 & L2) & _). lia.
      * destruct k as [|k]; cbn [nth_error] in H.
        -- injection H as <-. cbn. lia.
        -- destruct (A k paper H) as ((L1 & L2) & _). lia.
      * destruct k as [|k]; cbn [nth_error] in H.
        -- injection H as <-. reflexivity.
        -- now destruct (A k paper H) as (_ & St & _).
      * destruct k as [|k]; cbn [nth_error] in H.
        -- injection H as <-. eexists. exists pages.
           cbn [idx paper_filename paper_text].
           rewrite Nat.sub_diag. cbn [nth_error]. repeat split.
        -- destruct (A k paper H) as ((L1 & L2) & _ & pdf & pages' & N & T).
           exists pdf, pages'. split; [|exact T].
           replace (idx paper - i) with (S (idx paper - S i)) by lia. exact N.
      * constructor; [exact B|].
        destruct (new_papers (S i) pdfs) as [|q l] eqn:E; [constructor|].
        constructor. destruct (A 0 q eq_refl) as ((L1 & _) & _). cbn. lia.
      * now rewrite C.
    + rewrite new_papers_cons_err. cbn [filter raised fitz_open negb List.length].
      repeat split; try assumption.
      all: destruct (A k paper H) as ((L1 & L2) & St & pdf & pages' & N & T).
      * lia.
      * lia.
      * exact St.
      * exists pdf, pages'. split; [|exact T].
        replace (idx paper - i) with (S (idx paper - S i)) by lia. exact N.
Qed.

Lemma new_papers_no_error pdfs : forall i,
  forallb (fun pdf => negb (raised pdf)) pdfs = true ->
  map idx (new_papers i pdfs) = seq i (List.length pdfs).
Proof.
  induction pdfs as [|[pdf_path pdf_name doc] pdfs IH]; intros i H; [reflexivity|].
  cbn [forallb] in H. apply andb_true_iff in H. destruct H as [H1 H2].
  destruct doc as [pages | e]; [|discriminate].
  rewrite new_papers_cons_ok. cbn [map idx List.length seq]. now rewrite IH.
Qed.

Lemma count_by_status (p : Status -> bool) pdfs : forall i,
  List.length (filter (fun r => p (status r)) (new_results i pdfs))
  = List.length (filter (fun pdf => p (if raised pdf then error else success)) pdfs).
Proof.
  induction pdfs as [|pdf pdfs IH]; intros i; [reflexivity|].
  destruct (new_results_fields i (pdf :: pdfs)) as (_ & _ & S).
  cbn [new_results map] in S. injection S as S _.
  cbn [new_results filter]. rewrite S.
  destruct (p _); cbn [List.length]; now rewrite IH.
Qed.

(** The list that [process_folder] returns, and that the manifest
    prints, has one entry for each PDF file, in the order of the sorted
    list: the entry carries the name of the file, the number of
    characters of the text that the extractor returned for its path,
    and the status, which is [error] for the files whose extraction
    raised; the text of such a file carries the whole path and the
    message of the exception. *)
Theorem results_follow_pdfs (pdfs : list PdfFile) :
  let results := fst (process_pdfs 1 pdfs [] []) in
  map filename results = map path_name pdfs /\
  map chars results
  = map (fun pdf => List.length (extract_pdf_text (path_str pdf) (fitz_open pdf)))
      pdfs /\
  map status results = map (fun pdf => if raised pdf then error else success) pdfs /\
  (forall k pdf e,
     nth_error pdfs k = Some pdf -> fitz_open pdf = Throws e ->
     nth_error (map chars results) k
     = Some (List.length (lit "ERROR extracting " ++ path_str pdf ++ lit ": " ++ e))).
Proof.
  cbn zeta. rewrite process_pdfs_new. cbn [fst app].
  destruct (new_results_fields 1 pdfs) as (A & B & C).
  assert (B' : map chars (new_results 1 pdfs)
               = map (fun pdf => List.length
                                   (extract_pdf_text (path_str pdf) (fitz_open pdf)))
                   pdfs).
  { rewrite B. unfold extracted. now rewrite map_map. }
  split; [exact A|]. split; [exact B'|]. split; [exact C|].
  intros k pdf e Hk He. rewrite B', nth_error_map, Hk. cbn [option_map].
  now rewrite He.
Qed.

Lemma results_follow_pdfs_witness :
  let pdfs := [ {| path_str := lit "in/sub/b.pdf"; path_name := lit "b.pdf";
                   fitz_open := Throws (lit "broken") |} ] in
  map chars (fst (process_pdfs 1 pdfs [] [])) = [37] /\
  map filename (fst (process_pdfs 1 pdfs [] [])) = [lit "b.pdf"].
Proof.
  intros pdfs.
  destruct (results_follow_pdfs pdfs) as (A & _ & _ & D).
  split; [|exact A].
  specialize (D 0 _ (lit "broken") eq_refl eq_refl).
  cbn zeta in D.
  destruct (map chars (fst (process_pdfs 1 pdfs [] []))) as [|c [|c' l]] eqn:E;
    try (vm_compute in E; discriminate E).
  cbn [nth_error] in D. injection D as ->. reflexivity.
Defined.

(** The number of a paper is the position, counted from 1, of its PDF
    in the sorted list: the numbers of the papers that are batched
    increase strictly, paper k of the list (from 0) has a number of at
    least k + 1, and its text is the text extracted from the PDF that
    has this number.  When no extraction raised the numbers are
    1, 2, ..., n. *)
Theorem paper_numbers_are_pdf_positions (pdfs : list PdfFile) :
  let all_texts := snd (process_pdfs 1 pdfs [] []) in
  (forall k paper, nth_error all_texts k = Some paper ->
     k + 1 <= idx paper <= List.length pdfs /\
     exists pdf pages,
       nth_error pdfs (idx paper - 1) = Some pdf /\
       path_name pdf = paper_filename paper /\
       fitz_open pdf = Pages pages /\
       paper_text paper = extract_pdf_text (path_str pdf) (Pages pages)) /\
  Sorted lt (map idx all_texts) /\
  (forallb (fun pdf => negb (raised pdf)) pdfs = true ->
   map idx all_texts = seq 1 (List.length pdfs)).
Proof.
  cbn zeta. rewrite process_pdfs_new. cbn [snd app].
  destruct (new_papers_spec pdfs 1) as (A & B & _).
  split; [|split; [exact B | apply new_papers_no_error]].
  intros k paper H. destruct (A k paper H) as (L & _ & E).
  split; [lia | exact E].
Qed.

(** With an extraction that raised, the numbers of the papers in a
    batch and the range that the batch announces differ: the batch
    that announces the papers 1 to 2 holds the papers 1 and 3. *)
Example paper_numbers_skip_errors :
  let pdfs := [ {| path_str := lit "in/a.pdf"; path_name := lit "a.pdf";
                   fitz_open := Pages [lit "A"] |};
                {| path_str := lit "in/b.pdf"; path_name := lit "b.pdf";
                   fitz_open := Throws (lit "broken") |};
                {| path_str := lit "in/c.pdf"; path_name := lit "c.pdf";
                   fitz_open := Pages [lit "C"] |} ] in
  option_map (map (fun b => (first_paper b, last_paper b, map idx (papers b))))
    (create_batches (snd (process_pdfs 1 pdfs [] [])) 5)
  = Some [(1, 2, [1; 3])].
Proof. vm_compute. reflexivity. Qed.

Lemma paper_numbers_are_pdf_positions_witness :
  let pdfs := [ {| path_str := lit "in/a.pdf"; path_name := lit "a.pdf";
                   fitz_open := Pages [lit "A"] |};
                {| path_str := lit "in/b.pdf"; path_name := lit "b.pdf";
                   fitz_open := Pages [] |} ] in
  map idx (snd (process_pdfs 1 pdfs [] [])) = [1; 2].
Proof.
  intros pdfs.
  destruct (paper_numbers_are_pdf_positions pdfs) as (_ & _ & H).
  apply H. reflexivity.
Defined.

(** The totals of the manifest: the PDF files extracted and the errors
    add up to the number of PDF files; the errors are the extractions
    that raised; the files extracted are the papers that are batched;
    and for a batch size of at least 1 the number of batches created is
    the ceiling of the papers batched over the batch size (none when
    every extraction raised). *)
Theorem manifest_totals_add_up (pdfs : list PdfFile) (batch_size : nat) :
  1 <= batch_size ->
  let results := fst (process_pdfs 1 pdfs [] []) in
  let all_texts := snd (process_pdfs 1 pdfs [] []) in
  exists batches,
    create_batches all_texts batch_size = Some batches /\
    let totals := manifest_totals (List.length pdfs) results batches in
    extracted_ok totals + errors totals = total_papers totals /\
    errors totals = List.length (filter raised pdfs) /\
    extracted_ok totals = List.length all_texts /\
    batches_created totals = ceil_div (extracted_ok totals) batch_size /\
    (extracted_ok totals = 0 -> batches_created totals = 0).
Proof.
  intros HB. cbn zeta. rewrite process_pdfs_new. cbn [fst snd app].
  unfold create_batches, range_step.
  destruct (Nat.eqb_spec batch_size 0) as [E|_]; [lia|].
  eexists. split; [reflexivity|].
  destruct (@batch_loop_from (new_papers 1 pdfs) batch_size HB
              (List.length (new_papers 1 pdfs)) 0 1) as (L & _); [lia|].
  rewrite Nat.sub_0_r in L.
  destruct (new_papers_spec pdfs 1) as (_ & _ & C).
  unfold manifest_totals.
  cbn [total_papers extracted_ok errors batches_created].
  rewrite (count_by_status (fun st => status_eqb st success) pdfs 1).
  rewrite (count_by_status (fun st => status_eqb st error) pdfs 1).
  assert (E1 : forall l : list PdfFile,
            List.length
              (filter (fun pdf => status_eqb (if raised pdf then error else success)
                                    success) l)
            = List.length (filter (fun pdf => negb (raised pdf)) l)).
  { induction l as [|x l IH]; [reflexivity|]. cbn [filter].
    destruct (raised x); cbn [status_eqb negb List.length]; now rewrite IH. }
  assert (E2 : forall l : list PdfFile,
            List.length
              (filter (fun pdf => status_eqb (if raised pdf then error else success)
                                    error) l)
            = List.length (filter raised l)).
  { induction l as [|x l IH]; [reflexivity|]. cbn [filter].
    destruct (raised x); cbn [status_eqb List.length]; now rewrite IH. }
  assert (E3 : forall l : list PdfFile,
            List.length (filter (fun pdf => negb (raised pdf)) l)
            + List.length (filter raised l) = List.length l).
  { induction l as [|x l IH]; [reflexivity|]. cbn [filter].
    destruct (raised x); cbn [negb List.length]; lia. }
  rewrite E1, E2, L, <- C. repeat split.
  - rewrite C. apply E3.
  - intros Z. rewrite Z. apply ceil_div_0. lia.
Qed.

Lemma manifest_totals_add_up_witness :
  let pdfs := [ {| path_str := lit "in/a.pdf"; path_name := lit "a.pdf";
                   fitz_open := Pages [lit "A"] |};
                {| path_str := lit "in/b.pdf"; path_name := lit "b.pdf";
                   fitz_open := Throws (lit "broken") |};
                {| path_str := lit "in/c.pdf"; path_name := lit "c.pdf";
                   fitz_open := Pages [lit "C"] |} ] in
  exists batches,
    create_batches (snd (process_pdfs 1 pdfs [] [])) 5 = Some batches /\
    batches_created
      (manifest_totals 3 (fst (process_pdfs 1 pdfs [] [])) batches) = 1.
Proof.
  intros pdfs.
  destruct (manifest_totals_add_up pdfs 5 ltac:(repeat constructor))
    as (batches & E & _ & _ & E3 & E4 & _).
  exists batches. split; [exact E|].
  transitivity (ceil_div (List.length (snd (process_pdfs 1 pdfs [] []))) 5);
    [rewrite <- E3; exact E4 | reflexivity].
Defined.

(** ** The guesses of title and DOI *)

Lemma is_sep_not_space c : is_sep c = true -> is_space c = false.
Proof.
  unfold is_sep, is_char. intros H. apply orb_true_iff in H.
  destruct H as [H|H]; apply Ascii.eqb_eq in H; subst; reflexivity.
Qed.

Lemma is_digit_not_space c : is_digit c = true -> is_space c = false.
Proof.
  destruct c as [[] [] [] [] [] [] [] []]; vm_compute; intros H;
    first [reflexivity | discriminate H].
Qed.

Lemma is_digit_not_mark c : is_digit c = true -> is_trailing_mark c = false.
Proof.
  destruct c as [[] [] [] [] [] [] [] []]; vm_compute; intros H;
    first [reflexivity | discriminate H].
Qed.

(** Replacing each character of a class by one character is a [map]. *)
Lemma sub_cls_map p x s :
  sub (Cls p) (fun _ => [x]) s = map (fun c => if p c then x else c) s.
Proof.
  unfold sub. induction s as [|c s IH]; [reflexivity|].
  cbn [sub_scan map]. unfold match_at. cbn [re_match].
  destruct (p c).
  - rewrite Nat.sub_diag, IH. reflexivity.
  - now rewrite IH.
Qed.

(** A greedy run stops at the first character outside the class when
    the rest of the pattern matches there. *)
Lemma rep_match_run (R : Type) p run rest (k : str -> option R) x :
  Forall (fun c => p c = true) run ->
  (forall c r, rest = c :: r -> p c = false) ->
  k rest = Some x ->
  rep_match p (run ++ rest) k = Some x.
Proof.
  intros Hrun Hrest Hk. induction Hrun as [|c run Hc _ IH]; cbn [app rep_match].
  - destruct rest as [|c r]; [exact Hk|]. cbn [rep_match].
    now rewrite (Hrest c r eq_refl).
  - now rewrite Hc, IH.
Qed.

Lemma rep_match_space_all (g : list str) s :
  rep_match is_space s (fun s1 => Some (g, s1)) = Some (g, lstrip s).
Proof.
  induction s as [|c s IH]; cbn [rep_match lstrip]; [reflexivity|].
  destruct (is_space c); [now rewrite IH | reflexivity].
Qed.

Lemma match_year_prefix d1 d2 d3 d4 sp c tail :
  is_digit d1 = true -> is_digit d2 = true ->
  is_digit d3 = true -> is_digit d4 = true ->
  Forall (fun a => is_space a = true) sp ->
  is_sep c = true ->
  match_at re_year_prefix (d1 :: d2 :: d3 :: d4 :: sp ++ c :: tail)
  = Some ([], lstrip tail).
Proof.
  intros H1 H2 H3 H4 Hsp Hc. unfold match_at, re_year_prefix. cbn [re_match].
  rewrite H1, H2, H3, H4.
  apply rep_match_run; [exact Hsp | |].
  - intros a r [= <- _]. now apply is_sep_not_space.
  - rewrite Hc. apply rep_match_space_all.
Qed.

(** The title guess has at most 100 characters and holds neither
    hyphen nor underscore; when the name without its suffix starts
    with four digits, white space, and a hyphen or an underscore, the
    guess is what follows, without the white space at its head, with
    each hyphen and underscore turned into a space. *)
Theorem title_guess_shape (file_name text : str) :
  let title := title_guess (get_paper_metadata file_name text) in
  List.length title <= 100 /\
  Forall (fun c => is_sep c = false) title /\
  (forall d1 d2 d3 d4 sp c tail,
     stem file_name = d1 :: d2 :: d3 :: d4 :: sp ++ c :: tail ->
     is_digit d1 = true -> is_digit d2 = true ->
     is_digit d3 = true -> is_digit d4 = true ->
     Forall (fun a => is_space a = true) sp ->
     is_sep c = true ->
     title = firstn 100 (map (fun a => if is_sep a then " "%char else a)
                           (lstrip tail))).
Proof.
  cbn zeta. cbn [get_paper_metadata title_guess]. rewrite sub_cls_map.
  split; [rewrite length_firstn; lia|]. split.
  - apply Forall_forall. intros c Hc.
    apply (In_nth _ _ " "%char) in Hc. destruct Hc as (n & _ & <-).
    set (l := map _ _). clear.
    assert (F : Forall (fun c => is_sep c = false) l).
    { unfold l. apply Forall_forall. intros c Hc. apply in_map_iff in Hc.
      destruct Hc as (a & <- & _). destruct (is_sep a) eqn:E; [reflexivity | exact E]. }
    assert (F' : Forall (fun c => is_sep c = false) (firstn 100 l)).
    { apply Forall_forall. intros c Hc. rewrite Forall_forall in F.
      apply F. revert Hc. generalize 100. clear.
      induction l as [|a l IH]; intros [|n] H; cbn [firstn] in H; try contradiction.
      destruct H as [<-|H]; [now left | right; now apply (IH n)]. }
    destruct (Nat.lt_ge_cases n (List.length (firstn 100 l))) as [L|L].
    + rewrite Forall_forall in F'. apply F'. now apply nth_In.
    + now rewrite nth_overflow.
  - intros d1 d2 d3 d4 sp c tail E H1 H2 H3 H4 Hsp Hc.
    rewrite E. unfold sub_at_start.
    now rewrite (match_year_prefix d1 d2 d3 d4 sp c tail H1 H2 H3 H4 Hsp Hc).
Qed.

Lemma title_guess_shape_witness :
  title_guess (get_paper_metadata (lit "2019 - Cost_overruns-v2.pdf") [])
  = lit "Cost overruns v2".
Proof.
  destruct (title_guess_shape (lit "2019 - Cost_overruns-v2.pdf") []) as (_ & _ & H).
  apply (H "2"%char "0"%char "1"%char "9"%char [" "%char] "-"%char
           (lit " Cost_overruns-v2"));
    try reflexivity.
  repeat constructor.
Defined.

Lemma match_at_taken r t g rest :
  match_at r t = Some (g, rest) ->
  t = firstn (List.length t - List.length rest) t ++ rest.
Proof.
  intros E.
  destruct (match_at_inv _ _ _ _ _ (classes_in_True r) E) as (pre & -> & _).
  rewrite length_app.
  replace (List.length pre + List.length rest - List.length rest)
    with (List.length pre) by lia.
  rewrite firstn_app, firstn_all, Nat.sub_diag. cbn [firstn].
  now rewrite app_nil_r.
Qed.

Lemma search_eq r s :
  search r s =
  match match_at r s with
  | Some (_, rest) => Some (firstn (List.length s - List.length rest) s)
  | None => match s with [] => None | _ :: s' => search r s' end
  end.
Proof. destruct s; reflexivity. Qed.

Lemma search_inv r s m :
  search r s = Some m ->
  exists pre rest g, s = pre ++ m ++ rest /\ match_at r (m ++ rest) = Some (g, rest).
Proof.
  induction s as [|c s IH]; rewrite search_eq.
  - destruct (match_at r []) as [[g rest]|] eqn:E; [|discriminate].
    intros H. pose proof (match_at_taken _ _ _ _ E) as T.
    set (m' := firstn (List.length (@nil ascii) - List.length rest) []) in *.
    assert (m = m') by congruence. subst m.
    exists [], rest, g. split; [exact T|]. now rewrite <- T.
  - destruct (match_at r (c :: s)) as [[g rest]|] eqn:E.
    + intros H. pose proof (match_at_taken _ _ _ _ E) as T.
      set (m' := firstn (List.length (c :: s) - List.length rest) (c :: s)) in *.
      assert (m = m') by congruence. subst m.
      exists [], rest, g. split; [exact T|]. now rewrite <- T.
    + intros H. destruct (IH H) as (pre & rest & g & -> & M).
      exists (c :: pre), rest, g. now split.
Qed.

Lemma rstrip_chars_prefix chars s :
  exists tail, s = rstrip_chars chars s ++ tail.
Proof.
  induction s as [|c s [tail IH]]; [now exists []|].
  cbn [rstrip_chars]. destruct (rstrip_chars chars s) as [|a r] eqn:E.
  - destruct (chars c); [now exists (c :: s) | exists s; reflexivity].
  - exists tail. rewrite IH at 1. reflexivity.
Qed.

Lemma rstrip_chars_last chars s r c :
  rstrip_chars chars s = r ++ [c] -> chars c = false.
Proof.
  revert r. induction s as [|a s IH]; intros r H; cbn [rstrip_chars] in H.
  - destruct r; discriminate.
  - destruct (rstrip_chars chars s) as [|b v] eqn:E.
    + destruct (chars a) eqn:Ea; [destruct r; discriminate|].
      destruct r as [|x r]; [now injection H as <- | ].
      injection H as _ H. destruct r; discriminate.
    + destruct r as [|x r]; [discriminate|]. injection H as _ H.
      now apply (IH r).
Qed.

Lemma rstrip_chars_keep chars a c b :
  chars c = false ->
  rstrip_chars chars (a ++ c :: b) = a ++ c :: rstrip_chars chars b.
Proof.
  intros Hc. induction a as [|x a IH]; cbn [app rstrip_chars].
  - destruct (rstrip_chars chars b); [now rewrite Hc | reflexivity].
  - rewrite IH. destruct a; reflexivity.
Qed.

Lemma match_doi_head s g rest :
  match_at re_doi s = Some (g, rest) ->
  exists d v, s = "1"%char :: "0"%char :: "."%char :: d :: v /\ is_digit d = true.
Proof.
  unfold match_at, re_doi. cbn [re_match].
  destruct s as [|c1 s]; [discriminate|].
  destruct (is_char "1" c1) eqn:E1; [|discriminate].
  destruct s as [|c2 s]; [discriminate|].
  destruct (is_char "0" c2) eqn:E2; [|discriminate].
  destruct s as [|c3 s]; [discriminate|].
  destruct (is_char "." c3) eqn:E3; [|discriminate].
  destruct s as [|d s]; [discriminate|].
  destruct (is_digit d) eqn:E4; [|discriminate].
  intros _. apply Ascii.eqb_eq in E1, E2, E3. subst. now exists d, s.
Qed.

Lemma re_doi_no_space : classes_in (fun c => is_space c = false) re_doi.
Proof.
  assert (C : forall x, is_space x = false ->
                        forall c, is_char x c = true -> is_space c = false).
  { intros x Hx c H. apply Ascii.eqb_eq in H. now subst. }
  assert (N : forall c, not_space c = true -> is_space c = false).
  { intros c H. unfold not_space in H. now destruct (is_space c). }
  cbn [classes_in re_doi].
  repeat split; try (apply C; reflexivity); try exact is_digit_not_space; exact N.
Qed.

(** The DOI guess is [Not found] when the pattern has no match in the
    first 5000 characters of the text; otherwise it is a piece of these
    characters that starts with [10.] and a digit, holds no white
    space, and does not end with a full stop, a comma or a semicolon. *)
Theorem doi_guess_shape (file_name text : str) :
  let guess := doi (get_paper_metadata file_name text) in
  (search re_doi (firstn 5000 text) = None /\ guess = lit "Not found") \/
  (startswith (lit "10.") guess = true /\
   4 <= List.length guess /\
   Forall (fun c => is_space c = false) guess /\
   (forall r c, guess = r ++ [c] -> is_trailing_mark c = false) /\
   exists pre post, firstn 5000 text = pre ++ guess ++ post).
Proof.
  cbn zeta. cbn [get_paper_metadata doi].
  destruct (search re_doi (firstn 5000 text)) as [m|] eqn:S; [right | now left].
  destruct (search_inv _ _ _ S) as (pre & rest & g & Es & M).
  destruct (match_at_inv _ _ _ _ _ re_doi_no_space M) as (pre' & Ep & F & _).
  apply app_inv_tail in Ep. subst pre'.
  destruct (match_doi_head _ _ _ M) as (d & v & Eh & Hd).
  destruct (match_at_inv _ _ _ _ _ (classes_in_True re_doi) M) as (pre' & Ep & _ & L).
  apply app_inv_tail in Ep. subst pre'. cbn [min_len re_doi] in L.
  destruct m as [|c1 [|c2 [|c3 [|c4 m]]]]; cbn [List.length] in L; try lia.
  cbn [app] in Eh. injection Eh as -> -> -> -> _.
  change ("1"%char :: "0"%char :: "."%char :: d :: m)
    with (lit "10." ++ d :: m).
  rewrite (rstrip_chars_keep _ _ _ _ (is_digit_not_mark d Hd)).
  set (guess := lit "10." ++ d :: rstrip_chars is_trailing_mark m).
  destruct (rstrip_chars_prefix is_trailing_mark m) as [tail Et].
  split; [reflexivity|]. split; [cbn; lia|].
  assert (Eg : lit "10." ++ d :: m = guess ++ tail).
  { unfold guess. rewrite <- app_assoc. cbn [app]. now rewrite <- Et. }
  split; [|split].
  - change ("1"%char :: "0"%char :: "."%char :: d :: m)
      with (lit "10." ++ d :: m) in F.
    rewrite Eg in F. now apply Forall_app in F.
  - intros r c E.
    apply (rstrip_chars_last is_trailing_mark (lit "10." ++ d :: m) r c).
    rewrite (rstrip_chars_keep _ _ _ _ (is_digit_not_mark d Hd)). exact E.
  - exists pre, (tail ++ rest). rewrite Es.
    change ("1"%char :: "0"%char :: "."%char :: d :: m)
      with (lit "10." ++ d :: m).
    rewrite Eg, <- !app_assoc. reflexivity.
Qed.

Example doi_guess_sample :
  doi (get_paper_metadata (lit "a.pdf") (lit "see https://doi.org/10.1061/(ASCE)CO.1943-7862.0001.; and"))
  = lit "10.1061/(ASCE)CO.1943-7862.0001".
Proof. vm_compute. reflexivity. Qed.

Lemma doi_guess_shape_witness :
  startswith (lit "10.")
    (doi (get_paper_metadata (lit "a.pdf") (lit "doi: 10.1234/abc.5. Next")))
  = true.
Proof.
  destruct (doi_guess_shape (lit "a.pdf") (lit "doi: 10.1234/abc.5. Next"))
    as [[S _] | (H & _)]; [vm_compute in S; discriminate S | exact H].
Defined.

(** ** The names of the files written *)

Lemma Forall_firstn_keep (A : Type) (P : A -> Prop) n (l : list A) :
  Forall P l -> Forall P (firstn n l).
Proof.
  intros H. revert n. induction H as [|a l Ha _ IH]; intros [|n]; cbn [firstn];
    constructor; auto.
Qed.

Lemma startswith_app p s : startswith p (p ++ s) = true.
Proof.
  induction p as [|a p IH]; [reflexivity|]. cbn [app startswith].
  now rewrite Ascii.eqb_refl, IH.
Qed.

Lemma endswith_app p s : endswith p (s ++ p) = true.
Proof. unfold endswith. rewrite rev_app_distr. apply startswith_app. Qed.

(** Reading back a number written with leading zeros. *)
Lemma read_number_zeros k s :
  read_number (repeat "0"%char k ++ s) = read_number s.
Proof.
  unfold read_number. induction k as [|k IH]; [reflexivity|].
  cbn [repeat app string_of_list_ascii NilEmpty.uint_of_string].
  destruct (NilEmpty.uint_of_string (string_of_list_ascii (repeat "0"%char k ++ s)))
    as [d|] eqn:E; cbn [option_map DecimalString.uint_of_char] in *;
    rewrite <- IH; reflexivity.
Qed.

Lemma read_number_str_of_nat n : read_number (str_of_nat n) = Some n.
Proof.
  unfold read_number, str_of_nat.
  rewrite string_of_list_ascii_of_string, NilEmpty.usu. cbn [option_map].
  now rewrite DecimalNat.Unsigned.of_to.
Qed.

Lemma read_number_zero_padded w n : read_number (zero_padded w n) = Some n.
Proof. unfold zero_padded. now rewrite read_number_zeros, read_number_str_of_nat. Qed.

Lemma string_of_uint_digits d :
  Forall (fun c => is_digit c = true)
    (list_ascii_of_string (NilEmpty.string_of_uint d)).
Proof. induction d; cbn; constructor; auto. Qed.

Lemma zero_padded_digits w n : Forall (fun c => is_digit c = true) (zero_padded w n).
Proof.
  unfold zero_padded. apply Forall_app. split.
  - induction (w - List.length (str_of_nat n)); cbn; constructor; auto.
  - apply string_of_uint_digits.
Qed.

Lemma before_underscore_app a b :
  Forall (fun c => is_digit c = true) a ->
  before_underscore (a ++ "_"%char :: b) = a.
Proof.
  induction 1 as [|c a Hc _ IH]; [reflexivity|].
  cbn [app before_underscore].
  assert (E : is_char "_" c = false).
  { destruct (is_char "_" c) eqn:E; [|reflexivity].
    apply Ascii.eqb_eq in E. subst. discriminate. }
  now rewrite E, IH.
Qed.

Lemma safe_name_chars pdf_name :
  List.length (safe_name pdf_name) <= 50 /\
  Forall (fun c => is_word c = true \/ is_char "-" c = true) (safe_name pdf_name).
Proof.
  unfold safe_name. split; [rewrite length_firstn; lia|].
  apply Forall_firstn_keep. rewrite sub_cls_map.
  apply Forall_forall. intros c Hc. apply in_map_iff in Hc.
  destruct Hc as (a & <- & _). unfold not_word_or_hyphen.
  destruct (is_word a) eqn:Ew; cbn [orb negb]; [now left|].
  destruct (is_char "-" a) eqn:Eh; cbn [negb]; [now right | now left].
Qed.

Lemma txt_name_suffix (i : nat) (pdf_name : str) :
  endswith (lit ".txt") (txt_name i pdf_name) = true /\
  stem (txt_name i pdf_name) = zero_padded 3 i ++ lit "_" ++ safe_name pdf_name.
Proof.
  unfold txt_name.
  split; [rewrite !app_assoc; apply endswith_app|].
  rewrite !app_assoc. apply stem_txt.
  destruct (zero_padded 3 i); discriminate.
Qed.

Lemma txt_name_number (i : nat) (pdf_name : str) :
  read_number (before_underscore (txt_name i pdf_name)) = Some i.
Proof.
  unfold txt_name.
  change (lit "_" ++ safe_name pdf_name ++ lit ".txt")
    with ("_"%char :: safe_name pdf_name ++ lit ".txt").
  rewrite before_underscore_app by apply zero_padded_digits.
  apply read_number_zero_padded.
Qed.

(** The name of the text file of paper [i] ends in [.txt]; without
    this suffix it is the number of the paper on at least three digits,
    an underscore, and at most 50 characters that are word characters
    or hyphens; the number of the paper can be read back from it. *)
Theorem txt_name_shape (i : nat) (pdf_name : str) :
  endswith (lit ".txt") (txt_name i pdf_name) = true /\
  stem (txt_name i pdf_name) = zero_padded 3 i ++ lit "_" ++ safe_name pdf_name /\
  3 <= List.length (zero_padded 3 i) /\
  Forall (fun c => is_digit c = true) (zero_padded 3 i) /\
  List.length (safe_name pdf_name) <= 50 /\
  Forall (fun c => is_word c = true \/ is_char "-" c = true) (safe_name pdf_name) /\
  read_number (before_underscore (txt_name i pdf_name)) = Some i.
Proof.
  destruct (safe_name_chars pdf_name) as [L F].
  destruct (txt_name_suffix i pdf_name) as [E1 E2].
  split; [exact E1|]. split; [exact E2|].
  split.
  { unfold zero_padded. rewrite length_app, repeat_length. lia. }
  split; [apply zero_padded_digits|]. split; [exact L|]. split; [exact F|].
  apply txt_name_number.
Qed.

(** In a run no text file of a paper overwrites another: the names of
    the files written for the papers that are batched differ two by
    two. *)
Theorem individual_files_distinct (pdfs : list PdfFile) :
  NoDup (map (fun paper => fst (individual_file paper))
           (snd (process_pdfs 1 pdfs [] []))).
Proof.
  rewrite process_pdfs_new. cbn [snd app].
  destruct (new_papers_spec pdfs 1) as (_ & S & _).
  assert (N : NoDup (map idx (new_papers 1 pdfs))).
  { apply Sorted_StronglySorted in S; [|intros a b c; apply Nat.lt_trans].
    induction S as [|a l _ IH F]; constructor; [|exact IH].
    intros H. rewrite Forall_forall in F. apply F in H. lia. }
  revert N. generalize (new_papers 1 pdfs). intros l.
  induction l as [|p l IH]; intros N; cbn [map]; [constructor|].
  inversion N as [|a l' Hn Hl]; subst. constructor; [|now apply IH].
  intros H. apply Hn. apply in_map_iff in H. destruct H as (q & E & Hq).
  apply in_map_iff. exists q. split; [|exact Hq].
  cbn [individual_file fst] in E.
  apply (f_equal (fun nm => read_number (before_underscore nm))) in E.
  rewrite !txt_name_number in E. now injection E.
Qed.

(** Two PDF files whose names give the same safe name: the number of
    the paper keeps the two text files apart. *)
Example individual_file_names_sample :
  map (fun paper => fst (individual_file paper))
    (snd (process_pdfs 1
            [ {| path_str := lit "in/a b.pdf"; path_name := lit "a b.pdf";
                 fitz_open := Pages [lit "A"] |};
              {| path_str := lit "in/a_b.pdf"; path_name := lit "a_b.pdf";
                 fitz_open := Pages [lit "B"] |} ] [] []))
  = [lit "001_a_b.txt"; lit "002_a_b.txt"].
Proof. vm_compute. reflexivity. Qed.

(** The name of a batch file ends in [.txt] and starts with [batch_]
    and the number of the batch on at least two digits, which can be
    read back from it; the batch files of a run have names that differ
    two by two. *)
Theorem batch_files_distinct (all_texts : list Paper) (batch_size : nat) :
  1 <= batch_size ->
  (forall b,
     endswith (lit ".txt") (batch_name b) = true /\
     startswith (lit "batch_") (batch_name b) = true /\
     read_number (before_underscore (skipn 6 (batch_name b))) = Some (batch_num b)) /\
  exists batches,
    create_batches all_texts batch_size = Some batches /\
    map batch_num batches = seq 1 (List.length batches) /\
    NoDup (map batch_name batches).
Proof.
  intros HB.
  assert (Shape : forall b,
            endswith (lit ".txt") (batch_name b) = true /\
            startswith (lit "batch_") (batch_name b) = true /\
            read_number (before_underscore (skipn 6 (batch_name b)))
            = Some (batch_num b)).
  { intros b. unfold batch_name. split; [rewrite !app_assoc; apply endswith_app|].
    split; [apply startswith_app|].
    match goal with
    | |- read_number (before_underscore (skipn 6 (lit "batch_" ++ ?z ++ lit "_papers_" ++ ?y))) = _ =>
        change (skipn 6 (lit "batch_" ++ z ++ lit "_papers_" ++ y))
          with (z ++ "_"%char :: lit "papers_" ++ y)
    end.
    rewrite before_underscore_app by apply zero_padded_digits.
    apply read_number_zero_padded. }
  split; [exact Shape|].
  unfold create_batches, range_step.
  destruct (Nat.eqb_spec batch_size 0) as [E|_]; [lia|].
  eexists. split; [reflexivity|].
  destruct (@batch_loop_from all_texts batch_size HB (List.length all_texts) 0 1)
    as (_ & _ & _ & P); [lia|].
  set (batches := batch_loop all_texts batch_size _ 1) in *.
  assert (Nums : map batch_num batches = seq 1 (List.length batches)).
  { apply nth_error_ext. intros k. rewrite nth_error_map, nth_error_seq.
    destruct (nth_error batches k) as [b|] eqn:Ek; cbn [option_map].
    - assert (k < List.length batches) by (apply nth_error_Some; congruence).
      destruct (Nat.ltb_spec k (List.length batches)); [|lia].
      destruct (P k b Ek) as (-> & _). reflexivity.
    - apply nth_error_None in Ek.
      destruct (Nat.ltb_spec k (List.length batches)); [lia | reflexivity]. }
  split; [exact Nums|].
  assert (N : NoDup (map batch_num batches)) by (rewrite Nums; apply seq_NoDup).
  revert N. generalize batches. intros l.
  induction l as [|b l IH]; intros N; cbn [map]; [constructor|].
  inversion N as [|a l' Hn Hl]; subst. constructor; [|now apply IH].
  intros H. apply Hn. apply in_map_iff in H. destruct H as (q & E & Hq).
  apply in_map_iff. exists q. split; [|exact Hq].
  apply (f_equal (fun nm => read_number (before_underscore (skipn 6 nm)))) in E.
  destruct (Shape q) as (_ & _ & Rq). destruct (Shape b) as (_ & _ & Rb).
  rewrite Rq, Rb in E. now injection E.
Qed.

Lemma batch_files_distinct_witness :
  exists batches,
    create_batches (map sample_paper [1; 2; 3]) 2 = Some batches /\
    map batch_num batches = seq 1 (List.length batches).
Proof.
  destruct (batch_files_distinct (map sample_paper [1; 2; 3]) 2
              ltac:(repeat constructor)) as (_ & batches & E & N & _).
  exists batches. split; [exact E | exact N].
Defined.

(** ** From the extractor to the transformation loop *)

Lemma strip_cons_not_space c s : is_space c = false -> strip (c :: s) <> [].
Proof.
  intros H. unfold strip. cbn [lstrip]. rewrite H. cbn [rstrip].
  destruct (rstrip s); [rewrite H|]; discriminate.
Qed.

Lemma fold_left_app_entries (A : Type) (f : A -> str) l : forall init,
  fold_left (fun content x => content ++ f x) l init
  = init ++ List.concat (map f l).
Proof.
  induction l as [|x l IH]; intros init; cbn [fold_left map List.concat].
  - now rewrite app_nil_r.
  - now rewrite IH, <- app_assoc.
Qed.

(** A file with some text is never counted as skipped. *)
Lemma process_file_not_skipped (Exc : Type)
    (refuses : nat -> Z -> bool) handler
    (service : nat -> str -> Reply Exc) cfg i n txt_file st file_content :
  read_text txt_file = Some file_content ->
  strip file_content <> [] ->
  skipped (results (process_file refuses handler service cfg i n txt_file st))
  = skipped (results st).
Proof.
  intros Hr Hs. unfold process_file. rewrite Hr.
  destruct (strip file_content) as [|c r] eqn:E; [congruence|]. cbn [truthy negb].
  pose proof (@retry_loop_results Exc refuses handler service cfg file_content
                (Z.to_nat (max_retries cfg)) 0%Z None st) as R.
  destruct (retry_loop refuses handler service cfg file_content
              (Z.to_nat (max_retries cfg)) 0%Z None st) as [[[resp|] le|e] st1];
    cbn [snd] in R.
  - destruct (i <? n); [|cbn; now rewrite R].
    match goal with |- context [sleep refuses ?w ?x] =>
      destruct (sleep refuses w x) as [err|st2] eqn:S end.
    + cbn. now rewrite R.
    + apply (sleep_returns refuses) in S. destruct S as (_ & _ & ->).
      cbn. now rewrite R.
  - cbn. now rewrite R.
  - cbn. now rewrite R.
Qed.

(** The files that the extractor writes are input for the
    transformation loop: the text file of a paper and the file of a
    batch have a name that [get_txt_files] keeps, and a content that is
    not blank, so that the loop of either script never counts them as
    skipped; for the text file of a paper the output file is named by
    the number of the paper and its safe name, followed by [.md]. *)
Theorem extractor_files_are_runner_input
    (paper : Paper) (now : str) (n_texts : nat) (b : Batch) :
  let produced := [individual_file paper; batch_file now n_texts b] in
  (forall file, In file produced ->
     endswith (lit ".txt") (fst file) = true /\
     strip (snd file) <> [] /\
     forall (Exc : Type) refuses handler (service : nat -> str -> Reply Exc)
            cfg i n st,
       skipped (results (process_file refuses handler service cfg i n
                           {| entry_name := fst file; read_text := Some (snd file) |}
                           st))
       = skipped (results st)) /\
  stem (fst (individual_file paper)) ++ lit ".md"
  = zero_padded 3 (idx paper) ++ lit "_" ++ safe_name (paper_filename paper)
    ++ lit ".md".
Proof.
  cbn zeta.
  assert (Hi : strip (snd (individual_file paper)) <> []).
  { cbn [individual_file snd]. unfold header.
    change (rule "=") with ("="%char :: repeat "="%char 59) at 1.
    rewrite <- !app_assoc. cbn [app]. now apply strip_cons_not_space. }
  assert (Hb : strip (snd (batch_file now n_texts b)) <> []).
  { cbn [batch_file snd]. unfold batch_content. rewrite fold_left_app_entries.
    unfold batch_preamble.
    change (rule "#") with ("#"%char :: repeat "#"%char 59) at 1.
    rewrite <- !app_assoc. cbn [app]. now apply strip_cons_not_space. }
  destruct (txt_name_suffix (idx paper) (paper_filename paper)) as (E1 & E2).
  split.
  - intros file [<- | [<- | []]].
    + split; [exact E1|]. split; [exact Hi|]. intros.
      now apply (process_file_not_skipped Exc refuses)
        with (file_content := snd (individual_file paper)).
    + split; [|split; [exact Hb|]].
      * cbn [batch_file fst]. unfold batch_name. rewrite !app_assoc. apply endswith_app.
      * intros.
        now apply (process_file_not_skipped Exc refuses)
          with (file_content := snd (batch_file now n_texts b)).
  - cbn [individual_file fst]. rewrite E2, <- !app_assoc. reflexivity.
Qed.

Lemma extractor_files_are_runner_input_witness :
  strip (snd (individual_file (sample_paper 7))) <> [].
Proof.
  destruct (extractor_files_are_runner_input (sample_paper 7) (lit "2026-01-01 10:00") 1
              {| batch_num := 1; first_paper := 1; last_paper := 1;
                 papers := [sample_paper 7] |}) as [H _].
  apply (H (individual_file (sample_paper 7))). left. reflexivity.
Defined.

(** ** The prompt and the list of text files *)

(** [load_prompt_file] returns the text of the file without the white
    space at its ends, and only when something is left; a missing file
    and a blank file are the two errors. *)
Theorem load_prompt_file_stripped (prompt_file : option str) :
  (forall p, load_prompt_file prompt_file = inr p ->
     p <> [] /\ strip p = p /\
     exists text, prompt_file = Some text /\ p = strip text) /\
  (load_prompt_file prompt_file = inl PromptNotFound <-> prompt_file = None) /\
  (load_prompt_file prompt_file = inl PromptEmpty
   <-> exists text, prompt_file = Some text /\ strip text = []).
Proof.
  unfold load_prompt_file. destruct prompt_file as [text|].
  - destruct (strip text) as [|c r] eqn:E; cbn [truthy].
    + split; [discriminate|]. split; [split; discriminate|].
      split; [intros _; now exists text | reflexivity].
    + split; [|split; split; try discriminate].
      * intros p [= <-]. split; [discriminate|]. split.
        -- rewrite <- E. apply strip_strip.
        -- now exists text.
      * intros (t & [= <-] & H). congruence.
  - split; [discriminate|]. split; [split; reflexivity|].
    split; [discriminate | intros (t & H & _); discriminate].
Qed.

Lemma load_prompt_file_stripped_witness :
  load_prompt_file (Some (lit "  Summarise.\n")) = inr (lit "Summarise.") /\
  strip (lit "Summarise.") = lit "Summarise.".
Proof.
  assert (E : load_prompt_file (Some (lit "  Summarise.\n")) = inr (lit "Summarise."))
    by reflexivity.
  split; [exact E|].
  destruct (load_prompt_file_stripped (Some (lit "  Summarise.\n"))) as [H _].
  exact (proj1 (proj2 (H _ E))).
Defined.

(** [get_txt_files] fails exactly when the folder is missing;
    otherwise it returns the entries whose name ends in [.txt], each as
    often as the folder lists it, sorted by name. *)
Theorem get_txt_files_sorted (input_dir : option (list DirEntry)) :
  (get_txt_files input_dir = None <-> input_dir = None) /\
  (forall entries txt_files,
     input_dir = Some entries ->
     get_txt_files input_dir = Some txt_files ->
     Sorted (key_le entry_name) txt_files /\
     Permutation
       (filter (fun f => endswith (lit ".txt") (entry_name f)) entries) txt_files /\
     (forall f, In f txt_files
                <-> In f entries /\ endswith (lit ".txt") (entry_name f) = true)).
Proof.
  split.
  - destruct input_dir; cbn; split; congruence.
  - intros entries txt_files -> [= <-].
    pose proof (@sorted_by_perm _ entry_name
                  (filter (fun f => endswith (lit ".txt") (entry_name f)) entries)) as P.
    split; [apply sorted_by_sorted|]. split; [exact P|].
    intros f. split; intros H.
    + apply (Permutation_in _ (Permutation_sym P)) in H.
      now apply filter_In in H.
    + apply (Permutation_in _ P). now apply filter_In.
Qed.

Lemma get_txt_files_sorted_witness :
  let entries := [ {| entry_name := lit "b.txt"; read_text := None |};
                   {| entry_name := lit "notes.md"; read_text := None |};
                   {| entry_name := lit "B.txt"; read_text := None |} ] in
  exists txt_files,
    get_txt_files (Some entries) = Some txt_files /\
    Sorted (key_le entry_name) txt_files /\
    map entry_name txt_files = [lit "B.txt"; lit "b.txt"].
Proof.
  intros entries.
  destruct (get_txt_files_sorted (Some entries)) as [_ H].
  eexists. split; [reflexivity|].
  split; [|reflexivity].
  exact (proj1 (H entries _ eq_refl eq_refl)).
Defined.

(** ** What a run logs *)

Lemma count_calls_app l1 l2 :
  count_calls (l1 ++ l2) = count_calls l1 + count_calls l2.
Proof. unfold count_calls. now rewrite filter_app, length_app. Qed.

Section RunLog.
Variable Exc : Type.
Variable refuses : nat -> Z -> bool.
Variable handler : Z -> Z -> Z -> Exc -> Handling.
Variable service : nat -> str -> Reply Exc.
Variable cfg : Config.

(** The retry loop logs calls with the message of the file and sleeps
    that are not negative, at most as many calls as attempts are left,
    and it writes nothing. *)
Lemma retry_loop_log file_content remaining : forall attempt last_error st,
  exists L,
    log (snd (retry_loop refuses handler service cfg file_content remaining
                attempt last_error st)) = log st ++ L /\
    calls (snd (retry_loop refuses handler service cfg file_content remaining
                  attempt last_error st)) = calls st + count_calls L /\
    count_calls L <= remaining /\
    writes L = [] /\
    Forall (fun e => e = Call (full_message cfg file_content)
                     \/ exists w, e = Sleep w /\ (0 <= w)%Z) L.
Proof.
  induction remaining as [|r IH]; intros attempt last_error st.
  - exists []. cbn. rewrite app_nil_r. repeat split; auto.
  - cbn [retry_loop].
    destruct (service (calls st) (full_message cfg file_content)) as [resp|e].
    + exists [Call (full_message cfg file_content)]. cbn.
      repeat split; try lia. constructor; [now left | constructor].
    + destruct (handler _ _ attempt e) as [w|].
      * destruct (sleep refuses w (issue_call (full_message cfg file_content) st))
          as [err|st2] eqn:S;
          [|apply (sleep_returns refuses) in S; destruct S as (Hw & _ & ->)].
        -- exists [Call (full_message cfg file_content)]. cbn.
           repeat split; try lia. constructor; [now left | constructor].
        -- destruct (IH (attempt + 1)%Z (Some e)
                       (emit (Sleep w) (issue_call (full_message cfg file_content) st)))
             as (L & E1 & E2 & E3 & E4 & E5).
           exists (Call (full_message cfg file_content) :: Sleep w :: L).
           rewrite E1, E2. cbn [emit issue_call log calls].
           rewrite <- !app_assoc. cbn [app].
           change (count_calls (Call (full_message cfg file_content) :: Sleep w :: L))
             with (S (count_calls L)).
           cbn [writes]. repeat split; try lia; try assumption.
           constructor; [now left|]. constructor; [right; now exists w | exact E5].
      * exists [Call (full_message cfg file_content)]. cbn.
        repeat split; try lia. constructor; [now left | constructor].
Qed.

(** What one file adds to the log. *)
Lemma process_file_log i n txt_file st :
  exists L,
    log (process_file refuses handler service cfg i n txt_file st) = log st ++ L /\
    calls (process_file refuses handler service cfg i n txt_file st)
    = calls st + count_calls L /\
    count_calls L <= Z.to_nat (max_retries cfg) /\
    processed (results (process_file refuses handler service cfg i n txt_file st))
    = processed (results st) + List.length (writes L) /\
    Forall (event_of_file cfg txt_file) L.
Proof.
  unfold process_file.
  destruct (read_text txt_file) as [file_content|] eqn:Hr.
  2:{ exists []. cbn. rewrite app_nil_r. repeat split; auto; lia. }
  destruct (strip file_content) as [|c0 r0] eqn:Hs; cbn [truthy negb].
  { exists []. cbn. rewrite app_nil_r. repeat split; auto; lia. }
  destruct (retry_loop_log file_content (Z.to_nat (max_retries cfg)) 0%Z None st)
    as (L & E1 & E2 & E3 & E4 & E5).
  pose proof (@retry_loop_results Exc refuses handler service cfg file_content
                (Z.to_nat (max_retries cfg)) 0%Z None st) as R.
  assert (F : Forall (event_of_file cfg txt_file) L).
  { eapply Forall_impl; [|exact E5]. intros e [-> | (w & -> & Hw)]; cbn; [|exact Hw].
    exists file_content. repeat split; [exact Hr | congruence]. }
  destruct (retry_loop refuses handler service cfg file_content
              (Z.to_nat (max_retries cfg)) 0%Z None st) as [[[resp|] le|e] st1];
    cbn [snd] in *.
  - set (W := Write (stem (entry_name txt_file) ++ lit ".md") resp).
    assert (FW : Forall (event_of_file cfg txt_file) (L ++ [W])).
    { apply Forall_app. split; [exact F|]. constructor; [reflexivity | constructor]. }
    assert (CW : count_calls (L ++ [W]) = count_calls L)
      by (rewrite count_calls_app; cbn; lia).
    assert (WW : List.length (writes (L ++ [W])) = 1)
      by (rewrite writes_app, E4; reflexivity).
    destruct (i <? n).
    + match goal with |- context [sleep refuses ?w ?x] =>
        destruct (sleep refuses w x) as [err|st2] eqn:S end;
        [|apply (sleep_returns refuses) in S; destruct S as (Hd & _ & ->)].
      * exists (L ++ [W]). cbn [on_exception update emit log calls results].
        rewrite E1, E2, R, CW, WW, <- app_assoc. cbn. repeat split; try lia. exact FW.
      * exists ((L ++ [W]) ++ [Sleep (delay cfg)]).
        cbn [update emit log calls results].
        rewrite E1, E2, R, count_calls_app, CW, writes_app, length_app, WW, <- !app_assoc.
        cbn. repeat split; try lia; try reflexivity.
        apply Forall_app. split; [exact F|]. constructor; [reflexivity|].
        constructor; [exact Hd | constructor].
    + exists (L ++ [W]). cbn [update emit log calls results].
      rewrite E1, E2, R, CW, WW, <- app_assoc. cbn. repeat split; try lia. exact FW.
  - exists L. cbn. rewrite E1, E2, R, E4. cbn. repeat split; try lia. exact F.
  - exists L. cbn. rewrite E1, E2, R, E4. cbn. repeat split; try lia. exact F.
Qed.

(** What the loop over the files adds to the log. *)
Lemma files_loop_log txt_files : forall i n st,
  exists L,
    log (files_loop refuses handler service cfg i n txt_files st) = log st ++ L /\
    calls (files_loop refuses handler service cfg i n txt_files st)
    = calls st + count_calls L /\
    count_calls L <= List.length txt_files * Z.to_nat (max_retries cfg) /\
    processed (results (files_loop refuses handler service cfg i n txt_files st))
    = processed (results st) + List.length (writes L) /\
    Forall (fun e => exists f, In f txt_files /\ event_of_file cfg f e) L.
Proof.
  induction txt_files as [|f rest IH]; intros i n st; cbn [files_loop].
  - exists []. cbn. rewrite app_nil_r. repeat split; auto; lia.
  - destruct (process_file_log i n f st) as (L1 & A1 & A2 & A3 & A4 & A5).
    destruct (IH (S i) n (process_file refuses handler service cfg i n f st))
      as (L2 & B1 & B2 & B3 & B4 & B5).
    exists (L1 ++ L2).
    rewrite B1, B2, B4, A1, A2, A4, count_calls_app, writes_app, length_app,
      <- app_assoc.
    cbn [List.length]. repeat split; try lia.
    apply Forall_app. split.
    + eapply Forall_impl; [|exact A5]. intros e He. exists f. split; [now left | exact He].
    + eapply Forall_impl; [|exact B5]. intros e (g & Hg & He).
      exists g. split; [now right | exact He].
Qed.

Lemma process_all_files_log input_dir st :
  Runner.process_all_files refuses handler service cfg input_dir = Some st ->
  exists txt_files,
    get_txt_files input_dir = Some txt_files /\
    total (results st) = List.length txt_files /\
    calls st = count_calls (log st) /\
    count_calls (log st) <= List.length txt_files * Z.to_nat (max_retries cfg) /\
    processed (results st) = List.length (writes (log st)) /\
    Forall (fun e => exists f, In f txt_files /\ event_of_file cfg f e) (log st).
Proof.
  unfold Runner.process_all_files.
  destruct (get_txt_files input_dir) as [txt_files|]; [|discriminate].
  destruct txt_files as [|f rest].
  - intros H. assert (st = initial 0) by congruence. subst st.
    exists []. cbn. repeat split; auto.
  - set (l := f :: rest). intros H.
    set (st' := files_loop refuses handler service cfg 1 (List.length l) l
                  (initial (List.length l))) in *.
    assert (st = st') by congruence. subst st. exists l.
    destruct (files_loop_log l 1 (List.length l) (initial (List.length l)))
      as (L & A1 & A2 & A3 & A4 & A5).
    fold st' in A1, A2, A4. cbn [initial log calls results processed app] in *.
    rewrite A1, A2, A4. repeat split; try assumption.
    unfold st'. now rewrite files_loop_total.
Qed.

End RunLog.

(** In a run of either script (each is the loop with its handler and
    its service) the number of calls to the service is at most the
    number of text files found times [max_retries]; none is made when
    [max_retries] is zero or negative. *)
Theorem service_calls_bounded (Exc : Type)
    (refuses : nat -> Z -> bool) handler
    (service : nat -> str -> Reply Exc) cfg input_dir st :
  Runner.process_all_files refuses handler service cfg input_dir = Some st ->
  count_calls (log st) <= total (results st) * Z.to_nat (max_retries cfg).
Proof.
  intros H.
  destruct (process_all_files_log Exc refuses handler service cfg input_dir st H)
    as (txt_files & _ & T & _ & B & _).
  now rewrite T.
Qed.

(** In a run of either script the number of files written is the
    final value of the counter of processed files, whatever the delays
    and the answers of the service are. *)
Theorem one_output_per_processed_file (Exc : Type)
    (refuses : nat -> Z -> bool) handler
    (service : nat -> str -> Reply Exc) cfg input_dir st :
  Runner.process_all_files refuses handler service cfg input_dir = Some st ->
  List.length (writes (log st)) = processed (results st).
Proof.
  intros H.
  destruct (process_all_files_log Exc refuses handler service cfg input_dir st H)
    as (txt_files & _ & _ & _ & _ & P & _).
  now rewrite P.
Qed.

(** Every event of a run of either script belongs to a text file of
    the folder: a call sends the prompt, the separator and the text of
    a file that could be read and is not blank; a sleep is never
    negative; a file written is named by the stem of an input file
    followed by [.md]. *)
Theorem events_belong_to_input_files (Exc : Type)
    (refuses : nat -> Z -> bool) handler
    (service : nat -> str -> Reply Exc) cfg input_dir st :
  Runner.process_all_files refuses handler service cfg input_dir = Some st ->
  exists txt_files,
    get_txt_files input_dir = Some txt_files /\
    forall e, In e (log st) ->
      exists f, In f txt_files /\
        match e with
        | Call m =>
            exists file_content,
              read_text f = Some file_content /\ strip file_content <> [] /\
              m = prompt cfg ++ lit "\n\n---\n\n" ++ file_content
        | Sleep w => (0 <= w)%Z
        | Write nm _ => nm = stem (entry_name f) ++ lit ".md"
        end.
Proof.
  intros H.
  destruct (process_all_files_log Exc refuses handler service cfg input_dir st H)
    as (txt_files & G & _ & _ & _ & _ & F).
  exists txt_files. split; [exact G|].
  intros e He. rewrite Forall_forall in F. destruct (F e He) as (f & Hf & Ev).
  exists f. split; [exact Hf|]. destruct e; exact Ev.
Qed.

Lemma service_calls_bounded_witness :
  let cfg := {| prompt := lit "P"; delay := 1; rate_limit_delay := 30;
                max_retries := 3 |} in
  let entries := [ {| entry_name := lit "a.txt"; read_text := Some (lit "one") |};
                   {| entry_name := lit "b.txt"; read_text := Some (lit "two") |} ] in
  let client := fun (_ : nat) (_ : str) => Gemini.ApiError (lit "quota") in
  exists st,
    Gemini.process_all_files refuses_long client cfg (Some entries) = Some st /\
    count_calls (log st) <= 2 * 3.
Proof.
  intros cfg entries client. eexists. split; [reflexivity|].
  apply (service_calls_bounded _ refuses_long Gemini.handler
           (Gemini.process_file_with_gemini client) cfg (Some entries)).
  reflexivity.
Defined.

Lemma one_output_per_processed_file_witness :
  let cfg := {| prompt := lit "P"; delay := (-1); rate_limit_delay := 30;
                max_retries := 3 |} in
  let entries := [ {| entry_name := lit "a.txt"; read_text := Some (lit "one") |};
                   {| entry_name := lit "b.txt"; read_text := Some (lit "two") |} ] in
  let client := fun (_ : nat) (_ : str) => Gemini.Response (Some (lit "ok")) in
  exists st,
    Gemini.process_all_files refuses_long client cfg (Some entries) = Some st /\
    List.length (writes (log st)) = processed (results st).
Proof.
  intros cfg entries client. eexists. split; [reflexivity|].
  apply (one_output_per_processed_file _ refuses_long Gemini.handler
           (Gemini.process_file_with_gemini client) cfg (Some entries)).
  reflexivity.
Defined.

Lemma events_belong_to_input_files_witness :
  let cfg := {| prompt := lit "P"; delay := 1; rate_limit_delay := 30;
                max_retries := 3 |} in
  let entries := [ {| entry_name := lit "a.txt"; read_text := Some (lit "one") |} ] in
  let client := fun (_ : nat) (_ : str) => Gemini.Response (Some (lit "ok")) in
  exists txt_files,
    get_txt_files (Some entries) = Some txt_files /\ List.length txt_files = 1.
Proof.
  intros cfg entries client.
  destruct (events_belong_to_input_files _ refuses_long Gemini.handler
              (Gemini.process_file_with_gemini client) cfg (Some entries) _ eq_refl)
    as (txt_files & G & _).
  exists txt_files. split; [exact G|]. injection G as <-. reflexivity.
Defined.

(** ** Further outcomes of a file *)

(** A file with some text whose call returns a text after some waits
    (fewer than [max_retries] attempts raised an exception that the
    handler answers by a wait, and [time.sleep] took each wait) is
    written and counted as processed once, whatever the pause between
    two files is.  When the file is the last one or the pause is a
    duration that [time.sleep] takes, nothing else is counted, and the
    log holds a call and a sleep for each wait, then the call that
    returned, then the writing, then the pause if a file follows. *)
Theorem success_after_retries (Exc : Type)
    (refuses : nat -> Z -> bool) handler
    (service : nat -> str -> Reply Exc) cfg i n txt_file st
    file_content waits response :
  read_text txt_file = Some file_content ->
  strip file_content <> [] ->
  (forall k w, nth_error waits k = Some w ->
     accepted refuses w /\
     exists e, service (calls st + k) (full_message cfg file_content) = Raises e /\
               handler (rate_limit_delay cfg) (max_retries cfg) (Z.of_nat k) e
               = Wait w) ->
  List.length waits < Z.to_nat (max_retries cfg) ->
  service (calls st + List.length waits) (full_message cfg file_content)
  = Returns Exc (Some response) ->
  let st' := process_file refuses handler service cfg i n txt_file st in
  calls st' = calls st + List.length waits + 1 /\
  writes (log st')
  = writes (log st) ++ [(stem (entry_name txt_file) ++ lit ".md", response)] /\
  processed (results st') = processed (results st) + 1 /\
  skipped (results st') = skipped (results st) /\
  ((i < n -> accepted refuses (delay cfg)) ->
   st' = {| results := incr_processed (results st);
            calls := calls st + List.length waits + 1;
            log := log st
                   ++ attempts_log (full_message cfg file_content) waits
                   ++ [Write (stem (entry_name txt_file) ++ lit ".md") response]
                   ++ (if i <? n then [Sleep (delay cfg)] else []) |}).
Proof.
  intros Hr Hs Hw Hl He st'.
  destruct (@process_file_written Exc refuses handler service cfg i n txt_file st
              file_content waits response Hr Hs Hw Hl He)
    as (C & _ & W & P & S & _).
  fold st' in C, W, P, S.
  split; [exact C|]. split; [exact W|]. split; [exact P|]. split; [exact S|].
  intros Hd. unfold st'.
  now apply process_file_success_after_waits.
Qed.

(** The Claude script, overloaded once and then answered. *)
Lemma success_after_retries_witness :
  let cfg := {| prompt := lit "P"; delay := 2; rate_limit_delay := 60;
                max_retries := 5 |} in
  let txt_file := {| entry_name := lit "a.txt"; read_text := Some (lit "x") |} in
  let client := fun (n : nat) (_ : str) =>
    match n with
    | 0 => Claude.ApiError (Claude.APIStatusError 529)
    | _ => Claude.Message [ {| Claude.block_type := lit "text";
                               Claude.block_text := lit "done" |} ]
    end in
  let st' := process_file refuses_long Claude.handler
               (Claude.process_file_with_claude client) cfg 1 2 txt_file (initial 2) in
  writes (log st') = [(lit "a.md", lit "done")] /\
  sleeps (log st') = [60; 2]%Z.
Proof.
  intros cfg txt_file client.
  assert (Hs : strip (lit "x") <> []) by (vm_compute; discriminate).
  destruct (success_after_retries _ refuses_long Claude.handler
              (Claude.process_file_with_claude client) cfg 1 2 txt_file (initial 2)
              (lit "x") [60%Z] (lit "done") eq_refl Hs) as (_ & W & _ & _ & E).
  - intros [|[|k]] w Hk; try discriminate. injection Hk as <-.
    split; [split; [lia | intros; reflexivity]|].
    exists (Claude.APIStatusError 529). split; reflexivity.
  - cbn. lia.
  - reflexivity.
  - cbn zeta. split; [rewrite W; reflexivity|].
    rewrite E; [reflexivity|]. intros _. split; [cbn; lia | intros; reflexivity].
Defined.

(** A wait on which [time.sleep] raises (a negative one, or one that
    the platform refuses) ends the file: the call that was answered by
    this wait is the last event of the file, no further attempt is
    made, nothing is written and the file is counted as failed. *)
Theorem refused_wait_fails (Exc : Type) (refuses : nat -> Z -> bool) handler
    (service : nat -> str -> Reply Exc) cfg i n txt_file st
    file_content waits e w :
  read_text txt_file = Some file_content ->
  strip file_content <> [] ->
  (forall k w', nth_error waits k = Some w' ->
     accepted refuses w' /\
     exists e', service (calls st + k) (full_message cfg file_content) = Raises e' /\
                handler (rate_limit_delay cfg) (max_retries cfg) (Z.of_nat k) e'
                = Wait w') ->
  List.length waits < Z.to_nat (max_retries cfg) ->
  service (calls st + List.length waits) (full_message cfg file_content) = Raises e ->
  handler (rate_limit_delay cfg) (max_retries cfg) (Z.of_nat (List.length waits)) e
  = Wait w ->
  (w < 0)%Z \/ refuses (calls st + List.length waits + 1) w = true ->
  process_file refuses handler service cfg i n txt_file st
  = {| results := incr_failed (results st);
       calls := calls st + List.length waits + 1;
       log := log st ++ attempts_log (full_message cfg file_content) waits |}.
Proof.
  intros Hr Hs Hw Hl He Hh Hb.
  apply (@process_file_fails Exc refuses handler service cfg i n txt_file st
           file_content waits e Hr Hs Hw Hl He).
  right. exists w. split; assumption.
Qed.

(** The Gemini script with a base delay of ten to the nineteenth
    seconds, and with a negative one: one call, no sleep. *)
Lemma refused_wait_fails_witness :
  let txt_file := {| entry_name := lit "a.txt"; read_text := Some (lit "x") |} in
  let client := fun (_ : nat) (_ : str) =>
    Gemini.ApiError (lit "429 RESOURCE_EXHAUSTED") in
  let run base :=
    process_file refuses_long Gemini.handler (Gemini.process_file_with_gemini client)
      {| prompt := lit "P"; delay := 1; rate_limit_delay := base; max_retries := 3 |}
      1 1 txt_file (initial 1) in
  let failed_after_one_call :=
    {| results := {| processed := 0; failed := 1; skipped := 0; total := 1 |};
       calls := 1; log := [Call (lit "P\n\n---\n\nx")] |} in
  run (10 ^ 19)%Z = failed_after_one_call /\ run (-30)%Z = failed_after_one_call.
Proof.
  intros txt_file client run failed_after_one_call.
  assert (Hs : strip (lit "x") <> []) by (vm_compute; discriminate).
  split.
  - unfold run.
    rewrite (refused_wait_fails _ refuses_long Gemini.handler
               (Gemini.process_file_with_gemini client) _ 1 1 txt_file (initial 1)
               (lit "x") [] (lit "429 RESOURCE_EXHAUSTED") (10 ^ 19)%Z eq_refl Hs).
    + reflexivity.
    + intros [|k] w Hk; discriminate Hk.
    + cbn. lia.
    + reflexivity.
    + reflexivity.
    + right. reflexivity.
  - unfold run.
    rewrite (refused_wait_fails _ refuses_long Gemini.handler
               (Gemini.process_file_with_gemini client) _ 1 1 txt_file (initial 1)
               (lit "x") [] (lit "429 RESOURCE_EXHAUSTED") (-30)%Z eq_refl Hs).
    + reflexivity.
    + intros [|k] w Hk; discriminate Hk.
    + cbn. lia.
    + reflexivity.
    + reflexivity.
    + left. reflexivity.
Defined.

(** When [max_retries] is zero or negative no attempt is made: a file
    with some text is counted as failed without a call to the service
    and without a file written.  A file that cannot be read is counted
    as failed in the same way. *)
Theorem no_attempt_means_failed (Exc : Type)
    (refuses : nat -> Z -> bool) handler
    (service : nat -> str -> Reply Exc) cfg i n txt_file st :
  (forall file_content,
     read_text txt_file = Some file_content ->
     strip file_content <> [] ->
     (max_retries cfg <= 0)%Z ->
     process_file refuses handler service cfg i n txt_file st
     = {| results := incr_failed (results st); calls := calls st; log := log st |}) /\
  (read_text txt_file = None ->
   process_file refuses handler service cfg i n txt_file st
   = {| results := incr_failed (results st); calls := calls st; log := log st |}).
Proof.
  split.
  - intros file_content Hr Hs Hm. unfold process_file. rewrite Hr.
    destruct (strip file_content) as [|c r] eqn:E; [congruence|]. cbn [truthy negb].
    replace (Z.to_nat (max_retries cfg)) with 0 by lia. reflexivity.
  - intros Hr. unfold process_file. now rewrite Hr.
Qed.

Lemma no_attempt_means_failed_witness :
  let cfg := {| prompt := lit "P"; delay := 1; rate_limit_delay := 30;
                max_retries := 0 |} in
  let txt_file := {| entry_name := lit "a.txt"; read_text := Some (lit "x") |} in
  let client := fun (_ : nat) (_ : str) => Gemini.Response (Some (lit "ok")) in
  process_file refuses_long Gemini.handler (Gemini.process_file_with_gemini client)
    cfg 1 1 txt_file (initial 1)
  = {| results := {| processed := 0; failed := 1; skipped := 0; total := 1 |};
       calls := 0; log := [] |}.
Proof.
  intros cfg txt_file client.
  destruct (no_attempt_means_failed _ refuses_long Gemini.handler
              (Gemini.process_file_with_gemini client) cfg 1 1 txt_file (initial 1))
    as [H _].
  rewrite (H (lit "x")); [reflexivity | reflexivity | | ].
  - vm_compute. discriminate.
  - discriminate.
Defined.

(** In the Gemini script a response whose text is [None] is not
    written: the file is counted as failed after this one call, also
    when the call came after waits that [time.sleep] took. *)
Theorem gemini_none_text_fails (refuses : nat -> Z -> bool) client cfg i n txt_file st
    file_content waits :
  read_text txt_file = Some file_content ->
  strip file_content <> [] ->
  (forall k w, nth_error waits k = Some w ->
     accepted refuses w /\
     exists e, client (calls st + k) (full_message cfg file_content)
               = Gemini.ApiError e /\
               Gemini.handler (rate_limit_delay cfg) (max_retries cfg)
                 (Z.of_nat k) e = Wait w) ->
  List.length waits < Z.to_nat (max_retries cfg) ->
  client (calls st + List.length waits) (full_message cfg file_content)
  = Gemini.Response None ->
  process_file refuses Gemini.handler (Gemini.process_file_with_gemini client)
    cfg i n txt_file st
  = {| results := incr_failed (results st);
       calls := calls st + List.length waits + 1;
       log := log st ++ attempts_log (full_message cfg file_content) waits |}.
Proof.
  intros Hr Hs Hw Hl He. unfold process_file. rewrite Hr.
  destruct (strip file_content) as [|c r] eqn:E; [congruence|]. cbn [truthy negb].
  destruct (@retry_loop_returns_after_waits _ refuses Gemini.handler
              (Gemini.process_file_with_gemini client) cfg st file_content
              waits None) as [le' ->]; [| exact Hl | | reflexivity].
  - intros k w Hk. destruct (Hw k w Hk) as (W & e & E1 & E2).
    split; [exact W|]. exists e. split; [|exact E2].
    unfold Gemini.process_file_with_gemini. now rewrite E1.
  - unfold Gemini.process_file_with_gemini. now rewrite He.
Qed.

Lemma gemini_none_text_fails_witness :
  let cfg := {| prompt := lit "P"; delay := 1; rate_limit_delay := 30;
                max_retries := 3 |} in
  let txt_file := {| entry_name := lit "a.txt"; read_text := Some (lit "x") |} in
  let client := fun (n : nat) (_ : str) =>
    match n with
    | 0 => Gemini.ApiError (lit "429 RESOURCE_EXHAUSTED")
    | _ => Gemini.Response None
    end in
  process_file refuses_long Gemini.handler
    (Gemini.process_file_with_gemini client) cfg 1 1 txt_file (initial 1)
  = {| results := {| processed := 0; failed := 1; skipped := 0; total := 1 |};
       calls := 2;
       log := [Call (lit "P\n\n---\n\nx"); Sleep 30; Call (lit "P\n\n---\n\nx")] |}.
Proof.
  intros cfg txt_file client.
  rewrite (gemini_none_text_fails refuses_long client cfg 1 1 txt_file
             (initial 1) (lit "x") [30%Z]).
  - reflexivity.
  - reflexivity.
  - vm_compute. discriminate.
  - intros [|[|k]] w Hk; try discriminate. injection Hk as <-.
    split; [split; [lia | intros; reflexivity]|].
    exists (lit "429 RESOURCE_EXHAUSTED"). split; reflexivity.
  - cbn. lia.
  - reflexivity.
Defined.

(** In the Claude script a file whose calls all end in a connection
    error is retried with waits of 10, 20, ... seconds, whatever the
    delay configured for rate limits, and a file whose calls all end in
    the status 529 with the waits of a rate limit, as long as
    [time.sleep] takes each of these waits; in both cases the file is
    sent [max_retries] times, then counted as failed, and nothing is
    written. *)
Theorem claude_connection_and_overload_backoff (refuses : nat -> Z -> bool)
    (cfg : Config) (i n : nat) (txt_file : DirEntry) (st : State) (file_content : str) :
  read_text txt_file = Some file_content ->
  strip file_content <> [] ->
  (1 <= max_retries cfg)%Z ->
  let message := full_message cfg file_content in
  let attempts := Z.to_nat (max_retries cfg) in
  (forall client,
     (forall w, In w (linear_waits 10 (attempts - 1)) -> accepted refuses w) ->
     (forall k, client (calls st + k) message
                = Claude.ApiError Claude.APIConnectionError) ->
     process_file refuses Claude.handler (Claude.process_file_with_claude client)
       cfg i n txt_file st
     = {| results := incr_failed (results st);
          calls := calls st + attempts;
          log := log st ++ attempts_log message (linear_waits 10 (attempts - 1)) |}) /\
  (forall client,
     (forall w, In w (linear_waits (rate_limit_delay cfg) (attempts - 1)) ->
        accepted refuses w) ->
     (forall k, client (calls st + k) message
                = Claude.ApiError (Claude.APIStatusError 529)) ->
     process_file refuses Claude.handler (Claude.process_file_with_claude client)
       cfg i n txt_file st
     = {| results := incr_failed (results st);
          calls := calls st + attempts;
          log := log st
                 ++ attempts_log message
                      (linear_waits (rate_limit_delay cfg) (attempts - 1)) |}).
Proof.
  intros Hr Hs Hm message attempts. split.
  - intros client Hd Hc.
    apply process_file_always_backoff; try assumption.
    intros k. exists Claude.APIConnectionError. split; [|reflexivity].
    unfold Claude.process_file_with_claude. fold message. now rewrite Hc.
  - intros client Hd Hc.
    apply process_file_always_backoff; try assumption.
    intros k. exists (Claude.APIStatusError 529). split; [|reflexivity].
    unfold Claude.process_file_with_claude. fold message. now rewrite Hc.
Qed.

Lemma claude_connection_and_overload_backoff_witness :
  let cfg := {| prompt := lit "P"; delay := 2; rate_limit_delay := 60;
                max_retries := 3 |} in
  let txt_file := {| entry_name := lit "a.txt"; read_text := Some (lit "x") |} in
  let client := fun (_ : nat) (_ : str) => Claude.ApiError Claude.APIConnectionError in
  sleeps (log (process_file refuses_long Claude.handler
                 (Claude.process_file_with_claude client) cfg 1 1 txt_file (initial 1)))
  = [10; 20]%Z.
Proof.
  intros cfg txt_file client.
  assert (Hs : strip (lit "x") <> []) by (vm_compute; discriminate).
  assert (Hm : (1 <= max_retries cfg)%Z) by discriminate.
  destruct (claude_connection_and_overload_backoff refuses_long
              cfg 1 1 txt_file (initial 1) (lit "x") eq_refl Hs Hm) as [H _].
  rewrite (H client); [reflexivity | | intros; reflexivity].
  intros w Hw. vm_compute in Hw.
  repeat (destruct Hw as [<- | Hw]; [split; [lia | intros; reflexivity]|]).
  contradiction.
Defined.

(** When the delay between two files is negative, a file that is not
    the last one and whose first call returns a text is written and
    counted as processed, and then counted as failed as well, because
    the sleep that follows raises inside the [try]; no sleep is
    logged. *)
Theorem negative_delay_counts_file_twice (Exc : Type)
    (refuses : nat -> Z -> bool) handler
    (service : nat -> str -> Reply Exc) cfg i n txt_file st file_content response :
  read_text txt_file = Some file_content ->
  strip file_content <> [] ->
  (0 < max_retries cfg)%Z ->
  i < n ->
  (delay cfg < 0)%Z ->
  service (calls st) (full_message cfg file_content) = Returns Exc (Some response) ->
  process_file refuses handler service cfg i n txt_file st
  = {| results := incr_failed (incr_processed (results st));
       calls := S (calls st);
       log := log st
              ++ [Call (full_message cfg file_content);
                  Write (stem (entry_name txt_file) ++ lit ".md") response] |}.
Proof.
  intros Hr Hs Hm Hi Hd He. unfold process_file. rewrite Hr.
  destruct (strip file_content) as [|c r] eqn:E; [congruence|]. cbn [truthy negb].
  destruct (Z.to_nat (max_retries cfg)) as [|rem] eqn:R; [lia|].
  erewrite @retry_loop_returns; [|exact He].
  destruct (Nat.ltb_spec i n) as [_|?]; [|lia].
  rewrite sleep_negative by exact Hd.
  unfold on_exception, update, emit, issue_call. cbn [results calls log].
  f_equal. now rewrite <- app_assoc.
Qed.

Lemma negative_delay_counts_file_twice_witness :
  let cfg := {| prompt := lit "P"; delay := (-1); rate_limit_delay := 30;
                max_retries := 3 |} in
  let txt_file := {| entry_name := lit "a.txt"; read_text := Some (lit "x") |} in
  let client := fun (_ : nat) (_ : str) => Gemini.Response (Some (lit "ok")) in
  results (process_file refuses_long Gemini.handler (Gemini.process_file_with_gemini client)
             cfg 1 2 txt_file (initial 2))
  = {| processed := 1; failed := 1; skipped := 0; total := 2 |}.
Proof.
  intros cfg txt_file client.
  rewrite (negative_delay_counts_file_twice _ refuses_long Gemini.handler
             (Gemini.process_file_with_gemini client) cfg 1 2 txt_file (initial 2)
             (lit "x") (lit "ok")).
  - reflexivity.
  - reflexivity.
  - vm_compute. discriminate.
  - reflexivity.
  - lia.
  - reflexivity.
  - reflexivity.
Defined.

(** ** The exit status *)

Lemma str_eqb_refl s : str_eqb s s = true.
Proof. unfold str_eqb. apply String.eqb_refl. Qed.







(** ** The text of a Claude message *)

Lemma response_text_blocks content :
  Claude.response_text content
  = List.concat
      (map Claude.block_text
         (filter (fun b => str_eqb (Claude.block_type b) (lit "text")) content)).
Proof.
  induction content as [|b rest IH]; [reflexivity|].
  cbn [Claude.response_text filter].
  destruct (str_eqb (Claude.block_type b) (lit "text")).
  - cbn [map List.concat]. now rewrite IH.
  - exact IH.
Qed.

(** In the Claude script a call that returns a message is never taken
    for a failure, at whichever attempt it comes and whatever the pause
    between two files is: the output file is written with the texts of
    the blocks of type text, joined in their order, and the file is
    counted as processed, also when the message has no such block and
    the output is empty.  (The waits before the call are those that
    [time.sleep] took; the failed counter stays as it was when the
    file is the last one or the pause is a duration that [time.sleep]
    takes.) *)
Theorem claude_message_always_written (refuses : nat -> Z -> bool)
    (client : nat -> str -> Claude.ApiResult) (cfg : Config) (i n : nat)
    (txt_file : DirEntry) (st : State) (file_content : str) (waits : list Z)
    (content : list Claude.Block) :
  read_text txt_file = Some file_content ->
  strip file_content <> [] ->
  (forall k w, nth_error waits k = Some w ->
     accepted refuses w /\
     exists e, client (calls st + k) (full_message cfg file_content)
               = Claude.ApiError e /\
               Claude.handler (rate_limit_delay cfg) (max_retries cfg)
                 (Z.of_nat k) e = Wait w) ->
  List.length waits < Z.to_nat (max_retries cfg) ->
  client (calls st + List.length waits) (full_message cfg file_content)
  = Claude.Message content ->
  let st' := process_file refuses Claude.handler
               (Claude.process_file_with_claude client) cfg i n txt_file st in
  let texts :=
    map Claude.block_text
      (filter (fun b => str_eqb (Claude.block_type b) (lit "text")) content) in
  writes (log st')
  = writes (log st) ++ [(stem (entry_name txt_file) ++ lit ".md", List.concat texts)] /\
  processed (results st') = processed (results st) + 1 /\
  skipped (results st') = skipped (results st) /\
  ((i < n -> accepted refuses (delay cfg)) -> counters_step 1 0 0 st st') /\
  (texts = [] ->
   writes (log st') = writes (log st) ++ [(stem (entry_name txt_file) ++ lit ".md", [])]).
Proof.
  intros Hr Hs Hw Hl Hc st' texts.
  assert (Hw' : forall k w, nth_error waits k = Some w ->
            accepted refuses w /\
            exists e, Claude.process_file_with_claude client (calls st + k)
                        (full_message cfg file_content) = Raises e /\
                      Claude.handler (rate_limit_delay cfg) (max_retries cfg)
                        (Z.of_nat k) e = Wait w).
  { intros k w Hk. destruct (Hw k w Hk) as (A & e & E1 & E2).
    split; [exact A|]. exists e. split; [|exact E2].
    unfold Claude.process_file_with_claude. now rewrite E1. }
  assert (He : Claude.process_file_with_claude client (calls st + List.length waits)
                 (full_message cfg file_content)
               = Returns Claude.Exc (Some (List.concat texts))).
  { unfold Claude.process_file_with_claude, texts. rewrite Hc.
    now rewrite response_text_blocks. }
  destruct (@process_file_written Claude.Exc refuses Claude.handler
              (Claude.process_file_with_claude client) cfg i n txt_file st
              file_content waits (List.concat texts) Hr Hs Hw' Hl He)
    as (_ & _ & W & P & S & T & _).
  fold st' in W, P, S, T.
  split; [exact W|]. split; [exact P|]. split; [exact S|]. split.
  - intros Hd. unfold st'.
    rewrite (@process_file_success_after_waits Claude.Exc refuses Claude.handler
               (Claude.process_file_with_claude client) cfg i n txt_file st
               file_content waits (List.concat texts) Hr Hs Hw' Hl He Hd).
    unfold counters_step, incr_processed.
    cbn [results processed failed skipped total]. repeat split; lia.
  - intros E. rewrite W, E. reflexivity.
Qed.

Lemma claude_message_always_written_witness :
  let cfg := {| prompt := lit "P"; delay := (-2); rate_limit_delay := 60;
                max_retries := 5 |} in
  let txt_file := {| entry_name := lit "a.txt"; read_text := Some (lit "x") |} in
  let content := [{| Claude.block_type := lit "thinking"; Claude.block_text := lit "hm" |};
                  {| Claude.block_type := lit "text"; Claude.block_text := lit "one " |};
                  {| Claude.block_type := lit "tool_use"; Claude.block_text := [] |};
                  {| Claude.block_type := lit "text"; Claude.block_text := lit "two" |}] in
  let client := fun (n : nat) (_ : str) =>
    match n with
    | 0 => Claude.ApiError Claude.APIConnectionError
    | _ => Claude.Message content
    end in
  let st' := process_file refuses_long Claude.handler
               (Claude.process_file_with_claude client) cfg 1 2 txt_file (initial 2) in
  writes (log st') = [(lit "a.md", lit "one two")] /\
  processed (results st') = 1.
Proof.
  intros cfg txt_file content client.
  assert (Hs : strip (lit "x") <> []) by (vm_compute; discriminate).
  destruct (claude_message_always_written refuses_long client cfg 1 2
              txt_file (initial 2) (lit "x") [10%Z] content eq_refl Hs)
    as (W & P & _).
  - intros [|[|k]] w Hk; try discriminate. injection Hk as <-.
    split; [split; [lia | intros; reflexivity]|].
    exists Claude.APIConnectionError. split; reflexivity.
  - cbn. lia.
  - reflexivity.
  - cbn zeta. rewrite W, P. split; reflexivity.
Defined.

(** ** The number of pages in the metadata *)

Lemma startswith_inv p : forall s,
  startswith p s = true -> s = p ++ skipn (List.length p) s.
Proof.
  induction p as [|a p IH]; intros s H; [reflexivity|].
  destruct s as [|b s]; [discriminate|]. cbn [startswith] in H.
  apply andb_true_iff in H. destruct H as [E H]. apply Ascii.eqb_eq in E. subst b.
  cbn [List.length skipn app]. f_equal. now apply IH.
Qed.

Lemma is_mark_inv s :
  is_mark s = true ->
  exists d t, s = lit "[Page " ++ d :: t /\ is_digit d = true.
Proof.
  unfold is_mark. intros H. apply andb_true_iff in H. destruct H as [P D].
  apply startswith_inv in P. change (List.length (lit "[Page ")) with 6 in P.
  destruct (skipn 6 s) as [|d t]; [discriminate|].
  exists d, t. split; assumption.
Qed.

Lemma is_mark_intro d t :
  is_digit d = true -> is_mark (lit "[Page " ++ d :: t) = true.
Proof.
  intros H. unfold is_mark. rewrite startswith_app.
  change (skipn 6 (lit "[Page " ++ d :: t)) with (d :: t). exact H.
Qed.

Lemma is_mark_bracket c s : is_mark (c :: s) = true -> is_char "[" c = true.
Proof.
  intros H. apply is_mark_inv in H. destruct H as (d & t & E & _).
  injection E as -> _. reflexivity.
Qed.

Lemma marks_suffix a b : marks b <= marks (a ++ b).
Proof.
  induction a as [|c a IH]; [apply Nat.le_refl|].
  cbn [app marks]. lia.
Qed.

Lemma marks_skip a b :
  Forall (fun c => is_char "[" c = false) a -> marks (a ++ b) = marks b.
Proof.
  induction 1 as [|c a Hc _ IH]; [reflexivity|].
  cbn [app marks]. rewrite IH.
  destruct (is_mark (c :: a ++ b)) eqn:M; [|reflexivity].
  apply is_mark_bracket in M. congruence.
Qed.

Lemma is_mark_app a b : is_mark a = true -> is_mark (a ++ b) = true.
Proof.
  intros H. apply is_mark_inv in H. destruct H as (d & t & -> & D).
  rewrite <- app_assoc. cbn [app]. now apply is_mark_intro.
Qed.

Lemma marks_app a b : marks a + marks b <= marks (a ++ b).
Proof.
  induction a as [|c a IH]; [apply Nat.le_refl|].
  change ((c :: a) ++ b) with (c :: a ++ b). cbn [marks].
  destruct (is_mark (c :: a)) eqn:M.
  - change (c :: a ++ b) with ((c :: a) ++ b).
    rewrite (is_mark_app (c :: a) b M). lia.
  - destruct (is_mark (c :: a ++ b)); lia.
Qed.

(** [count] finds every page mark, and its occurrences do not
    overlap. *)
Lemma count_marks : forall n s,
  List.length s <= n ->
  marks s <= count (lit "[Page ") s /\
  6 * count (lit "[Page ") s <= List.length s.
Proof.
  induction n as [|n IH]; intros s Hn.
  - destruct s; [|cbn [List.length] in Hn; lia]. split; cbn; lia.
  - destruct s as [|c s]; [split; cbn; lia|].
    cbn [List.length] in Hn. unfold count. cbn [count_scan marks].
    destruct (startswith (lit "[Page ") (c :: s)) eqn:P.
    + apply startswith_inv in P. change (List.length (lit "[Page ")) with 6 in P.
      remember (skipn 6 (c :: s)) as t eqn:Et. clear Et.
      cbn [lit list_ascii_of_string lit_chars app] in P.
      injection P as -> ->.
      change (count_scan (lit "[Page ") (List.length (lit "[Page ") - 1)
                ("P"%char :: "a"%char :: "g"%char :: "e"%char :: " "%char :: t))
        with (count (lit "[Page ") t).
      change ("P"%char :: "a"%char :: "g"%char :: "e"%char :: " "%char :: t)
        with (lit "Page " ++ t) at 2.
      rewrite (marks_skip (lit "Page ") t)
        by (repeat constructor).
      cbn [List.length] in Hn |- *.
      destruct (IH t ltac:(lia)) as [M L].
      split; [destruct (is_mark _); lia | lia].
    + assert (M : is_mark (c :: s) = false) by (unfold is_mark; now rewrite P).
      rewrite M. destruct (IH s ltac:(lia)) as [M' L].
      unfold count in *. cbn [List.length]. split; lia.
Qed.

Lemma is_digit_not_nl c : is_digit c = true -> is_nl c = false.
Proof.
  intros H. destruct (is_nl c) eqn:E; [|reflexivity].
  apply is_nl_space in E. apply is_digit_not_space in H. congruence.
Qed.

(** A substitution that starts no match inside [[Page ] and gives back
    a digit at the head of a text keeps the page marks. *)
Lemma sub_keeps_mark r repl :
  (forall t, match_at r ("["%char :: t) = None) ->
  (forall t, match_at r ("P"%char :: "a"%char :: t) = None) ->
  (forall t, match_at r ("a"%char :: "g"%char :: t) = None) ->
  (forall t, match_at r ("g"%char :: "e"%char :: t) = None) ->
  (forall t, match_at r ("e"%char :: " "%char :: t) = None) ->
  (forall t, match_at r (" "%char :: t) = None) ->
  (forall d t, is_digit d = true -> exists t', sub r repl (d :: t) = d :: t') ->
  forall s, is_mark s = true -> is_mark (sub r repl s) = true.
Proof.
  intros H1 H2 H3 H4 H5 H6 Hd s M.
  apply is_mark_inv in M. destruct M as (d & t & -> & D).
  cbn [lit list_ascii_of_string lit_chars app].
  rewrite sub_miss by apply H1. rewrite sub_miss by apply H2.
  rewrite sub_miss by apply H3. rewrite sub_miss by apply H4.
  rewrite sub_miss by apply H5. rewrite sub_miss by apply H6.
  destruct (Hd d t D) as [t' ->].
  now apply (is_mark_intro d t').
Qed.

Lemma sub_marks r repl :
  1 <= min_len r ->
  classes_in (fun c => is_char "[" c = false) r ->
  (forall s, is_mark s = true -> is_mark (sub r repl s) = true) ->
  forall n s, List.length s <= n -> marks s <= marks (sub r repl s).
Proof.
  intros Hmin Hcls Hmark. induction n as [|n IH]; intros s Hn.
  - destruct s; [apply Nat.le_refl | cbn [List.length] in Hn; lia].
  - destruct s as [|c s]; [apply Nat.le_refl|].
    destruct (match_at r (c :: s)) as [[g rest]|] eqn:M.
    + destruct (sub_hit r repl (c :: s) g rest Hmin M) as [-> L].
      destruct (match_at_inv _ r (c :: s) g rest Hcls M) as (pre & E & F & _).
      rewrite E, (marks_skip pre rest F).
      etransitivity; [|apply marks_suffix].
      apply IH. cbn [List.length] in *. lia.
    + specialize (Hmark (c :: s)). rewrite (sub_miss r repl c s M) in *.
      cbn [marks]. cbn [List.length] in Hn.
      specialize (IH s ltac:(lia)).
      destruct (is_mark (c :: s)); [rewrite Hmark by reflexivity; lia|].
      destruct (is_mark (c :: sub r repl s)); lia.
Qed.

Lemma not_bracket_nl c : is_nl c = true -> is_char "[" c = false.
Proof. intros H. apply is_nl_true in H. now subst. Qed.

Lemma not_bracket_space c : is_space c = true -> is_char "[" c = false.
Proof.
  intros H. destruct (is_char "[" c) eqn:E; [|reflexivity].
  apply Ascii.eqb_eq in E. subst. discriminate.
Qed.

Lemma not_bracket_word c : is_word c = true -> is_char "[" c = false.
Proof.
  intros H. destruct (is_char "[" c) eqn:E; [|reflexivity].
  apply Ascii.eqb_eq in E. subst. discriminate.
Qed.

Lemma not_bracket_digit c : is_digit c = true -> is_char "[" c = false.
Proof.
  intros H. destruct (is_char "[" c) eqn:E; [|reflexivity].
  apply Ascii.eqb_eq in E. subst. discriminate.
Qed.

Lemma not_bracket_hyphen c : is_char "-" c = true -> is_char "[" c = false.
Proof. intros H. apply Ascii.eqb_eq in H. now subst. Qed.

Lemma sub_blank_marks s :
  marks s <= marks (sub re_blank_lines (fun _ => [nl; nl]) s).
Proof.
  apply (sub_marks re_blank_lines (fun _ => [nl; nl])) with (n := List.length s);
    [cbn; lia | | |apply Nat.le_refl].
  - cbn. repeat split; apply not_bracket_nl.
  - apply sub_keeps_mark; try reflexivity.
    intros d t D. exists (sub re_blank_lines (fun _ => [nl; nl]) t).
    apply sub_miss. unfold match_at, re_blank_lines. cbn [re_match].
    now rewrite (is_digit_not_nl d D).
Qed.

Lemma sub_page_marks s :
  marks s <= marks (sub re_page_number (fun _ => [nl]) s).
Proof.
  apply (sub_marks re_page_number (fun _ => [nl])) with (n := List.length s);
    [cbn; lia | | |apply Nat.le_refl].
  - cbn. repeat split;
      first [apply not_bracket_nl | apply not_bracket_digit | apply not_bracket_space].
  - apply sub_keeps_mark; try reflexivity.
    intros d t D. exists (sub re_page_number (fun _ => [nl]) t).
    apply sub_miss. unfold match_at, re_page_number. cbn [re_match].
    now rewrite (is_digit_not_nl d D).
Qed.

Lemma sub_hyphen_marks s :
  marks s <= marks (sub re_hyphen (fun g => group 1 g ++ group 2 g) s).
Proof.
  apply (sub_marks re_hyphen (fun g => group 1 g ++ group 2 g)) with (n := List.length s);
    [cbn; lia | | |apply Nat.le_refl].
  - cbn. repeat split;
      first [apply not_bracket_nl | apply not_bracket_word | apply not_bracket_hyphen].
  - apply sub_keeps_mark; try reflexivity.
    intros d t D.
    destruct (match_at re_hyphen (d :: t)) as [[g rest]|] eqn:M.
    + destruct (sub_hit re_hyphen (fun g => group 1 g ++ group 2 g) (d :: t) g rest
                  ltac:(cbn; lia) M) as [-> _].
      apply match_hyphen_inv in M. destruct M as (a & b & E & _ & _ & ->).
      injection E as <- _. eexists. reflexivity.
    + eexists. now apply sub_miss.
Qed.

Lemma marks_lstrip s : marks (lstrip s) = marks s.
Proof.
  induction s as [|c s IH]; [reflexivity|]. cbn [lstrip].
  destruct (is_space c) eqn:E; [|reflexivity].
  rewrite IH. cbn [marks].
  destruct (is_mark (c :: s)) eqn:M; [|reflexivity].
  apply is_mark_bracket in M. apply not_bracket_space in E. congruence.
Qed.

Lemma rstrip_nil_head s :
  rstrip s = [] -> match s with [] => True | c :: _ => is_space c = true end.
Proof.
  destruct s as [|c s]; [trivial|]. cbn [rstrip].
  destruct (rstrip s); [|discriminate]. now destruct (is_space c).
Qed.

Lemma rstrip_cons_not_space d t :
  is_space d = false -> exists t', rstrip (d :: t) = d :: t'.
Proof.
  intros H. cbn [rstrip]. destruct (rstrip t); [rewrite H|]; eexists; reflexivity.
Qed.

Lemma rstrip_cons_keep c s :
  rstrip s <> [] -> rstrip (c :: s) = c :: rstrip s.
Proof. intros H. cbn [rstrip]. now destruct (rstrip s). Qed.

Lemma is_mark_rstrip s : is_mark s = true -> is_mark (rstrip s) = true.
Proof.
  intros M. apply is_mark_inv in M. destruct M as (d & t & -> & D).
  destruct (rstrip_cons_not_space d t (is_digit_not_space d D)) as [t' E].
  cbn [lit list_ascii_of_string lit_chars app].
  assert (K : forall c x y, rstrip x = c :: y -> rstrip x <> [])
    by (intros c x y H; rewrite H; discriminate).
  assert (E5 := rstrip_cons_keep " " (d :: t) (K _ _ _ E)). rewrite E in E5.
  assert (E4 := rstrip_cons_keep "e" _ (K _ _ _ E5)). rewrite E5 in E4.
  assert (E3 := rstrip_cons_keep "g" _ (K _ _ _ E4)). rewrite E4 in E3.
  assert (E2 := rstrip_cons_keep "a" _ (K _ _ _ E3)). rewrite E3 in E2.
  assert (E1 := rstrip_cons_keep "P" _ (K _ _ _ E2)). rewrite E2 in E1.
  assert (E0 := rstrip_cons_keep "[" _ (K _ _ _ E1)). rewrite E1 in E0.
  rewrite E0. now apply (is_mark_intro d t').
Qed.

Lemma marks_rstrip s : marks s <= marks (rstrip s).
Proof.
  induction s as [|c s IH]; [apply Nat.le_refl|].
  assert (M := is_mark_rstrip (c :: s)).
  cbn [marks]. cbn [rstrip] in *.
  destruct (rstrip s) as [|a r] eqn:R.
  - assert (Z : marks s = 0) by (cbn [marks] in IH; lia).
    destruct (is_mark (c :: s)) eqn:Mc; [|lia].
    specialize (M eq_refl). apply is_mark_inv in M.
    destruct M as (d & t & E & _).
    cbn [lit list_ascii_of_string lit_chars app] in E.
    destruct (is_space c); discriminate E.
  - cbn [marks] in *.
    destruct (is_mark (c :: s)); [rewrite M by reflexivity|]; lia.
Qed.

Lemma clean_text_marks s : marks s <= marks (clean_text s).
Proof.
  unfold clean_text, strip.
  etransitivity; [|apply marks_rstrip]. rewrite marks_lstrip.
  etransitivity; [|apply sub_hyphen_marks].
  etransitivity; [|apply sub_page_marks].
  apply sub_blank_marks.
Qed.

Lemma str_of_nat_head n :
  exists d ds, str_of_nat n = d :: ds /\ is_digit d = true.
Proof.
  assert (F := string_of_uint_digits (Nat.to_uint n)).
  assert (R := read_number_str_of_nat n).
  unfold str_of_nat in *.
  destruct (list_ascii_of_string (NilEmpty.string_of_uint (Nat.to_uint n)))
    as [|d ds] eqn:E.
  - destruct n as [|n]; [discriminate E|]. discriminate R.
  - exists d, ds. split; [reflexivity|]. now inversion F.
Qed.

Lemma text_parts_marks page_texts : forall page_num,
  Forall (fun part => is_mark part = true) (text_parts page_num page_texts) /\
  List.length (text_parts page_num page_texts)
  = List.length (text_pages page_texts).
Proof.
  induction page_texts as [|page_text rest IH]; intros page_num;
    [split; [constructor | reflexivity]|].
  destruct (IH (S page_num)) as [F L].
  cbn [text_parts text_pages filter].
  destruct (truthy (strip page_text)); [|split; assumption].
  split; [|cbn [List.length]; now f_equal].
  constructor; [|exact F].
  destruct (str_of_nat_head page_num) as (d & ds & -> & D).
  cbn [app]. now apply is_mark_intro.
Qed.

Lemma join_marks sep parts :
  Forall (fun part => is_mark part = true) parts ->
  List.length parts <= marks (join sep parts).
Proof.
  induction 1 as [|x rest Hx _ IH]; [apply Nat.le_refl|].
  assert (M : 1 <= marks x).
  { destruct x as [|c x]; [discriminate Hx|]. cbn [marks]. rewrite Hx. lia. }
  cbn [join List.length]. destruct rest as [|y rest].
  - cbn [List.length]. lia.
  - assert (A := marks_app x (sep ++ join sep (y :: rest))).
    assert (B := marks_suffix sep (join sep (y :: rest))). lia.
Qed.

(** The number of pages in the metadata counts the occurrences of
    [[Page ] in the text: for a PDF whose extraction went through it is
    at least the number of pages that hold some text (it is larger when
    the text of a page holds [[Page ] itself) and zero when no page
    holds text, and for every text six times this number is at most
    the number of characters. *)
Theorem pages_at_least_text_pages (file_name pdf_path : str) (page_texts : list str) :
  (let text := extract_pdf_text pdf_path (Pages page_texts) in
   List.length (text_pages page_texts) <= pages (get_paper_metadata file_name text)) /\
  (forall text,
     6 * pages (get_paper_metadata file_name text)
     <= info_chars (get_paper_metadata file_name text)) /\
  (text_pages page_texts = [] ->
   pages (get_paper_metadata file_name
            (extract_pdf_text pdf_path (Pages page_texts))) = 0).
Proof.
  split; [|split].
  - cbn [extract_pdf_text get_paper_metadata pages].
    destruct (text_parts_marks page_texts 1) as [F L]. rewrite <- L.
    etransitivity; [apply (join_marks (lit "\n\n") _ F)|].
    etransitivity; [apply clean_text_marks|].
    apply (count_marks (List.length (clean_text (join (lit "\n\n")
                                                   (text_parts 1 page_texts)))) _
             (Nat.le_refl _)).
  - intros text. cbn [get_paper_metadata pages info_chars].
    apply (count_marks (List.length text) text (Nat.le_refl _)).
  - intros E. destruct (text_parts_marks page_texts 1) as [_ L].
    rewrite E in L. cbn [extract_pdf_text].
    destruct (text_parts 1 page_texts); [reflexivity | discriminate L].
Qed.

Lemma pages_at_least_text_pages_witness :
  let page_texts := [lit "Cost\noverruns "; lit " \n"; lit "see [Page 3] of the report"] in
  pages (get_paper_metadata (lit "a.pdf") (extract_pdf_text (lit "a.pdf") (Pages page_texts)))
  = 3 /\
  List.length (text_pages page_texts) = 2 /\
  pages (get_paper_metadata (lit "a.pdf")
           (extract_pdf_text (lit "a.pdf") (Pages [lit " \n"; []]))) = 0.
Proof.
  intros page_texts.
  destruct (pages_at_least_text_pages (lit "a.pdf") (lit "a.pdf") [lit " \n"; []])
    as (_ & _ & Z).
  split; [vm_compute; reflexivity|]. split; [vm_compute; reflexivity|].
  apply Z. reflexivity.
Defined.

(** ** The cleanup applied twice *)

Lemma clean_text_calm t : calm (clean_text t).
Proof.
  unfold clean_text. apply strip_calm.
  apply (sub_hyphen_calm_aux (List.length (sub re_page_number (fun _ => [nl])
           (sub re_blank_lines (fun _ => [nl; nl]) t)))); [lia|].
  apply (sub_page_calm_aux (List.length (sub re_blank_lines (fun _ => [nl; nl]) t)));
    [lia|].
  apply sub_blank_calm.
Qed.

(** A substitution leaves a text without a match as it is. *)
Lemma sub_no_match r repl s : search r s = None -> sub r repl s = s.
Proof.
  induction s as [|c s IH]; intros H; [reflexivity|].
  rewrite search_eq in H.
  destruct (match_at r (c :: s)) as [[g rest]|] eqn:M; [discriminate H|].
  rewrite (sub_miss r repl c s M). f_equal. now apply IH.
Qed.

(** A substitution whose replacements are shorter than the matches
    shortens every text that has a match. *)
Lemma sub_shrinks r repl :
  1 <= min_len r ->
  (forall s g rest, match_at r s = Some (g, rest) ->
     List.length (repl g) + List.length rest < List.length s) ->
  forall s, search r s <> None -> List.length (sub r repl s) < List.length s.
Proof.
  intros Hmin Hrepl.
  assert (Hle : forall s, List.length (sub r repl s) <= List.length s).
  { intros s. apply (sub_length_le r repl Hmin) with (n := List.length s); [|lia].
    intros s0 g rest M. specialize (Hrepl s0 g rest M). lia. }
  induction s as [|c s IH]; intros H.
  - exfalso. apply H. rewrite search_eq.
    destruct (match_at r []) as [[g rest]|] eqn:M; [|reflexivity].
    specialize (Hrepl [] g rest M). cbn in Hrepl. lia.
  - destruct (match_at r (c :: s)) as [[g rest]|] eqn:M.
    + destruct (sub_hit r repl (c :: s) g rest Hmin M) as [-> _].
      rewrite length_app. specialize (Hrepl _ _ _ M). specialize (Hle rest). lia.
    + rewrite (sub_miss r repl c s M). cbn [List.length].
      rewrite search_eq, M in H. specialize (IH H). lia.
Qed.

Lemma sub_page_shrinks s :
  search re_page_number s <> None ->
  List.length (sub re_page_number (fun _ => [nl]) s) < List.length s.
Proof.
  apply (sub_shrinks re_page_number (fun _ => [nl])); [cbn; lia|].
  intros s0 g rest E.
  destruct (match_at_inv _ _ _ _ _ (classes_in_True _) E) as (pre & -> & _ & L).
  rewrite length_app. cbn in *. lia.
Qed.

Lemma sub_hyphen_shrinks s :
  search re_hyphen s <> None ->
  List.length (sub re_hyphen (fun g => group 1 g ++ group 2 g) s) < List.length s.
Proof.
  apply (sub_shrinks re_hyphen (fun g => group 1 g ++ group 2 g)); [cbn; lia|].
  intros s0 g rest E.
  destruct (match_hyphen_inv _ _ _ E) as (a & b & -> & _ & _ & ->).
  cbn. lia.
Qed.

(** C4 (amended): applying the cleanup twice yields the same result
    as applying it once exactly when the text cleaned once has no
    page-number line left (a newline, digits, white space, a newline)
    and no hyphen left between a word character and a newline that a
    word character follows.  It is so on every text in which no
    newline is followed by a decimal digit and no hyphen is followed by
    a newline. *)
Theorem clean_text_idempotent_when_settled (t : str) :
  (clean_text (clean_text t) = clean_text t <->
   search re_page_number (clean_text t) = None /\
   search re_hyphen (clean_text t) = None) /\
  (tidy t -> clean_text (clean_text t) = clean_text t).
Proof.
  split; [|apply clean_text_twice_tidy].
  pose proof (clean_text_calm t) as C.
  assert (S : strip (clean_text t) = clean_text t)
    by (unfold clean_text; apply strip_strip).
  set (u := clean_text t) in *.
  assert (E : clean_text u
              = strip (sub re_hyphen (fun g => group 1 g ++ group 2 g)
                         (sub re_page_number (fun _ => [nl]) u))).
  { unfold clean_text. rewrite sub_blank_fix by exact C. reflexivity. }
  rewrite E. split.
  - intros H.
    set (x := sub re_page_number (fun _ => [nl]) u) in *.
    set (y := sub re_hyphen (fun g => group 1 g ++ group 2 g) x) in *.
    assert (Ly : List.length u <= List.length y).
    { rewrite <- H at 1. unfold strip.
      pose proof (rstrip_length (lstrip y)). pose proof (lstrip_length y). lia. }
    assert (Lx : List.length x <= List.length u).
    { apply (sub_length_le re_page_number (fun _ => [nl]) ltac:(cbn; lia))
        with (n := List.length u); [|lia].
      intros s g rest M.
      destruct (match_at_inv _ _ _ _ _ (classes_in_True _) M) as (pre & -> & _ & L).
      rewrite length_app. cbn in *. lia. }
    assert (Lyx : List.length y <= List.length x).
    { apply (sub_length_le re_hyphen (fun g => group 1 g ++ group 2 g)
               ltac:(cbn; lia)) with (n := List.length x); [|lia].
      intros s g rest M.
      destruct (match_hyphen_inv _ _ _ M) as (a & b & -> & _ & _ & ->).
      cbn. lia. }
    assert (P : search re_page_number u = None).
    { destruct (search re_page_number u) eqn:P; [|reflexivity]. exfalso.
      assert (Q : search re_page_number u <> None) by (rewrite P; discriminate).
      apply sub_page_shrinks in Q. fold x in Q. lia. }
    split; [exact P|].
    assert (X : x = u) by (unfold x; now apply sub_no_match).
    destruct (search re_hyphen u) eqn:Q; [|reflexivity]. exfalso.
    assert (Q' : search re_hyphen x <> None) by (rewrite X, Q; discriminate).
    apply sub_hyphen_shrinks in Q'. fold y in Q'. lia.
  - intros [P Q].
    rewrite (sub_no_match re_page_number _ u P).
    rewrite (sub_no_match re_hyphen _ u Q). exact S.
Qed.

(** A text with a page-number line and a hyphenated line end, each
    removed by the first application. *)
Lemma clean_text_idempotent_when_settled_witness :
  let t := lit "a\n12\nb over-\nruns" in
  tidy (lit "ab 12\n\n\n\nc-d") /\
  clean_text t = lit "a\nb overruns" /\
  clean_text (clean_text t) = clean_text t /\
  clean_text (clean_text (lit "ab 12\n\n\n\nc-d")) = clean_text (lit "ab 12\n\n\n\nc-d").
Proof.
  intros t.
  assert (T : tidy (lit "ab 12\n\n\n\nc-d")).
  { vm_compute lit. cbn [tidy]. repeat (split; [reflexivity|]). exact I. }
  split; [exact T|]. split; [vm_compute; reflexivity|]. split.
  - destruct (clean_text_idempotent_when_settled t) as [H _].
    apply H. split; vm_compute; reflexivity.
  - destruct (clean_text_idempotent_when_settled (lit "ab 12\n\n\n\nc-d")) as [_ H].
    exact (H T).
Defined.

(** The cleanup goes on removing when a match starts where another
    ends, or comes to light once another is removed. *)
Example clean_text_unsettled :
  search re_page_number (clean_text (lit "a\n1\n2\nb")) = Some (lit "\n2\n") /\
  search re_hyphen (clean_text (lit "ab-\nc-\nd")) = Some (lit "c-\nd") /\
  clean_text (lit "a-\n1\nb-\nc") = lit "ab-\nc" /\
  clean_text (lit "ab-\nc") = lit "abc".
Proof. repeat split; vm_compute; reflexivity. Qed.
